(** * SF2-to-SFZ: the SoundFont decoder and the SFZ/WAV emitters

    A shallow embedding of [services/sf2Parser.ts] and
    [services/sfzConverter.ts], followed by the properties of the decoder and
    of the converter that the specification states, each proved of the code or
    set against an example on which the code does otherwise.

    Conventions of the embedding:
    - a JavaScript string is the list of its UTF-16 code units ([list N]);
    - an integer-valued JavaScript number is a [Z]; the numbers of the
      tuning sum, and those that reach [Math.pow] and [toFixed], are IEEE
      binary64 values ([float]);
    - a property that may be [undefined] is an [option];
    - a thrown exception is the [Throw] branch of [res];
    - the [ArrayBuffer] that [parse] reads is a list of [Byte.byte]; the one
      [createWavBuffer] fills is the list of the byte values it stores, each
      a [Z] in [0, 256);
    - a [Record<number, number>] is a [gmap Z Z]. *)

From Stdlib Require Import ZArith NArith List String Ascii Lia Floats Uint63 DecimalString.
From Stdlib.Strings Require Byte.
From stdpp Require Import base option list gmap.

Local Open Scope Z_scope.

(** ** JavaScript values *)

Module JS.

(** Exceptions: [throw new Error(msg)], and the engine's [TypeError] (a
    property read on [undefined]) and [RangeError] (a [DataView] access out of
    bounds, a typed array over a buffer of the wrong length). *)
Inductive exn : Type :=
  | Error (msg : string)
  | TypeError
  | RangeError.

Inductive res (A : Type) : Type :=
  | Ok (a : A)
  | Throw (e : exn).

Arguments Ok {A} a.
Arguments Throw {A} e.

#[global] Instance res_ret : MRet res := fun _ a => Ok a.
#[global] Instance res_bind : MBind res := fun _ _ f m =>
  match m with
  | Ok a => f a
  | Throw e => Throw e
  end.

Definition returns {A} (r : res A) : bool :=
  match r with Ok _ => true | Throw _ => false end.

(** [for (let i = start; i < end; i++) body]: the loop runs
    [max 0 (end - start)] times, threading the variables the body assigns.
    The counter is a whole number that [i++] steps exactly, as every whole
    number of a magnitude below 2^53 is. *)
Fixpoint forLoop {S : Type} (n : nat) (i : Z) (body : Z → S → res S) (s : S) : res S :=
  match n with
  | O => Ok s
  | Datatypes.S n' => s' ← body i s; forLoop n' (i + 1) body s'
  end.

Definition forRange {S : Type} (start end_ : Z) (body : Z → S → res S) (s : S) : res S :=
  forLoop (Z.to_nat (end_ - start)) start body s.

(** [arr[i]] for an integer [i]: [undefined] outside [0 .. length-1]. *)
Definition at_ {A : Type} (arr : list A) (i : Z) : option A :=
  if 0 <=? i then arr !! Z.to_nat i else None.

(** [v || d] on numbers: both [undefined] and [0] are falsy. *)
Definition orElse (v : option Z) (d : Z) : Z :=
  match v with
  | Some x => if x =? 0 then d else x
  | None => d
  end.

(** [v || e] where evaluating [e] may throw: [e] is evaluated for a falsy [v]
    only. *)
Definition orElseDo (v : option Z) (e : res Z) : res Z :=
  match v with
  | Some x => if x =? 0 then e else Ok x
  | None => e
  end.

(** The object that a property read [t.p] or [t[i]] starts from: reading a
    property of [undefined] throws a [TypeError]. *)
Definition defined {A : Type} (t : option A) : res A :=
  match t with
  | Some a => Ok a
  | None => Throw TypeError
  end.

(** [t.length], for an array [t] that may be [undefined]. *)
Definition length_ {A : Type} (t : option (list A)) : res Z :=
  l ← defined t; Ok (Z.of_nat (length l)).

(** Strings. *)
Abbreviation jsstring := (list N).

Definition lit (s : string) : jsstring :=
  map N_of_ascii (list_ascii_of_string s).

Definition nl : jsstring := [10%N].

(** The decimal digits of an integer, with a sign before a negative one. *)
Definition decimal (z : Z) : jsstring :=
  lit (NilZero.string_of_int (Z.to_int z)).

(** ECMAScript's WhiteSpace and LineTerminator code points, the ones
    [String.prototype.trim] strips. *)
Definition isWhiteSpace (c : N) : bool :=
  ((9 <=? c) && (c <=? 13) || (c =? 32) || (c =? 160) || (c =? 5760)
   || (8192 <=? c) && (c <=? 8202) || (c =? 8232) || (c =? 8233)
   || (c =? 8239) || (c =? 8287) || (c =? 12288) || (c =? 65279))%N.

Fixpoint trimStart (s : jsstring) : jsstring :=
  match s with
  | c :: s' => if isWhiteSpace c then trimStart s' else s
  | [] => []
  end.

Definition trimEnd (s : jsstring) : jsstring := rev (trimStart (rev s)).

Definition trim (s : jsstring) : jsstring := trimEnd (trimStart s).

(** Numbers as binary64 values. [ofZ] is the value of an integer literal or
    of an integer read from a table (round to nearest even beyond 2^53). *)
Definition ofZ (z : Z) : float := SF2Prim (binary_normalize 53 1024 z 0 false).

(** [Number::toString] for a positive integer [x]: the digits [s], their
    number [k] and the exponent [n] with [k] as small as possible such that
    [s * 10^(n - k)] is a decimal of the number [x], that is, rounds to it.
    [x] has [nd] digits; the search goes up from [k], and between two
    decimals of [k] digits it takes the closer one, and the even [s] on a
    tie. The answer is [(s, k, n)]. *)
Fixpoint shortest (fuel : nat) (x nd k : Z) : Z * Z * Z :=
  match fuel with
  | O => (x, nd, nd)
  | S fuel' =>
      let p := 10 ^ (nd - k) in
      let lo := x / p in
      let hi := lo + 1 in
      let rounds (c : Z) := (ofZ c =? ofZ x)%float in
      let pick (s : Z) := if s =? 10 ^ k then (1, 1, nd + 1) else (s, k, nd) in
      match rounds (lo * p), rounds (hi * p) with
      | true, true =>
          if x - lo * p <? hi * p - x then pick lo
          else if hi * p - x <? x - lo * p then pick hi
          else if Z.even lo then pick lo else pick hi
      | true, false => pick lo
      | false, true => pick hi
      | false, false => shortest fuel' x nd (k + 1)
      end
  end.

(** The integer a binary64 value with no fraction stands for. *)
Definition integerOf (m : positive) (e : Z) : Z :=
  if 0 <=? e then Z.pos m * 2 ^ e else Z.pos m / 2 ^ (- e).

(** The template substitution [${x}] of a number without a fraction: all
    the digits of the shortest decimal that denotes it, followed by zeros,
    when it is less than 10^21, and the exponent notation from there on.
    Every integer up to 2^53 is its own shortest decimal. *)
Definition showWhole (x : float) : jsstring :=
  match Prim2SF x with
  | S754_nan => lit "NaN"
  | S754_infinity false => lit "Infinity"
  | S754_infinity true => lit "-Infinity"
  | S754_zero _ => lit "0"
  | S754_finite sign m e =>
      let x := integerOf m e in
      let nd := Z.of_nat (length (decimal x)) in
      let '(s, k, n) := shortest (Z.to_nat nd) x nd 1 in
      let digits := decimal s in
      (if sign then lit "-" else [])
      ++ (if n <=? 21 then digits ++ repeat 48%N (Z.to_nat (n - k))
          else take 1 digits
               ++ (if k =? 1 then [] else lit "." ++ drop 1 digits)
               ++ lit "e+" ++ decimal (n - 1))
  end.

(** [${z}] for an integer [z]. *)
Definition showZ (z : Z) : jsstring := showWhole (ofZ z).

(** [Number.prototype.toFixed(f)], following the language specification:
    the sign is split off, [n] is the integer nearest to [|x| * 10^f] (the
    larger one on a tie), and its digits are padded to [f + 1] places before
    the point is inserted. [toString] is consulted for magnitudes of 10^21
    and more. *)
Definition nearest (m : positive) (e : Z) (f : Z) : Z :=
  if 0 <=? e then Z.pos m * 2 ^ e * 10 ^ f
  else (2 * Z.pos m * 10 ^ f + 2 ^ (- e)) / 2 ^ (- e + 1).

Definition digitsFixed (n : Z) (f : nat) : jsstring :=
  let m := decimal n in
  let m := repeat 48%N (Datatypes.S f - length m) ++ m in
  let k := length m in
  if decide (f = 0%nat) then m
  else take (k - f) m ++ lit "." ++ drop (k - f) m.

Definition toFixed (toString : float → jsstring) (x : float) (f : nat) : jsstring :=
  match Prim2SF x with
  | S754_nan => lit "NaN"
  | S754_infinity false => lit "Infinity"
  | S754_infinity true => lit "-Infinity"
  | S754_zero _ => digitsFixed 0 f
  | S754_finite s m e =>
      let sign := if s then lit "-" else [] in
      if 0 <=? e then
        if 10 ^ 21 <=? Z.pos m * 2 ^ e then sign ++ toString (abs x)
        else sign ++ digitsFixed (nearest m e (Z.of_nat f)) f
      else
        if 10 ^ 21 * 2 ^ (- e) <=? Z.pos m then sign ++ toString (abs x)
        else sign ++ digitsFixed (nearest m e (Z.of_nat f)) f
  end.

(** [DataView] writes into an [ArrayBuffer]. *)
Definition byteOf (v : Z) (k : Z) : Z := (v / 2 ^ (8 * k)) mod 256.

Definition setBytes (off : nat) (bs : list Z) (buf : list Z) : res (list Z) :=
  if decide (off + length bs ≤ length buf)%nat
  then Ok (take off buf ++ bs ++ drop (off + length bs) buf)
  else Throw RangeError.

Definition setUint32 (off : nat) (v : Z) (littleEndian : bool) (buf : list Z)
  : res (list Z) :=
  let le := [byteOf v 0; byteOf v 1; byteOf v 2; byteOf v 3] in
  setBytes off (if littleEndian then le else rev le) buf.

Definition setUint16 (off : nat) (v : Z) (littleEndian : bool) (buf : list Z)
  : res (list Z) :=
  let le := [byteOf v 0; byteOf v 1] in
  setBytes off (if littleEndian then le else rev le) buf.

(** [setInt16] stores the value modulo 2^16 in two's complement: the same two
    bytes as [setUint16]. *)
Definition setInt16 := setUint16.

End JS.

Import JS.

(** ** The decoded tables ([types.ts]) *)

Record SF2Generator : Type := {
  operator : Z;
  amount : Z
}.

Record SF2Bag : Type := {
  generatorStart : Z;
  modulatorStart : Z
}.

Record SF2Instrument : Type := {
  inst_name : jsstring;
  inst_bagIndex : Z
}.

Record SF2Preset : Type := {
  name : jsstring;
  preset : Z;
  bank : Z;
  bagIndex : Z;
  library : Z;
  genre : Z;
  morphology : Z
}.

(** [data?: Int16Array]: absent, or the frames of the sample. *)
Record SF2Sample : Type := {
  sample_name : jsstring;
  start : Z;
  end_ : Z;
  startLoop : Z;
  endLoop : Z;
  sampleRate : Z;
  originalPitch : Z;
  pitchCorrection : Z;
  sampleLink : Z;
  sampleType : Z;
  data : option (list Z)
}.

(** The object [SF2Parser.parse] returns, which [getSFZContent] is given as
    [parsedData]. A table is [undefined] when the file holds no sub-chunk of
    its kind. *)
Record ParsedData : Type := {
  presets : option (list SF2Preset);
  instruments : option (list SF2Instrument);
  samples : option (list SF2Sample);
  pbag : option (list SF2Bag);
  ibag : option (list SF2Bag);
  pgen : option (list SF2Generator);
  igen : option (list SF2Generator)
}.

(** ** [services/sfzConverter.ts] *)

Module SFZConverter.

(** Generator ids from the SF2 specification. *)
Definition OPER_PAN : Z := 17.
Definition OPER_ATTACK_VOL_ENV : Z := 34.
Definition OPER_DECAY_VOL_ENV : Z := 36.
Definition OPER_SUSTAIN_VOL_ENV : Z := 37.
Definition OPER_RELEASE_VOL_ENV : Z := 38.
Definition OPER_INSTRUMENT : Z := 41.
Definition OPER_KEY_RANGE : Z := 43.
Definition OPER_VEL_RANGE : Z := 44.
Definition OPER_COARSE_TUNE : Z := 51.
Definition OPER_FINE_TUNE : Z := 52.
Definition OPER_SAMPLE_ID : Z := 53.
Definition OPER_SAMPLE_MODES : Z := 54.
Definition OPER_OVERRIDING_ROOT_KEY : Z := 58.

(** The class [[A-Za-z0-9_\-]] of [sanitize]'s regular expression, which has
    no [u] flag and so works on code units. *)
Definition allowed (c : N) : bool :=
  ((65 <=? c) && (c <=? 90) || (97 <=? c) && (c <=? 122)
   || (48 <=? c) && (c <=? 57) || (c =? 95) || (c =? 45))%N.

Definition sanitize (name : jsstring) : jsstring :=
  trim (map (fun c => if allowed c then c else 95%N) name).

(** The loop of [createWavBuffer] that stores frame [i] at byte [44 + 2 i]. *)
Fixpoint writeSamples (i : nat) (d : list Z) (view : list Z) : res (list Z) :=
  match d with
  | [] => Ok view
  | v :: d' =>
      view ← setInt16 (44 + i * 2) v true view;
      writeSamples (Datatypes.S i) d' view
  end.

Definition createWavBuffer (sample : SF2Sample) : res (list Z) :=
  match data sample with
  | None => Throw (Error "No sample data found")
  | Some d =>
      let len := length d in
      let view := repeat 0 (44 + len * 2) in
      view ← setUint32 0 0x52494646 false view;
      view ← setUint32 4 (36 + Z.of_nat len * 2) true view;
      view ← setUint32 8 0x57415645 false view;
      view ← setUint32 12 0x666d7420 false view;
      view ← setUint32 16 16 true view;
      view ← setUint16 20 1 true view;
      view ← setUint16 22 1 true view;
      view ← setUint32 24 (sampleRate sample) true view;
      view ← setUint32 28 (sampleRate sample * 2) true view;
      view ← setUint16 32 2 true view;
      view ← setUint16 34 16 true view;
      view ← setUint32 36 0x64617461 false view;
      view ← setUint32 40 (Z.of_nat len * 2) true view;
      writeSamples 0 d view
  end.

(** [getGenerators]: the generators of bag [bagIdx], later entries of the
    range overwriting earlier ones with the same operator. Reading
    [genList[i].operator] past the end of [genList] is a [TypeError], and so
    is reading [bags.length], [genList.length] or [genList[i]] of a table
    that is [undefined]. [bags.length] is not read for a negative [bagIdx],
    nor [genList.length] when the next bag has a start other than 0. *)
Definition genEnd (bags : list SF2Bag) (genList : option (list SF2Generator)) (bagIdx : Z)
  : res Z :=
  orElseDo (generatorStart <$> at_ bags (bagIdx + 1)) (length_ genList).

Definition addGenerator (genList : option (list SF2Generator)) (i : Z) (gens : gmap Z Z)
  : res (gmap Z Z) :=
  genList ← defined genList;
  match at_ genList i with
  | Some g => Ok (<[operator g := amount g]> gens)
  | None => Throw TypeError
  end.

Definition getGenerators (bags : option (list SF2Bag))
    (genList : option (list SF2Generator)) (bagIdx : Z) : res (gmap Z Z) :=
  if bagIdx <? 0 then Ok ∅
  else
    bags ← defined bags;
    if Z.of_nat (length bags) <=? bagIdx then Ok ∅
    else
      match at_ bags bagIdx with
      | None => Ok ∅
      | Some bag =>
          end_ ← genEnd bags genList bagIdx;
          forRange (generatorStart bag) end_ (addGenerator genList) ∅
      end.

(** The spread [{ ...a, ...b, ...c, ...d }]: a key takes its value from the
    last object that has it. *)
Definition spread4 (a b c d : gmap Z Z) : gmap Z Z := d ∪ (c ∪ (b ∪ a)).

(** [if (i[k] !== undefined) combined[k] = i[k];
     else if (p[k] !== undefined) combined[k] = p[k];] *)
Definition overrideRange (k : Z) (pGens iGens combined : gmap Z Z) : gmap Z Z :=
  match iGens !! k with
  | Some v => <[k := v]> combined
  | None =>
      match pGens !! k with
      | Some v => <[k := v]> combined
      | None => combined
      end
  end.

Definition combine (globalPresetGens pGens globalInstGens iGens : gmap Z Z) : gmap Z Z :=
  overrideRange OPER_VEL_RANGE pGens iGens
    (overrideRange OPER_KEY_RANGE pGens iGens
       (spread4 globalPresetGens pGens globalInstGens iGens)).

Definition rangeLo (v : Z) : Z := Z.land v 0x7F.
Definition rangeHi (v : Z) : Z := Z.land (Z.shiftr v 8) 0x7F.

(** The lines of one region, in the order they are appended to [sfz]. *)
Definition sampleLine (sample : SF2Sample) : jsstring :=
  lit "sample=" ++ sanitize (sample_name sample) ++ lit ".wav" ++ nl.

Definition keyLine (keyRange : option Z) : jsstring :=
  match keyRange with
  | Some v =>
      let lo := rangeLo v in
      let hi := rangeHi v in
      if lo =? hi then lit "key=" ++ showZ lo ++ nl
      else lit "lokey=" ++ showZ lo ++ lit " hikey=" ++ showZ hi ++ nl
  | None => lit "lokey=0 hikey=127" ++ nl
  end.

Definition velLine (velRange : option Z) : jsstring :=
  match velRange with
  | Some v => lit "lovel=" ++ showZ (rangeLo v) ++ lit " hivel=" ++ showZ (rangeHi v) ++ nl
  | None => []
  end.

Section Emitter.

(** The engine's [Math.pow] and [Number.prototype.toString]. *)
Variable Math_pow : float → float → float.
Variable Number_toString : float → jsstring.

Definition tcToSec (tc : float) : float := Math_pow 2%float (tc / 1200)%float.

Definition envLine (key : string) (v : option Z) : jsstring :=
  match v with
  | Some tc => lit key ++ toFixed Number_toString (tcToSec (ofZ tc)) 4 ++ nl
  | None => []
  end.

Definition sustainText (cb : Z) : jsstring :=
  let sustainDb := (ofZ cb / 10)%float in
  let sustainRatio := Math_pow 10%float (- sustainDb / 20)%float in
  toFixed Number_toString (sustainRatio * 100)%float 2.

Definition sustainLine (v : option Z) : jsstring :=
  match v with
  | Some cb => lit "ampeg_sustain=" ++ sustainText cb ++ nl
  | None => []
  end.

Definition panText (pan : Z) : jsstring :=
  toFixed Number_toString (ofZ pan / 10)%float 2.

Definition panLine (v : option Z) : jsstring :=
  match v with
  | Some pan => lit "pan=" ++ panText pan ++ nl
  | None => []
  end.

Definition rootKey (combined : gmap Z Z) (sample : SF2Sample) : Z :=
  match combined !! OPER_OVERRIDING_ROOT_KEY with
  | Some k => if k =? -1 then originalPitch sample else k
  | None => originalPitch sample
  end.

(** [(coarse || 0) * 100 + (fine || 0)], then [tune += pitchCorrection]:
    a product and two sums of binary64 values, each rounded. *)
Definition tuneOf (combined : gmap Z Z) (sample : SF2Sample) : float :=
  (ofZ (orElse (combined !! OPER_COARSE_TUNE) 0) * 100
   + ofZ (orElse (combined !! OPER_FINE_TUNE) 0)
   + ofZ (pitchCorrection sample))%float.

Definition tuneLine (combined : gmap Z Z) (sample : SF2Sample) : jsstring :=
  let tune := tuneOf combined sample in
  if (tune =? 0)%float then [] else lit "tune=" ++ showWhole tune ++ nl.

(** The loop points are differences of two whole numbers, which the
    subtraction rounds once, as [showZ] does. *)
Definition loopLines (combined : gmap Z Z) (sample : SF2Sample) : jsstring :=
  let sampleModes := default 0 (combined !! OPER_SAMPLE_MODES) in
  let loopMode := Z.land sampleModes 0x03 in
  if (loopMode =? 1) || (loopMode =? 3) then
    lit "loop_mode=loop_continuous" ++ nl
    ++ lit "loop_start=" ++ showZ (startLoop sample - start sample) ++ nl
    ++ lit "loop_end=" ++ showZ (endLoop sample - start sample) ++ nl
  else [].

Definition region (combined : gmap Z Z) (sample : SF2Sample) : jsstring :=
  lit "<region>" ++ nl
  ++ sampleLine sample
  ++ keyLine (combined !! OPER_KEY_RANGE)
  ++ velLine (combined !! OPER_VEL_RANGE)
  ++ envLine "ampeg_attack=" (combined !! OPER_ATTACK_VOL_ENV)
  ++ envLine "ampeg_decay=" (combined !! OPER_DECAY_VOL_ENV)
  ++ sustainLine (combined !! OPER_SUSTAIN_VOL_ENV)
  ++ envLine "ampeg_release=" (combined !! OPER_RELEASE_VOL_ENV)
  ++ panLine (combined !! OPER_PAN)
  ++ lit "pitch_keycenter=" ++ showZ (rootKey combined sample) ++ nl
  ++ tuneLine combined sample
  ++ loopLines combined sample
  ++ nl.

(** The zone range of a record: from its own [bagIndex] up to
    [(table[i + 1]?.bagIndex) || bags.length]. The record table is read
    first; the length of the bag table is read only when the next record is
    missing or starts at 0. *)
Definition pBagEnd (parsedData : ParsedData) (pos : Z) : res Z :=
  presets ← defined (presets parsedData);
  orElseDo (bagIndex <$> at_ presets (pos + 1)) (length_ (pbag parsedData)).

Definition iBagEnd (parsedData : ParsedData) (instId : Z) : res Z :=
  instruments ← defined (instruments parsedData);
  orElseDo (inst_bagIndex <$> at_ instruments (instId + 1)) (length_ (ibag parsedData)).

(** "First bag might be global": the test that guards the assignment of the
    first zone's generators to the global layer. *)
Definition firstZoneIsGlobal (terminator : Z) (firstGens : gmap Z Z) (bagStart bagEnd : Z)
  : bool :=
  bool_decide (firstGens !! terminator = None) && (bagStart <? bagEnd).

Definition globalGens (terminator : Z) (firstGens : gmap Z Z) (bagStart bagEnd : Z)
  : gmap Z Z :=
  if firstZoneIsGlobal terminator firstGens bagStart bagEnd then firstGens else ∅.

(** The body of the inner loop, over the instrument's bags. *)
Definition instZone (parsedData : ParsedData)
    (globalPresetGens pGens globalInstGens : gmap Z Z) (ib : Z) (sfz : jsstring)
  : res jsstring :=
  iGens ← getGenerators (ibag parsedData) (igen parsedData) ib;
  match iGens !! OPER_SAMPLE_ID with
  | None => Ok sfz
  | Some sampleId =>
      samples ← defined (samples parsedData);
      match at_ samples sampleId with
      | None => Ok sfz
      | Some sample =>
          if bool_decide (sample_name sample = lit "EOS") then Ok sfz
          else
            Ok (sfz ++ region (combine globalPresetGens pGens globalInstGens iGens) sample)
      end
  end.

(** The body of the outer loop, over the preset's bags. *)
Definition presetZone (parsedData : ParsedData) (globalPresetGens : gmap Z Z)
    (pb : Z) (sfz : jsstring) : res jsstring :=
  pGens ← getGenerators (pbag parsedData) (pgen parsedData) pb;
  match pGens !! OPER_INSTRUMENT with
  | None => Ok sfz
  | Some instId =>
      instruments ← defined (instruments parsedData);
      match at_ instruments instId with
      | None => Ok sfz
      | Some instrument =>
          let iBagStart := inst_bagIndex instrument in
          iBagEnd ← iBagEnd parsedData instId;
          firstIBagGens ← getGenerators (ibag parsedData) (igen parsedData) iBagStart;
          let globalInstGens := globalGens OPER_SAMPLE_ID firstIBagGens iBagStart iBagEnd in
          forRange iBagStart iBagEnd
            (instZone parsedData globalPresetGens pGens globalInstGens) sfz
      end
  end.

Definition header (preset : SF2Preset) (outputBase : jsstring) : jsstring :=
  let presetNameClean := trim (name preset) in
  lit "// " ++ presetNameClean ++ nl
  ++ lit "// Converted from SF2 to SFZ by SF2 to SFZ Studio" ++ nl ++ nl
  ++ lit "<control>" ++ nl
  ++ lit "default_path=" ++ outputBase ++ lit " " ++ presetNameClean ++ lit " Samples"
  ++ nl ++ nl.

(** [getSFZContent(preset, parsedData, outputBase)]. [indexOf] compares
    object references, so the position it answers is an argument: [pos] is
    the index of the entry of [parsedData.presets] that [preset] is, and [-1]
    for an object that is not in the table. *)
Definition getSFZContent (preset : SF2Preset) (pos : Z) (parsedData : ParsedData)
    (outputBase : jsstring) : res jsstring :=
  let sfz := header preset outputBase in
  let pBagStart := bagIndex preset in
  pBagEnd ← pBagEnd parsedData pos;
  firstPBagGens ← getGenerators (pbag parsedData) (pgen parsedData) pBagStart;
  let globalPresetGens := globalGens OPER_INSTRUMENT firstPBagGens pBagStart pBagEnd in
  forRange pBagStart pBagEnd (presetZone parsedData globalPresetGens) sfz.

End Emitter.

End SFZConverter.

(** ** [services/sf2Parser.ts] *)

Module SF2Parser.

(** [pdta], the object [parsePdta] fills: a sub-chunk that the list does not
    hold leaves its property [undefined]. *)
Record Pdta : Type := {
  phdr : option (list SF2Preset);
  pbag : option (list SF2Bag);
  pgen : option (list SF2Generator);
  inst : option (list SF2Instrument);
  ibag : option (list SF2Bag);
  igen : option (list SF2Generator);
  shdr : option (list SF2Sample)
}.

Definition emptyPdta : Pdta :=
  {| phdr := None; pbag := None; pgen := None; inst := None;
     ibag := None; igen := None; shdr := None |}.

(** A reader: a method that moves [this.offset] and may throw. *)
Definition M (A : Type) : Type := Z → res (A * Z).

#[global] Instance M_ret : MRet M := fun _ a offset => Ok (a, offset).
#[global] Instance M_bind : MBind M := fun _ _ f m offset =>
  match m offset with
  | Ok (a, offset') => f a offset'
  | Throw e => Throw e
  end.

(** [for (let i = 0; i < count; i++) items.push(item)], with
    [count = size / width] a quotient of numbers that need not be whole:
    [i < size / width] holds as long as [i * width < size], so the loop runs
    the quotient rounded up. *)
Definition recordCount (size width : Z) : nat := Z.to_nat ((size + width - 1) / width).

Fixpoint readItems {A : Type} (item : M A) (n : nat) : M (list A) :=
  match n with
  | O => mret []
  | S n' => x ← item; xs ← readItems item n'; mret (x :: xs)
  end.

(** [while (cond) body], for the loops whose number of turns the input
    decides. [None] stands for a loop that has not ended after [fuel] turns. *)
Fixpoint while {St : Type} (fuel : nat) (cond : St → bool)
    (body : St → option (res St)) (s : St) : option (res St) :=
  if cond s then
    match fuel with
    | O => None
    | S fuel' =>
        match body s with
        | Some (Ok s') => while fuel' cond body s'
        | r => r
        end
    end
  else Some (Ok s).

Section Reader.

Variable buffer : list Byte.byte.

Definition byteLength : Z := Z.of_nat (length buffer).

(** [DataView] reads; one that reaches past the end is a [RangeError]. *)
Definition getUint8 (byteOffset : Z) : res Z :=
  match at_ buffer byteOffset with
  | Some b => Ok (Z.of_N (Byte.to_N b))
  | None => Throw RangeError
  end.

Definition getUint16 (byteOffset : Z) : res Z :=
  b0 ← getUint8 byteOffset;
  b1 ← getUint8 (byteOffset + 1);
  Ok (b0 + 256 * b1).

Definition getUint32 (byteOffset : Z) : res Z :=
  lo ← getUint16 byteOffset;
  hi ← getUint16 (byteOffset + 2);
  Ok (lo + 65536 * hi).

Definition getInt16 (byteOffset : Z) : res Z :=
  v ← getUint16 byteOffset;
  Ok (if v <? 32768 then v else v - 65536).

Definition getInt8 (byteOffset : Z) : res Z :=
  v ← getUint8 byteOffset;
  Ok (if v <? 128 then v else v - 256).

(** The loop of [readString]: it stops at the first NUL, and reads no byte
    after it. *)
Fixpoint readChars (n : nat) (byteOffset : Z) : res jsstring :=
  match n with
  | O => Ok []
  | S n' =>
      char ← getUint8 byteOffset;
      if char =? 0 then Ok []
      else chars ← readChars n' (byteOffset + 1); Ok (Z.to_N char :: chars)
  end.

Definition readString (length : nat) : M jsstring := fun offset =>
  chars ← readChars length offset;
  Ok (trim chars, offset + Z.of_nat length).

Definition readUint32 : M Z := fun offset =>
  val ← getUint32 offset; Ok (val, offset + 4).

Definition readUint16 : M Z := fun offset =>
  val ← getUint16 offset; Ok (val, offset + 2).

Definition readInt16 : M Z := fun offset =>
  val ← getInt16 offset; Ok (val, offset + 2).

Definition readInt8 : M Z := fun offset =>
  val ← getInt8 offset; Ok (val, offset + 1).

Definition readUint8 : M Z := fun offset =>
  val ← getUint8 offset; Ok (val, offset + 1).

(** The record readers. *)
Definition phdrItem : M SF2Preset :=
  name ← readString 20;
  preset ← readUint16;
  bank ← readUint16;
  bagIndex ← readUint16;
  library ← readUint32;
  genre ← readUint32;
  morphology ← readUint32;
  mret {| name := name; preset := preset; bank := bank; bagIndex := bagIndex;
          library := library; genre := genre; morphology := morphology |}.

Definition bagItem : M SF2Bag :=
  generatorStart ← readUint16;
  modulatorStart ← readUint16;
  mret {| generatorStart := generatorStart; modulatorStart := modulatorStart |}.

Definition genItem : M SF2Generator :=
  operator ← readUint16;
  amount ← readInt16;
  mret {| operator := operator; amount := amount |}.

Definition instItem : M SF2Instrument :=
  name ← readString 20;
  bagIndex ← readUint16;
  mret {| inst_name := name; inst_bagIndex := bagIndex |}.

Definition shdrItem : M SF2Sample :=
  name ← readString 20;
  start ← readUint32;
  end_ ← readUint32;
  startLoop ← readUint32;
  endLoop ← readUint32;
  sampleRate ← readUint32;
  originalPitch ← readUint8;
  pitchCorrection ← readInt8;
  sampleLink ← readUint16;
  sampleType ← readUint16;
  mret {| sample_name := name; start := start; end_ := end_;
          startLoop := startLoop; endLoop := endLoop; sampleRate := sampleRate;
          originalPitch := originalPitch; pitchCorrection := pitchCorrection;
          sampleLink := sampleLink; sampleType := sampleType; data := None |}.

Definition readPhdr (size : Z) : M (list SF2Preset) := readItems phdrItem (recordCount size 38).
Definition readBag (size : Z) : M (list SF2Bag) := readItems bagItem (recordCount size 4).
Definition readGen (size : Z) : M (list SF2Generator) := readItems genItem (recordCount size 4).
Definition readInst (size : Z) : M (list SF2Instrument) := readItems instItem (recordCount size 22).
Definition readShdr (size : Z) : M (list SF2Sample) := readItems shdrItem (recordCount size 46).

(** The [switch] of [parsePdta]. *)
Definition readTable (id : jsstring) (size : Z) (pdta : Pdta) : M Pdta :=
  if decide (id = lit "phdr") then
    items ← readPhdr size;
    mret {| phdr := Some items; pbag := pbag pdta; pgen := pgen pdta; inst := inst pdta;
            ibag := ibag pdta; igen := igen pdta; shdr := shdr pdta |}
  else if decide (id = lit "pbag") then
    items ← readBag size;
    mret {| phdr := phdr pdta; pbag := Some items; pgen := pgen pdta; inst := inst pdta;
            ibag := ibag pdta; igen := igen pdta; shdr := shdr pdta |}
  else if decide (id = lit "pgen") then
    items ← readGen size;
    mret {| phdr := phdr pdta; pbag := pbag pdta; pgen := Some items; inst := inst pdta;
            ibag := ibag pdta; igen := igen pdta; shdr := shdr pdta |}
  else if decide (id = lit "inst") then
    items ← readInst size;
    mret {| phdr := phdr pdta; pbag := pbag pdta; pgen := pgen pdta; inst := Some items;
            ibag := ibag pdta; igen := igen pdta; shdr := shdr pdta |}
  else if decide (id = lit "ibag") then
    items ← readBag size;
    mret {| phdr := phdr pdta; pbag := pbag pdta; pgen := pgen pdta; inst := inst pdta;
            ibag := Some items; igen := igen pdta; shdr := shdr pdta |}
  else if decide (id = lit "igen") then
    items ← readGen size;
    mret {| phdr := phdr pdta; pbag := pbag pdta; pgen := pgen pdta; inst := inst pdta;
            ibag := ibag pdta; igen := Some items; shdr := shdr pdta |}
  else if decide (id = lit "shdr") then
    items ← readShdr size;
    mret {| phdr := phdr pdta; pbag := pbag pdta; pgen := pgen pdta; inst := inst pdta;
            ibag := ibag pdta; igen := igen pdta; shdr := Some items |}
  else mret pdta.

(** One turn of the loop of [parsePdta]: whatever the table reader
    consumed, the cursor ends at [next]. *)
Definition pdtaChunk (s : Pdta * Z) : res (Pdta * Z) :=
  let '(pdta, offset) := s in
  '(id, offset) ← readString 4 offset;
  '(size, offset) ← readUint32 offset;
  let next := offset + size in
  '(pdta, _) ← readTable id size pdta offset;
  Ok (pdta, next).

Definition parsePdta (fuel : nat) (limit : Z) (offset : Z) : option (res (Pdta * Z)) :=
  while fuel (fun s => s.2 <? limit) (fun s => Some (pdtaChunk s)) (emptyPdta, offset).

(** One turn of the loop over the sub-chunks of the [sdta] list; the state is
    [(sdtaOffset, sdtaSize, offset)]. *)
Definition sdtaChunk (s : Z * Z * Z) : res (Z * Z * Z) :=
  let '(sdtaOffset, sdtaSize, offset) := s in
  '(subId, offset) ← readString 4 offset;
  '(subSize, offset) ← readUint32 offset;
  if decide (subId = lit "smpl") then Ok (offset, subSize, offset + subSize)
  else Ok (sdtaOffset, sdtaSize, offset + subSize).

(** The state of the chunk walk of [parse]. *)
Record Walk : Type := {
  w_pdta : Pdta;
  w_sdtaOffset : Z;
  w_sdtaSize : Z;
  w_offset : Z
}.

Definition chunk (fuel : nat) (w : Walk) : option (res Walk) :=
  match readString 4 (w_offset w) with
  | Throw e => Some (Throw e)
  | Ok (chunkId, offset) =>
  match readUint32 offset with
  | Throw e => Some (Throw e)
  | Ok (chunkSize, offset) =>
      let endOffset := offset + chunkSize in
      let skip := {| w_pdta := w_pdta w; w_sdtaOffset := w_sdtaOffset w;
                     w_sdtaSize := w_sdtaSize w; w_offset := endOffset |} in
      if decide (chunkId = lit "LIST") then
        match readString 4 offset with
        | Throw e => Some (Throw e)
        | Ok (listType, offset) =>
            if decide (listType = lit "pdta") then
              match parsePdta fuel endOffset offset with
              | Some (Ok (pdta, offset)) =>
                  Some (Ok {| w_pdta := pdta; w_sdtaOffset := w_sdtaOffset w;
                              w_sdtaSize := w_sdtaSize w; w_offset := offset |})
              | Some (Throw e) => Some (Throw e)
              | None => None
              end
            else if decide (listType = lit "sdta") then
              match while fuel (fun s => s.2 <? endOffset) (fun s => Some (sdtaChunk s))
                      (w_sdtaOffset w, w_sdtaSize w, offset) with
              | Some (Ok (sdtaOffset, sdtaSize, offset)) =>
                  Some (Ok {| w_pdta := w_pdta w; w_sdtaOffset := sdtaOffset;
                              w_sdtaSize := sdtaSize; w_offset := offset |})
              | Some (Throw e) => Some (Throw e)
              | None => None
              end
            else Some (Ok skip)
        end
      else Some (Ok skip)
  end
  end.

(** [ArrayBuffer.prototype.slice] and [new Int16Array(buffer)], which refuses
    a buffer of odd length. *)
Definition slice (start end_ : Z) : list Byte.byte :=
  let len := byteLength in
  let first := if start <? 0 then Z.max (len + start) 0 else Z.min start len in
  let final := if end_ <? 0 then Z.max (len + end_) 0 else Z.min end_ len in
  take (Z.to_nat (final - first)) (drop (Z.to_nat first) buffer).

Fixpoint Int16Array (bytes : list Byte.byte) : res (list Z) :=
  match bytes with
  | [] => Ok []
  | [_] => Throw RangeError
  | b0 :: b1 :: rest =>
      let v := Z.of_N (Byte.to_N b0) + 256 * Z.of_N (Byte.to_N b1) in
      frames ← Int16Array rest;
      Ok ((if v <? 32768 then v else v - 65536) :: frames)
  end.

Definition attachData (sdtaOffset : Z) (s : SF2Sample) : res SF2Sample :=
  let start_ := start s * 2 in
  let end' := end_ s * 2 in
  rawData ← Int16Array (slice (sdtaOffset + start_) (sdtaOffset + end'));
  Ok {| sample_name := sample_name s; start := start s; end_ := end_ s;
        startLoop := startLoop s; endLoop := endLoop s; sampleRate := sampleRate s;
        originalPitch := originalPitch s; pitchCorrection := pitchCorrection s;
        sampleLink := sampleLink s; sampleType := sampleType s;
        data := Some rawData |}.

Fixpoint mapThrowing {A B : Type} (f : A → res B) (l : list A) : res (list B) :=
  match l with
  | [] => Ok []
  | x :: l' => y ← f x; ys ← mapThrowing f l'; Ok (y :: ys)
  end.

(** What [parse] does once the magic tags are read. The object it returns
    has the properties [presets], [instruments], [samples], [pbag], [ibag],
    [pgen] and [igen], in this order. *)
Definition walkAndAttach (fuel : nat) (offset : Z) : option (res ParsedData) :=
  match while fuel (fun w => w_offset w <? byteLength) (chunk fuel)
          {| w_pdta := emptyPdta; w_sdtaOffset := 0; w_sdtaSize := 0;
             w_offset := offset |} with
  | None => None
  | Some (Throw e) => Some (Throw e)
  | Some (Ok w) =>
      let pdta := w_pdta w in
      Some (match shdr pdta with
            | None => Throw TypeError
            | Some headers =>
                samples ← mapThrowing (attachData (w_sdtaOffset w)) headers;
                Ok (Build_ParsedData (phdr pdta) (inst pdta) (Some samples)
                      (pbag pdta) (ibag pdta) (pgen pdta) (igen pdta))
            end)
  end.

Definition parseWith (fuel : nat) : option (res ParsedData) :=
  match readString 4 0 with
  | Throw e => Some (Throw e)
  | Ok (riff, offset) =>
      if decide (riff = lit "RIFF") then
        match readUint32 offset with
        | Throw e => Some (Throw e)
        | Ok (_, offset) =>
            match readString 4 offset with
            | Throw e => Some (Throw e)
            | Ok (fb, offset) =>
                if decide (fb = lit "sfbk") then walkAndAttach fuel offset
                else Some (Throw (Error "Not a SoundFont file"))
            end
        end
      else Some (Throw (Error "Not a RIFF file"))
  end.

(** [parse()]: every turn of its loops moves the cursor forward by eight
    bytes or more inside the buffer, so one turn per byte is fuel enough. *)
Definition parse : option (res ParsedData) := parseWith (S (length buffer)).

End Reader.

End SF2Parser.

(** ** The callers in [App.tsx] *)

Module App.

(** [parsedData.samples.filter(s => s.name !== 'EOS' && s.data)]: a typed
    array is an object, and truthy whatever its length. *)
Definition validSamples (samples : list SF2Sample) : list SF2Sample :=
  filter (fun s => sample_name s ≠ lit "EOS" ∧ is_Some (data s)) samples.

End App.

(** ** Notions used to state the properties *)

(** Reading back a buffer of byte values, as [DataView.getUint32(off, true)]
    and [DataView.getInt16(off, true)] do. *)
Definition byteAt (buf : list Z) (off : nat) : Z := default 0 (buf !! off).

Definition u32le (buf : list Z) (off : nat) : Z :=
  byteAt buf off + 256 * byteAt buf (off + 1)
  + 65536 * byteAt buf (off + 2) + 16777216 * byteAt buf (off + 3).

Definition i16le (buf : list Z) (off : nat) : Z :=
  let v := byteAt buf off + 256 * byteAt buf (off + 1) in
  if v <? 32768 then v else v - 65536.

Definition u16le (buf : list Z) (off : nat) : Z :=
  byteAt buf off + 256 * byteAt buf (off + 1).

(** The elements of an [Int16Array]. *)
Definition int16 (v : Z) : Prop := -32768 <= v < 32768.

#[global] Instance int16_dec (v : Z) : Decision (int16 v).
Proof. unfold int16. apply _. Defined.

(** The other integer types of the file's fields. *)
Definition uint8 (v : Z) : Prop := 0 <= v < 256.
Definition int8 (v : Z) : Prop := -128 <= v < 128.
Definition uint16 (v : Z) : Prop := 0 <= v < 65536.
Definition uint32 (v : Z) : Prop := 0 <= v < 2 ^ 32.

(** The two bytes [setInt16(_, v, true)] stores. *)
Definition frameBytes (v : Z) : list Z := [byteOf v 0; byteOf v 1].

(** The 44 bytes the thirteen header writes of [createWavBuffer] leave. *)
Definition wavHeader (rate : Z) (len : nat) : list Z :=
  [0x52; 0x49; 0x46; 0x46]
  ++ map (byteOf (36 + Z.of_nat len * 2)) [0; 1; 2; 3]
  ++ [0x57; 0x41; 0x56; 0x45; 0x66; 0x6d; 0x74; 0x20]
  ++ [16; 0; 0; 0; 1; 0; 1; 0]
  ++ map (byteOf rate) [0; 1; 2; 3]
  ++ map (byteOf (rate * 2)) [0; 1; 2; 3]
  ++ [2; 0; 16; 0; 0x64; 0x61; 0x74; 0x61]
  ++ map (byteOf (Z.of_nat len * 2)) [0; 1; 2; 3].

(** The bytes of [buffer] from the cursor on. *)
Definition bytesLeft (buffer : list Byte.byte) (off : Z) : nat :=
  Z.to_nat (SF2Parser.byteLength buffer - off).

(** The instrument an index leads to, if the instrument table is there and
    holds one at that index. *)
Definition instrumentAt (d : ParsedData) (instId : Z) : option SF2Instrument :=
  instruments d ≫= fun table => at_ table instId.

(** A sample reference that leads nowhere in a sample table: past the table,
    or to the sentinel. *)
Definition sampleMissing (table : list SF2Sample) (sampleId : Z) : Prop :=
  match at_ table sampleId with
  | None => True
  | Some sample => sample_name sample = lit "EOS"
  end.

(** An instrument zone that yields no region: its generators can be read,
    and its sample reference, if it has one, leads nowhere in the sample
    table. *)
Definition instZoneSkipped (d : ParsedData) (ib : Z) : Prop :=
  ∃ iGens, SFZConverter.getGenerators (ibag d) (igen d) ib = Ok iGens
    ∧ ∀ sampleId, iGens !! SFZConverter.OPER_SAMPLE_ID = Some sampleId →
        ∃ table, samples d = Some table ∧ sampleMissing table sampleId.

(** A preset zone that yields no region: its instrument reference, if it has
    one, leads past the instrument table or to an instrument all of whose
    zones are skipped. *)
Definition presetZoneSkipped (d : ParsedData) (pb : Z) : Prop :=
  ∃ pGens, SFZConverter.getGenerators (pbag d) (pgen d) pb = Ok pGens
    ∧ ∀ instId, pGens !! SFZConverter.OPER_INSTRUMENT = Some instId →
        ∃ table, instruments d = Some table
          ∧ match at_ table instId with
            | None => True
            | Some instrument =>
                ∃ first bagEnd,
                  SFZConverter.getGenerators (ibag d) (igen d) (inst_bagIndex instrument)
                  = Ok first
                  ∧ SFZConverter.iBagEnd d instId = Ok bagEnd
                  ∧ ∀ ib, inst_bagIndex instrument <= ib < bagEnd → instZoneSkipped d ib
            end.

(** The lines of a region between its ranges and its loop: the envelope, the
    pan, the pitch centre and the tuning. *)
Definition soundLines (Math_pow : float → float → float) (Number_toString : float → jsstring)
    (combined : gmap Z Z) (sample : SF2Sample) : jsstring :=
  SFZConverter.envLine Math_pow Number_toString "ampeg_attack="
    (combined !! SFZConverter.OPER_ATTACK_VOL_ENV)
  ++ SFZConverter.envLine Math_pow Number_toString "ampeg_decay="
       (combined !! SFZConverter.OPER_DECAY_VOL_ENV)
  ++ SFZConverter.sustainLine Math_pow Number_toString
       (combined !! SFZConverter.OPER_SUSTAIN_VOL_ENV)
  ++ SFZConverter.envLine Math_pow Number_toString "ampeg_release="
       (combined !! SFZConverter.OPER_RELEASE_VOL_ENV)
  ++ SFZConverter.panLine Number_toString (combined !! SFZConverter.OPER_PAN)
  ++ lit "pitch_keycenter=" ++ showZ (SFZConverter.rootKey combined sample) ++ nl
  ++ SFZConverter.tuneLine combined sample.

(** The value of key [k] in the first of [layers] that defines it. *)
Fixpoint firstDefined (layers : list (gmap Z Z)) (k : Z) : option Z :=
  match layers with
  | [] => None
  | m :: rest => match m !! k with Some v => Some v | None => firstDefined rest k end
  end.

(** An engine for the examples: a [Math.pow] that is right for the exponents
    0 and 1 and answers [NaN] for the others, and a [toString] that is never
    asked. *)
Definition examplePow (x y : float) : float :=
  if (y =? 0)%float then 1%float else if (y =? 1)%float then x else nan.

Definition exampleToString (x : float) : jsstring := lit "NaN".

(** Among the generators at the indices [[i, i + n)], the last one with
    operator [k] has the amount [v]; and none of them has operator [k]. *)
Definition storedLast (genList : list SF2Generator) (i : Z) (n : nat) (k v : Z) : Prop :=
  ∃ j gen, i <= j < i + Z.of_nat n
    ∧ at_ genList j = Some gen ∧ operator gen = k ∧ amount gen = v
    ∧ ∀ j' gen', j < j' < i + Z.of_nat n → at_ genList j' = Some gen' → operator gen' ≠ k.

Definition notStored (genList : list SF2Generator) (i : Z) (n : nat) (k : Z) : Prop :=
  ∀ j gen, i <= j < i + Z.of_nat n → at_ genList j = Some gen → operator gen ≠ k.

(** [s + t] for the text [t] that a computation returns. *)
Definition appendTo (s : jsstring) (r : res jsstring) : res jsstring :=
  match r with
  | Ok t => Ok (s ++ t)
  | Throw e => Throw e
  end.

(** The header [s] with its frames attached. *)
Definition withData (s : SF2Sample) (d : list Z) : SF2Sample :=
  {| sample_name := sample_name s; start := start s; end_ := end_ s;
     startLoop := startLoop s; endLoop := endLoop s; sampleRate := sampleRate s;
     originalPitch := originalPitch s; pitchCorrection := pitchCorrection s;
     sampleLink := sampleLink s; sampleType := sampleType s; data := Some d |}.

(** Every bag starts inside the generator table, or at its end. *)
Definition gensInBounds (bags : list SF2Bag) (genList : list SF2Generator) : Prop :=
  Forall (fun b => 0 <= generatorStart b <= Z.of_nat (length genList)) bags.

(** The zone indices of the tables are unsigned 16-bit numbers, as
    [readPhdr] and [readInst] read them: the counters of the two zone loops
    are then whole numbers that [pb++] and [ib++] step exactly. *)
Definition zoneIndices16 (d : ParsedData) : Prop :=
  (∀ table, presets d = Some table → Forall (fun p => uint16 (bagIndex p)) table)
  ∧ (∀ table, instruments d = Some table →
       Forall (fun i => uint16 (inst_bagIndex i)) table).

(** The end of the generator range of bag [bagIdx] in tables that are there:
    the start of the next bag, or the length of the generator table when
    that start is 0 or there is no next bag. *)
Definition rangeEnd (bags : list SF2Bag) (genList : list SF2Generator) (bagIdx : Z) : Z :=
  orElse (generatorStart <$> at_ bags (bagIdx + 1)) (Z.of_nat (length genList)).

(** The text [pan=] is followed by, for a pan of [p] tenths of a percent: the
    sign, the whole percents, and the tenth followed by a zero. *)
Definition panDigits (p : Z) : jsstring :=
  (if p <? 0 then lit "-" else [])
  ++ decimal (Z.abs p / 10) ++ lit "." ++ decimal (Z.abs p mod 10) ++ lit "0".

(** ** Example tables *)

Definition mkPreset (n : string) (bag : Z) : SF2Preset :=
  {| name := lit n; preset := 0; bank := 0; bagIndex := bag;
     library := 0; genre := 0; morphology := 0 |}.

Definition mkInst (n : string) (bag : Z) : SF2Instrument :=
  {| inst_name := lit n; inst_bagIndex := bag |}.

Definition mkSample (n : string) (d : option (list Z)) : SF2Sample :=
  {| sample_name := lit n; start := 0; end_ := 100; startLoop := 0; endLoop := 0;
     sampleRate := 44100; originalPitch := 60; pitchCorrection := 0;
     sampleLink := 0; sampleType := 1; data := d |}.

Definition bag (g : Z) : SF2Bag := {| generatorStart := g; modulatorStart := 0 |}.

Definition gen (o a : Z) : SF2Generator := {| operator := o; amount := a |}.

(** One preset with one zone, which holds a pan generator and no instrument. *)
Definition soloZoneBank : ParsedData :=
  {| presets := Some [mkPreset "Solo" 0; mkPreset "EOP" 1];
     instruments := Some [mkInst "EOI" 0];
     samples := Some [mkSample "EOS" (Some [])];
     pbag := Some [bag 0; bag 1];
     ibag := Some [bag 0];
     pgen := Some [gen 17 100; gen 0 0];
     igen := Some [gen 0 0] |}.

(** An instrument whose global zone sets the key range 0..64, and whose one
    local zone sets none; neither does the preset zone. *)
Definition globalRangeBank : ParsedData :=
  {| presets := Some [mkPreset "Test" 0; mkPreset "EOP" 1];
     instruments := Some [mkInst "Inst" 0; mkInst "EOI" 2];
     samples := Some [mkSample "Snd" (Some [1; -1]); mkSample "EOS" (Some [])];
     pbag := Some [bag 0; bag 1];
     ibag := Some [bag 0; bag 1; bag 2];
     pgen := Some [gen 41 0; gen 0 0];
     igen := Some [gen 43 16384; gen 53 0; gen 0 0] |}.

(** A first preset without zones: it and its successor both start at zone 0. *)
Definition emptyFirstPresetBank : ParsedData :=
  {| presets := Some [mkPreset "Empty" 0; mkPreset "Piano" 0; mkPreset "EOP" 1];
     instruments := Some [mkInst "Inst" 0; mkInst "EOI" 1];
     samples := Some [mkSample "Snd" (Some [1; -1]); mkSample "EOS" (Some [])];
     pbag := Some [bag 0; bag 1];
     ibag := Some [bag 0; bag 1];
     pgen := Some [gen 41 0; gen 0 0];
     igen := Some [gen 53 0; gen 0 0] |}.

(** A preset whose first zone names instrument 7, which does not exist, and
    whose second zone names an instrument with two zones: one names sample 9,
    which does not exist, the other the sentinel. *)
Definition danglingBank : ParsedData :=
  {| presets := Some [mkPreset "Test" 0; mkPreset "EOP" 2];
     instruments := Some [mkInst "Inst" 0; mkInst "EOI" 2];
     samples := Some [mkSample "Snd" (Some [1; -1]); mkSample "EOS" (Some [])];
     pbag := Some [bag 0; bag 1; bag 2];
     ibag := Some [bag 0; bag 1; bag 2];
     pgen := Some [gen 41 7; gen 41 0; gen 0 0];
     igen := Some [gen 53 9; gen 53 1; gen 0 0] |}.

(** Builders for example files. *)
Definition byteOfZ (v : Z) : Byte.byte :=
  default Byte.x00 (Byte.of_N (Z.to_N (v mod 256))).

Definition le16 (v : Z) : list Byte.byte := [byteOfZ v; byteOfZ (v / 256)].

Definition le32 (v : Z) : list Byte.byte := le16 v ++ le16 (v / 65536).

Definition tag (s : string) : list Byte.byte := list_byte_of_string s.

Definition name20 (s : string) : list Byte.byte :=
  take 20 (list_byte_of_string s ++ repeat Byte.x00 20).

Definition chunkOf (id : string) (body : list Byte.byte) : list Byte.byte :=
  tag id ++ le32 (Z.of_nat (length body)) ++ body.

(** A SoundFont whose [pbag] sub-chunk declares 6 bytes: one bag record and
    a half. The other tables hold their terminal record only. *)
Definition oddBagFile : list Byte.byte :=
  let pdta :=
    tag "pdta"
    ++ chunkOf "phdr" (name20 "EOP" ++ le16 0 ++ le16 0 ++ le16 0
                       ++ le32 0 ++ le32 0 ++ le32 0)
    ++ chunkOf "pbag" (le16 0 ++ le16 0 ++ le16 1)
    ++ chunkOf "pgen" (le16 0 ++ le16 0)
    ++ chunkOf "inst" (name20 "EOI" ++ le16 0)
    ++ chunkOf "ibag" (le16 0 ++ le16 0)
    ++ chunkOf "igen" (le16 0 ++ le16 0)
    ++ chunkOf "shdr" (name20 "EOS" ++ le32 0 ++ le32 0 ++ le32 0 ++ le32 0
                       ++ le32 0 ++ le16 0 ++ le16 0 ++ le16 0) in
  let body := tag "sfbk" ++ chunkOf "LIST" pdta in
  tag "RIFF" ++ le32 (Z.of_nat (length body)) ++ body.

(** A SoundFont made of an [sdta] list whose [smpl] sub-chunk holds the
    sample pool [pool], and of a [pdta] list that holds the bytes [pdta]. *)
Definition bankFile (pool pdta : list Byte.byte) : list Byte.byte :=
  let body := tag "sfbk"
              ++ chunkOf "LIST" (tag "sdta" ++ chunkOf "smpl" pool)
              ++ chunkOf "LIST" (tag "pdta" ++ pdta) in
  tag "RIFF" ++ le32 (Z.of_nat (length body)) ++ body.

(** The 46 bytes of a sample header for the frames [a .. b]. *)
Definition shdrRecord (n : string) (a b : Z) : list Byte.byte :=
  name20 n ++ le32 a ++ le32 b ++ le32 a ++ le32 b ++ le32 22050
  ++ [byteOfZ 60; byteOfZ 0] ++ le16 0 ++ le16 1.

(** The 38 bytes of a preset header whose zones start at [bag]. *)
Definition phdrRecord (n : string) (bag : Z) : list Byte.byte :=
  name20 n ++ le16 0 ++ le16 0 ++ le16 bag ++ le32 0 ++ le32 0 ++ le32 0.

(** A SoundFont without [inst], [ibag] and [igen] sub-chunks, whose preset
    "Test" has one zone, which names instrument 0; and the tables [parse]
    returns for it. *)
Definition noInstFile : list Byte.byte :=
  let pdta :=
    tag "pdta"
    ++ chunkOf "phdr" (phdrRecord "Test" 0 ++ phdrRecord "EOP" 1)
    ++ chunkOf "pbag" (le16 0 ++ le16 0 ++ le16 1 ++ le16 0)
    ++ chunkOf "pgen" (le16 41 ++ le16 0 ++ le16 0 ++ le16 0)
    ++ chunkOf "shdr" (name20 "EOS" ++ le32 0 ++ le32 0 ++ le32 0 ++ le32 0
                       ++ le32 0 ++ le16 0 ++ le16 0 ++ le16 0) in
  let body := tag "sfbk" ++ chunkOf "LIST" pdta in
  tag "RIFF" ++ le32 (Z.of_nat (length body)) ++ body.

Definition noInstBank : ParsedData :=
  {| presets := Some [mkPreset "Test" 0; mkPreset "EOP" 1];
     instruments := None;
     samples := Some [{| sample_name := lit "EOS"; start := 0; end_ := 0;
                         startLoop := 0; endLoop := 0; sampleRate := 0;
                         originalPitch := 0; pitchCorrection := 0;
                         sampleLink := 0; sampleType := 0; data := Some [] |}];
     pbag := Some [bag 0; bag 1];
     ibag := None;
     pgen := Some [gen 41 0; gen 0 0];
     igen := None |}.

(** A bag of three generators, two of them for the pan. *)
Definition twicePanBags : list SF2Bag := [bag 0; bag 3].

Definition twicePanGens : list SF2Generator :=
  [gen 17 10; gen 43 5; gen 17 20; gen 0 0].

(** The two bytes of a key range from 60 to 255. *)
Definition wideRangeBytes : list Byte.byte := [byteOfZ 60; byteOfZ 255].

(** A sample pool of four frames, and a header for its frames [a .. b]. *)
Definition pcmPool : list Byte.byte := le16 1 ++ le16 (-2) ++ le16 300 ++ le16 (-32768).

(** Two [pdta] lists for it: one whose sample takes the frames 1 to 3, and
    one whose sample asks for the frames 2 to 100. *)
Definition poolHeaders : list Byte.byte :=
  chunkOf "shdr" (shdrRecord "Pool" 1 3 ++ shdrRecord "EOS" 0 0).

Definition longHeaders : list Byte.byte :=
  chunkOf "shdr" (shdrRecord "Long" 2 100 ++ shdrRecord "EOS" 0 0).

(** A sample whose [data] is an [Int16Array] of length zero. *)
Definition blankSample : SF2Sample := mkSample "Blank" (Some []).

(** A sample of a hundred frames. *)
Definition hundredFrames : list Z := map (fun i => Z.of_nat i * 321 - 16000) (seq 0 100).

Definition sndSample : SF2Sample := mkSample "Snd" (Some hundredFrames).

(** ** Strings: [trim] and [sanitize] *)

Section Strings.

Import SFZConverter.

Lemma allowed_not_whitespace (c : N) : allowed c = true → isWhiteSpace c = false.
Proof.
  unfold allowed, isWhiteSpace. intros H.
  repeat (apply orb_true_iff in H; destruct H as [H | H]);
    repeat (apply andb_true_iff in H; destruct H as [? H]);
    repeat match goal with
           | H : (_ <=? _)%N = true |- _ => apply N.leb_le in H
           | H : (_ =? _)%N = true |- _ => apply N.eqb_eq in H
           end;
    repeat (apply orb_false_iff; split); try (apply andb_false_iff);
    repeat match goal with
           | |- (_ =? _)%N = false => apply N.eqb_neq; lia
           | |- _ ∨ _ => first [left; apply N.leb_gt; lia | right; apply N.leb_gt; lia]
           end.
Qed.

Lemma trimStart_id (s : jsstring) :
  Forall (fun c => isWhiteSpace c = false) s → trimStart s = s.
Proof. destruct 1 as [| c s Hc _]; simpl; [done | by rewrite Hc]. Qed.

Lemma trim_id (s : jsstring) :
  Forall (fun c => isWhiteSpace c = false) s → trim s = s.
Proof.
  intros H. unfold trim, trimEnd. rewrite (trimStart_id s H).
  rewrite trimStart_id; [apply rev_involutive | by apply List.Forall_rev].
Qed.

Lemma replaced_allowed (s : jsstring) :
  Forall (fun c => allowed c = true) (map (fun c => if allowed c then c else 95%N) s).
Proof.
  induction s as [| c s IH]; simpl; constructor; [| done].
  destruct (allowed c) eqn:E; [done | reflexivity].
Qed.

Lemma sanitize_replaces (s : jsstring) :
  sanitize s = map (fun c => if allowed c then c else 95%N) s.
Proof.
  unfold sanitize. apply trim_id.
  eapply Forall_impl; [apply replaced_allowed |].
  intros c. apply allowed_not_whitespace.
Qed.

End Strings.

(** ** [DataView] writes and the WAV buffer *)

Section Wav.

Import SFZConverter.

Lemma setBytes_ok (off : nat) (bs buf : list Z) :
  (off + length bs ≤ length buf)%nat →
  setBytes off bs buf = Ok (take off buf ++ bs ++ drop (off + length bs) buf).
Proof. intros H. unfold setBytes. by rewrite decide_True. Qed.

Lemma setBytes_splice (pre old post bs : list Z) :
  length old = length bs →
  setBytes (length pre) bs (pre ++ old ++ post) = Ok (pre ++ bs ++ post).
Proof.
  intros Hlen. rewrite setBytes_ok by (rewrite !length_app; lia).
  rewrite take_app_length. rewrite drop_app_add'; [| done].
  rewrite <- Hlen, drop_app_length. done.
Qed.

Lemma byteOf_range (v k : Z) : 0 <= byteOf v k < 256.
Proof. unfold byteOf. apply Z.mod_pos_bound. lia. Qed.

Lemma byteOf_u32 (v : Z) :
  0 <= v < 2 ^ 32 →
  byteOf v 0 + 256 * byteOf v 1 + 65536 * byteOf v 2 + 16777216 * byteOf v 3 = v.
Proof.
  intros H. unfold byteOf.
  change (2 ^ (8 * 0)) with 1. change (2 ^ (8 * 1)) with 256.
  change (2 ^ (8 * 2)) with 65536. change (2 ^ (8 * 3)) with 16777216.
  change (2 ^ 32) with 4294967296 in H.
  Z.div_mod_to_equations. lia.
Qed.

Lemma byteOf_i16 (v : Z) :
  int16 v →
  let u := byteOf v 0 + 256 * byteOf v 1 in
  (if u <? 32768 then u else u - 65536) = v.
Proof.
  unfold int16, byteOf. intros H.
  change (2 ^ (8 * 0)) with 1. change (2 ^ (8 * 1)) with 256.
  cbv zeta. destruct (Z.ltb_spec (v / 1 mod 256 + 256 * (v / 256 mod 256)) 32768);
    Z.div_mod_to_equations; lia.
Qed.

Lemma writeSamples_fills (d : list Z) : ∀ (i : nat) (pre : list Z),
  length pre = (44 + i * 2)%nat →
  writeSamples i d (pre ++ repeat 0 (length d * 2)) = Ok (pre ++ flat_map frameBytes d).
Proof.
  induction d as [| v d IH]; intros i pre Hpre.
  - simpl. by rewrite !app_nil_r.
  - cbn [writeSamples length flat_map].
    change (S (length d) * 2)%nat with (S (S (length d * 2))).
    cbn [repeat]. unfold setInt16, setUint16. rewrite <- Hpre.
    rewrite (setBytes_splice pre [0; 0] (repeat 0 (length d * 2))) by done.
    cbn [mbind res_bind].
    change [byteOf v 0; byteOf v 1] with (frameBytes v).
    rewrite !(app_assoc pre (frameBytes v)).
    apply IH. rewrite length_app, Hpre. simpl. lia.
Qed.

(** The buffer [createWavBuffer] returns for a sample that has data. *)
Lemma createWavBuffer_bytes (sample : SF2Sample) (d : list Z) :
  data sample = Some d →
  createWavBuffer sample
  = Ok (wavHeader (sampleRate sample) (length d) ++ flat_map frameBytes d).
Proof.
  intros Hd. unfold createWavBuffer. rewrite Hd.
  cbn [Nat.add repeat].
  unfold setUint32, setUint16.
  repeat (rewrite setBytes_ok
            by (cbn [length app rev]; rewrite ?length_app, ?repeat_length; cbn [length]; lia);
          cbn [mbind res_bind take drop firstn skipn app rev length Nat.add]).
  exact (writeSamples_fills d 0 (wavHeader (sampleRate sample) (length d)) eq_refl).
Qed.

Lemma byteOfZ_value (v : Z) : 0 <= v < 256 → Z.of_N (Byte.to_N (byteOfZ v)) = v.
Proof.
  intros H. unfold byteOfZ. rewrite Z.mod_small by lia.
  destruct (Byte.of_N (Z.to_N v)) as [b |] eqn:Hb.
  - apply Byte.to_of_N in Hb. simpl. rewrite Hb. lia.
  - apply Byte.of_N_None_iff in Hb. lia.
Qed.

Lemma wavHeader_length (rate : Z) (len : nat) : length (wavHeader rate len) = 44%nat.
Proof. reflexivity. Qed.

Lemma frames_length (d : list Z) : length (flat_map frameBytes d) = (length d * 2)%nat.
Proof. induction d as [| v d IH]; simpl; [done | rewrite IH; lia]. Qed.

Lemma frames_lookup (d : list Z) : ∀ (i : nat) (v : Z),
  d !! i = Some v →
  flat_map frameBytes d !! (i * 2)%nat = Some (byteOf v 0)
  ∧ flat_map frameBytes d !! (i * 2 + 1)%nat = Some (byteOf v 1).
Proof.
  induction d as [| w d IH]; intros [| i] v H; simplify_eq/=; [done |].
  by apply IH.
Qed.

End Wav.

(** ** Loops and zones *)

Section Loops.

Context {St : Type}.

Lemma forLoop_skip (body : Z → St → res St) (s : St) (n : nat) : ∀ i : Z,
  (∀ j, i <= j < i + Z.of_nat n → body j s = Ok s) →
  forLoop n i body s = Ok s.
Proof.
  induction n as [| n IH]; intros i H; [done |].
  cbn [forLoop]. rewrite H by lia. cbn [mbind res_bind].
  apply IH. intros j Hj. apply H. lia.
Qed.

Lemma forRange_skip (body : Z → St → res St) (s : St) (start end_ : Z) :
  (∀ j, start <= j < end_ → body j s = Ok s) →
  forRange start end_ body s = Ok s.
Proof. intros H. apply forLoop_skip. intros j Hj. apply H. lia. Qed.

Lemma forLoop_preserves (R : relation St) `{!PreOrder R} (body : Z → St → res St)
    (n : nat) : ∀ (i : Z) (s s' : St),
  (∀ j a b, body j a = Ok b → R a b) →
  forLoop n i body s = Ok s' → R s s'.
Proof.
  induction n as [| n IH]; intros i s s' Hbody; cbn [forLoop].
  - by intros [= ->].
  - destruct (body i s) as [a |] eqn:Ha; cbn [mbind res_bind]; [| done].
    intros Hrest. transitivity a; [by eapply Hbody | by eapply IH].
Qed.

End Loops.

Section Zones.

Import SFZConverter.

Variable Math_pow : float → float → float.
Variable Number_toString : float → jsstring.

(** [v || e] when [e] does not throw. *)
Lemma orElseDo_Ok (v : option Z) (d : Z) : orElseDo v (Ok d) = Ok (orElse v d).
Proof. destruct v as [x |]; [| done]. simpl. by destruct (x =? 0). Qed.

Lemma orElseDo_throws (v : option Z) (r : res Z) (e : exn) :
  orElseDo v r = Throw e → r = Throw e.
Proof. destruct v as [x |]; [| done]. simpl. by destruct (x =? 0). Qed.

Lemma length_throws {A : Type} (t : option (list A)) (e : exn) :
  length_ t = Throw e → e = TypeError.
Proof. destruct t; [done | by intros [= <-]]. Qed.

(** The end of a generator range in tables that are there. *)
Lemma genEnd_present (bags : list SF2Bag) (genList : list SF2Generator) (bagIdx : Z) :
  genEnd bags (Some genList) bagIdx = Ok (rangeEnd bags genList bagIdx).
Proof. unfold genEnd, rangeEnd, length_. cbn [defined mbind res_bind]. apply orElseDo_Ok. Qed.

(** [getGenerators] on tables that are there. *)
Lemma getGenerators_present (bags : list SF2Bag) (genList : list SF2Generator)
    (bagIdx : Z) :
  getGenerators (Some bags) (Some genList) bagIdx
  = if (bagIdx <? 0) || (Z.of_nat (length bags) <=? bagIdx) then Ok ∅
    else
      match at_ bags bagIdx with
      | None => Ok ∅
      | Some bag =>
          forRange (generatorStart bag) (rangeEnd bags genList bagIdx)
            (addGenerator (Some genList)) ∅
      end.
Proof.
  unfold getGenerators. destruct (bagIdx <? 0); [done |].
  cbn [defined mbind res_bind orb]. destruct (_ <=? bagIdx); [done |].
  destruct (at_ bags bagIdx) as [bag |]; [| done]. by rewrite genEnd_present.
Qed.

(** Whatever [getGenerators] throws is a [TypeError]. *)
Lemma addGenerators_TypeError (genList : option (list SF2Generator)) (n : nat) :
  ∀ (i : Z) (acc : gmap Z Z) (e : exn),
    forLoop n i (addGenerator genList) acc = Throw e → e = TypeError.
Proof.
  induction n as [| n IH]; intros i acc e; cbn [forLoop]; [done |].
  destruct (addGenerator genList i acc) as [acc' | e'] eqn:Hadd; cbn [mbind res_bind].
  - apply IH.
  - intros [= <-]. unfold addGenerator in Hadd.
    destruct genList as [l |]; cbn [defined mbind res_bind] in Hadd; [| by injection Hadd].
    destruct (at_ l i); [done | by injection Hadd].
Qed.

Lemma getGenerators_TypeError bags genList (bagIdx : Z) (e : exn) :
  getGenerators bags genList bagIdx = Throw e → e = TypeError.
Proof.
  unfold getGenerators. destruct (bagIdx <? 0); [done |].
  destruct bags as [bags |]; cbn [defined mbind res_bind]; [| by intros [= <-]].
  destruct (_ <=? bagIdx); [done |].
  destruct (at_ bags bagIdx) as [bag |]; [| done].
  destruct (genEnd bags genList bagIdx) as [end_ | e'] eqn:Hend; cbn [mbind res_bind].
  - apply addGenerators_TypeError.
  - intros [= <-]. unfold genEnd in Hend.
    by apply orElseDo_throws, length_throws in Hend.
Qed.

Lemma instZone_appends d gp pG gi ib (sfz sfz' : jsstring) :
  instZone Math_pow Number_toString d gp pG gi ib sfz = Ok sfz' → sfz `prefix_of` sfz'.
Proof.
  unfold instZone.
  destruct (getGenerators (ibag d) (igen d) ib) as [iGens |]; cbn [mbind res_bind]; [| done].
  destruct (iGens !! OPER_SAMPLE_ID) as [sampleId |]; [| by intros [= ->]].
  destruct (samples d) as [table |]; cbn [defined mbind res_bind]; [| done].
  destruct (at_ table sampleId) as [sample |]; [| by intros [= ->]].
  case_bool_decide; intros [= <-]; [done | by apply prefix_app_r].
Qed.

Lemma presetZone_appends d gp pb (sfz sfz' : jsstring) :
  presetZone Math_pow Number_toString d gp pb sfz = Ok sfz' → sfz `prefix_of` sfz'.
Proof.
  unfold presetZone.
  destruct (getGenerators (pbag d) (pgen d) pb) as [pGens |]; cbn [mbind res_bind]; [| done].
  destruct (pGens !! OPER_INSTRUMENT) as [instId |]; [| by intros [= ->]].
  destruct (instruments d) as [table |] eqn:Htable; cbn [defined mbind res_bind]; [| done].
  destruct (at_ table instId) as [instrument |]; [| by intros [= ->]].
  destruct (iBagEnd d instId) as [bagEnd |]; cbn [mbind res_bind]; [| done].
  destruct (getGenerators (ibag d) (igen d) (inst_bagIndex instrument)) as [first |];
    cbn [mbind res_bind]; [| done].
  apply (forLoop_preserves prefix). intros j a b. apply instZone_appends.
Qed.

Lemma instZone_skipped d gp pG gi ib (sfz : jsstring) :
  instZoneSkipped d ib →
  instZone Math_pow Number_toString d gp pG gi ib sfz = Ok sfz.
Proof.
  intros (iGens & HiGens & Hsample). unfold instZone.
  rewrite HiGens. cbn [mbind res_bind].
  destruct (iGens !! OPER_SAMPLE_ID) as [sampleId |] eqn:Hid; [| done].
  destruct (Hsample sampleId eq_refl) as (table & -> & Hmissing).
  cbn [defined mbind res_bind]. unfold sampleMissing in Hmissing.
  destruct (at_ table sampleId) as [sample |]; [| done].
  by rewrite bool_decide_eq_true_2.
Qed.

Lemma presetZone_skipped d gp pb (sfz : jsstring) :
  presetZoneSkipped d pb →
  presetZone Math_pow Number_toString d gp pb sfz = Ok sfz.
Proof.
  intros (pGens & HpGens & Hinst). unfold presetZone.
  rewrite HpGens. cbn [mbind res_bind].
  destruct (pGens !! OPER_INSTRUMENT) as [instId |] eqn:Hid; [| done].
  destruct (Hinst instId eq_refl) as (table & Htable & Hzone).
  rewrite Htable. cbn [defined mbind res_bind].
  destruct (at_ table instId) as [instrument |]; [| done].
  destruct Hzone as (first & bagEnd & Hfirst & Hend & Hzones).
  rewrite Hend, Hfirst. cbn [mbind res_bind].
  apply forRange_skip. intros ib Hib. by apply instZone_skipped, Hzones.
Qed.

(** The walk of [getSFZContent] over the zones of the preset, and the walk
    of a preset zone over the zones of its instrument, each with the global
    layer that [globalGens] chooses. *)
Lemma getSFZContent_walks d preset pos outputBase (bagEnd : Z) (first : gmap Z Z) :
  pBagEnd d pos = Ok bagEnd →
  getGenerators (pbag d) (pgen d) (bagIndex preset) = Ok first →
  getSFZContent Math_pow Number_toString preset pos d outputBase
  = forRange (bagIndex preset) bagEnd
      (presetZone Math_pow Number_toString d
         (globalGens OPER_INSTRUMENT first (bagIndex preset) bagEnd))
      (header preset outputBase).
Proof. intros Hend Hfirst. unfold getSFZContent. by rewrite Hend, Hfirst. Qed.

Lemma presetZone_walks d gp pb sfz (pGens first : gmap Z Z) (instId bagEnd : Z)
    (table : list SF2Instrument) (instrument : SF2Instrument) :
  getGenerators (pbag d) (pgen d) pb = Ok pGens →
  pGens !! OPER_INSTRUMENT = Some instId →
  instruments d = Some table →
  at_ table instId = Some instrument →
  iBagEnd d instId = Ok bagEnd →
  getGenerators (ibag d) (igen d) (inst_bagIndex instrument) = Ok first →
  presetZone Math_pow Number_toString d gp pb sfz
  = forRange (inst_bagIndex instrument) bagEnd
      (instZone Math_pow Number_toString d gp pGens
         (globalGens OPER_SAMPLE_ID first (inst_bagIndex instrument) bagEnd))
      sfz.
Proof.
  intros HpGens Hid Htable Hinst Hend Hfirst. unfold presetZone.
  rewrite HpGens. cbn [mbind res_bind]. rewrite Hid, Htable. cbn [defined mbind res_bind].
  by rewrite Hinst, Hend, Hfirst.
Qed.

(** The region of an instrument zone whose sample reference leads to a
    sample. *)
Lemma instZone_region d gp pG gi ib sfz (iGens : gmap Z Z) (sampleId : Z)
    (table : list SF2Sample) (sample : SF2Sample) :
  getGenerators (ibag d) (igen d) ib = Ok iGens →
  iGens !! OPER_SAMPLE_ID = Some sampleId →
  samples d = Some table →
  at_ table sampleId = Some sample →
  sample_name sample ≠ lit "EOS" →
  instZone Math_pow Number_toString d gp pG gi ib sfz
  = Ok (sfz ++ region Math_pow Number_toString (combine gp pG gi iGens) sample).
Proof.
  intros HiGens Hid Htable Hsample Hname. unfold instZone.
  rewrite HiGens. cbn [mbind res_bind]. rewrite Hid, Htable. cbn [defined mbind res_bind].
  rewrite Hsample. by rewrite bool_decide_eq_false_2.
Qed.

(** The end of a zone range: the next record's start unless that is 0 or
    there is no next record, and the length of the bag table then. *)
Lemma orElse_cases (v : option Z) (len : Z) :
  orElse v len = match v with
                 | Some x => if decide (x = 0) then len else x
                 | None => len
                 end.
Proof. destruct v as [x |]; [| done]. simpl. destruct (Z.eqb_spec x 0); by case_decide. Qed.

Lemma pBagEnd_present (d : ParsedData) (pos : Z) (table : list SF2Preset)
    (bags : list SF2Bag) :
  presets d = Some table → pbag d = Some bags →
  pBagEnd d pos = Ok (orElse (bagIndex <$> at_ table (pos + 1)) (Z.of_nat (length bags))).
Proof.
  intros Htable Hbags. unfold pBagEnd, length_. rewrite Htable, Hbags.
  cbn [defined mbind res_bind]. apply orElseDo_Ok.
Qed.

Lemma iBagEnd_present (d : ParsedData) (instId : Z) (table : list SF2Instrument)
    (bags : list SF2Bag) :
  instruments d = Some table → ibag d = Some bags →
  iBagEnd d instId
  = Ok (orElse (inst_bagIndex <$> at_ table (instId + 1)) (Z.of_nat (length bags))).
Proof.
  intros Htable Hbags. unfold iBagEnd, length_. rewrite Htable, Hbags.
  cbn [defined mbind res_bind]. apply orElseDo_Ok.
Qed.

Lemma pBagEnd_next (d : ParsedData) (pos : Z) (table : list SF2Preset) (next : SF2Preset) :
  presets d = Some table → at_ table (pos + 1) = Some next → bagIndex next ≠ 0 →
  pBagEnd d pos = Ok (bagIndex next).
Proof.
  intros Htable H Hne. unfold pBagEnd. rewrite Htable. cbn [defined mbind res_bind].
  rewrite H. simpl. by destruct (Z.eqb_spec (bagIndex next) 0).
Qed.

Lemma pBagEnd_last (d : ParsedData) (pos : Z) (table : list SF2Preset) :
  presets d = Some table → at_ table (pos + 1) = None →
  pBagEnd d pos = length_ (pbag d).
Proof.
  intros Htable H. unfold pBagEnd. rewrite Htable. cbn [defined mbind res_bind].
  by rewrite H.
Qed.

Lemma pBagEnd_next_zero (d : ParsedData) (pos : Z) (table : list SF2Preset)
    (next : SF2Preset) :
  presets d = Some table → at_ table (pos + 1) = Some next → bagIndex next = 0 →
  pBagEnd d pos = length_ (pbag d).
Proof.
  intros Htable H H0. unfold pBagEnd. rewrite Htable. cbn [defined mbind res_bind].
  rewrite H. simpl. by rewrite H0.
Qed.

(** The merge of the four layers, key by key. *)
Lemma spread4_lookup (a b c d : gmap Z Z) (k : Z) :
  spread4 a b c d !! k
  = match d !! k with
    | Some v => Some v
    | None =>
        match c !! k with
        | Some v => Some v
        | None => match b !! k with Some v => Some v | None => a !! k end
        end
    end.
Proof.
  unfold spread4. rewrite !lookup_union.
  destruct (d !! k), (c !! k), (b !! k), (a !! k); reflexivity.
Qed.

Lemma overrideRange_lookup (k j : Z) (p i c : gmap Z Z) :
  overrideRange k p i c !! j
  = if decide (k = j) then
      match i !! k with
      | Some v => Some v
      | None => match p !! k with Some v => Some v | None => c !! k end
      end
    else c !! j.
Proof.
  unfold overrideRange.
  destruct (i !! k) as [v |] eqn:Hi; [| destruct (p !! k) as [v |] eqn:Hp];
    case_decide; simplify_map_eq; done.
Qed.

End Zones.

(** ** The record readers *)

Section Reading.

Import SF2Parser.

Variable buffer : list Byte.byte.

Lemma M_bind_ok {A B : Type} (m : M A) (f : A → M B) (offset offset' : Z) (a : A) :
  m offset = Ok (a, offset') → (m ≫= f) offset = f a offset'.
Proof. intros H. unfold mbind, M_bind. by rewrite H. Qed.

Lemma getUint8_ok (off : Z) :
  0 <= off < byteLength buffer → ∃ v, getUint8 buffer off = Ok v ∧ 0 <= v < 256.
Proof.
  intros H. unfold getUint8, at_, byteLength in *.
  rewrite (proj2 (Z.leb_le 0 off)) by lia.
  destruct (lookup_lt_is_Some_2 buffer (Z.to_nat off)) as [b Hb]; [lia |].
  rewrite Hb. eexists. split; [reflexivity |].
  pose proof (Byte.to_N_bounded b). lia.
Qed.

Lemma getUint8_inv (off v : Z) :
  getUint8 buffer off = Ok v → 0 <= off < byteLength buffer.
Proof.
  unfold getUint8, at_, byteLength.
  destruct (Z.leb_spec 0 off); [| done].
  destruct (buffer !! Z.to_nat off) eqn:Hb; [| done].
  apply lookup_lt_Some in Hb. lia.
Qed.

Lemma getUint16_ok (off : Z) :
  0 <= off → off + 2 <= byteLength buffer →
  ∃ v, getUint16 buffer off = Ok v ∧ 0 <= v < 65536.
Proof.
  intros H0 H2. unfold getUint16.
  destruct (getUint8_ok off) as (b0 & -> & ?); [lia |].
  destruct (getUint8_ok (off + 1)) as (b1 & -> & ?); [lia |].
  cbn [mbind res_bind]. eexists. split; [reflexivity | lia].
Qed.

Lemma getUint32_ok (off : Z) :
  0 <= off → off + 4 <= byteLength buffer →
  ∃ v, getUint32 buffer off = Ok v ∧ 0 <= v < 2 ^ 32.
Proof.
  intros H0 H4. unfold getUint32.
  destruct (getUint16_ok off) as (lo & -> & ?); [lia.. |].
  destruct (getUint16_ok (off + 2)) as (hi & -> & ?); [lia.. |].
  cbn [mbind res_bind]. eexists. split; [reflexivity | lia].
Qed.

Lemma readChars_ok (n : nat) : ∀ off,
  0 <= off → off + Z.of_nat n <= byteLength buffer →
  ∃ chars, readChars buffer n off = Ok chars.
Proof.
  induction n as [| n IH]; intros off H0 Hn; [by eexists |].
  cbn [readChars].
  destruct (getUint8_ok off) as (c & -> & ?); [lia |]. cbn [mbind res_bind].
  destruct (c =? 0); [by eexists |].
  destruct (IH (off + 1)) as [chars ->]; [lia.. |]. by eexists.
Qed.

Lemma readString_ok (n : nat) (off : Z) :
  0 <= off → off + Z.of_nat n <= byteLength buffer →
  ∃ s, readString buffer n off = Ok (s, off + Z.of_nat n).
Proof.
  intros H0 Hn. unfold readString.
  destruct (readChars_ok n off) as [chars ->]; [lia.. |]. by eexists.
Qed.

Lemma readUint32_ok (off : Z) :
  0 <= off → off + 4 <= byteLength buffer →
  ∃ v, readUint32 buffer off = Ok (v, off + 4).
Proof.
  intros. unfold readUint32.
  destruct (getUint32_ok off) as (v & -> & ?); [lia.. |]. by eexists.
Qed.

Lemma readUint16_ok (off : Z) :
  0 <= off → off + 2 <= byteLength buffer →
  ∃ v, readUint16 buffer off = Ok (v, off + 2).
Proof.
  intros. unfold readUint16.
  destruct (getUint16_ok off) as (v & -> & ?); [lia.. |]. by eexists.
Qed.

Lemma readInt16_ok (off : Z) :
  0 <= off → off + 2 <= byteLength buffer →
  ∃ v, readInt16 buffer off = Ok (v, off + 2).
Proof.
  intros. unfold readInt16, getInt16.
  destruct (getUint16_ok off) as (v & -> & ?); [lia.. |]. by eexists.
Qed.

Lemma readUint8_ok (off : Z) :
  0 <= off → off + 1 <= byteLength buffer →
  ∃ v, readUint8 buffer off = Ok (v, off + 1).
Proof.
  intros. unfold readUint8.
  destruct (getUint8_ok off) as (v & -> & ?); [lia |]. by eexists.
Qed.

Lemma readInt8_ok (off : Z) :
  0 <= off → off + 1 <= byteLength buffer →
  ∃ v, readInt8 buffer off = Ok (v, off + 1).
Proof.
  intros. unfold readInt8, getInt8.
  destruct (getUint8_ok off) as (v & -> & ?); [lia |]. by eexists.
Qed.

(** One field of a record: the reader [lem] speaks of succeeds at the
    cursor, and the record reader goes on behind it. *)
Ltac field lem :=
  lazymatch goal with
  | |- context [(?m ≫= ?f) ?off] =>
      let v := fresh "v" in
      let H := fresh "H" in
      destruct (lem off) as [v H]; [lia.. |];
      rewrite (M_bind_ok m f off _ v H)
  end.

Ltac record_done :=
  eexists; unfold mret, M_ret; do 2 f_equal; lia.

Lemma phdrItem_ok (off : Z) :
  0 <= off → off + 38 <= byteLength buffer →
  ∃ item, phdrItem buffer off = Ok (item, off + 38).
Proof.
  intros H0 H38. unfold phdrItem.
  field (readString_ok 20). field readUint16_ok. field readUint16_ok.
  field readUint16_ok. field readUint32_ok. field readUint32_ok. field readUint32_ok.
  record_done.
Qed.

Lemma bagItem_ok (off : Z) :
  0 <= off → off + 4 <= byteLength buffer →
  ∃ item, bagItem buffer off = Ok (item, off + 4).
Proof.
  intros H0 H4. unfold bagItem.
  field readUint16_ok. field readUint16_ok. record_done.
Qed.

Lemma genItem_ok (off : Z) :
  0 <= off → off + 4 <= byteLength buffer →
  ∃ item, genItem buffer off = Ok (item, off + 4).
Proof.
  intros H0 H4. unfold genItem.
  field readUint16_ok. field readInt16_ok. record_done.
Qed.

Lemma instItem_ok (off : Z) :
  0 <= off → off + 22 <= byteLength buffer →
  ∃ item, instItem buffer off = Ok (item, off + 22).
Proof.
  intros H0 H22. unfold instItem.
  field (readString_ok 20). field readUint16_ok. record_done.
Qed.

Lemma shdrItem_ok (off : Z) :
  0 <= off → off + 46 <= byteLength buffer →
  ∃ item, shdrItem buffer off = Ok (item, off + 46).
Proof.
  intros H0 H46. unfold shdrItem.
  field (readString_ok 20). field readUint32_ok. field readUint32_ok.
  field readUint32_ok. field readUint32_ok. field readUint32_ok.
  field readUint8_ok. field readInt8_ok. field readUint16_ok. field readUint16_ok.
  record_done.
Qed.

(** [n] records of [width] bytes are read when the buffer holds them. *)
Lemma readItems_ok {A : Type} (item : M A) (width : Z) :
  0 <= width →
  (∀ off, 0 <= off → off + width <= byteLength buffer →
          ∃ x, item off = Ok (x, off + width)) →
  ∀ (n : nat) (off : Z),
    0 <= off → off + width * Z.of_nat n <= byteLength buffer →
    ∃ items, readItems item n off = Ok (items, off + width * Z.of_nat n)
             ∧ length items = n.
Proof.
  intros Hwidth Hitem. induction n as [| n IH]; intros off H0 Hn.
  - exists []. split; [| done]. cbn [readItems]. unfold mret, M_ret. do 2 f_equal. lia.
  - cbn [readItems].
    destruct (Hitem off) as [x Hx]; [lia.. |].
    rewrite (M_bind_ok _ _ _ _ _ Hx).
    destruct (IH (off + width)) as (items & Hitems & Hlen); [lia.. |].
    rewrite (M_bind_ok _ _ _ _ _ Hitems).
    exists (x :: items). split; [| by rewrite <- Hlen].
    unfold mret, M_ret. do 2 f_equal. lia.
Qed.

(** The count of records is the quotient rounded up. *)
Lemma recordCount_ceil (size width : Z) :
  0 <= size → 0 < width →
  let n := Z.of_nat (recordCount size width) in
  width * (n - 1) < size <= width * n.
Proof.
  intros Hsize Hwidth. unfold recordCount. cbv zeta.
  rewrite Z2Nat.id by (apply Z.div_pos; lia).
  pose proof (Z.div_mod (size + width - 1) width ltac:(lia)).
  pose proof (Z.mod_pos_bound (size + width - 1) width Hwidth).
  nia.
Qed.

(** *** The chunk walk ends

    Every turn of a loop of [parse] that does not throw has read a tag and a
    size inside the buffer and leaves the cursor eight bytes or more further
    on. So the walk ends within the fuel [parse] gives it. *)

Lemma while_ends {St : Type} (left : St → nat) (cond : St → bool)
    (body : St → option (res St)) :
  (∀ s, cond s = true → body s ≠ None) →
  (∀ s s', cond s = true → body s = Some (Ok s') → (left s' < left s)%nat) →
  ∀ (fuel : nat) (s : St), (left s < fuel)%nat → while fuel cond body s ≠ None.
Proof.
  intros Hbody Hless. induction fuel as [| fuel IH]; intros s Hfuel; [lia |].
  cbn [while]. destruct (cond s) eqn:Hcond; [| done].
  destruct (body s) as [[s' | e] |] eqn:Hs; [| done | by destruct (Hbody s Hcond)].
  apply IH. specialize (Hless s s' Hcond Hs). lia.
Qed.

Lemma while_preserves {St : Type} (R : relation St) (cond : St → bool)
    (body : St → option (res St)) :
  (∀ s, R s s) → (∀ a b c, R a b → R b c → R a c) →
  (∀ s s', body s = Some (Ok s') → R s s') →
  ∀ (fuel : nat) (s s' : St), while fuel cond body s = Some (Ok s') → R s s'.
Proof.
  intros Hrefl Htrans Hbody. induction fuel as [| fuel IH]; intros s s'; cbn [while].
  - destruct (cond s); [done | intros [= ->]; apply Hrefl].
  - destruct (cond s); [| intros [= ->]; apply Hrefl].
    destruct (body s) as [[a | e] |] eqn:Ha; [| done..].
    intros Hrest. apply (Htrans s a s'); [by apply Hbody | by apply IH].
Qed.

(** A loop that has ended has ended on a state that fails its test. *)
Lemma while_exit {St : Type} (cond : St → bool) (body : St → option (res St)) :
  ∀ (fuel : nat) (s s' : St), while fuel cond body s = Some (Ok s') → cond s' = false.
Proof.
  induction fuel as [| fuel IH]; intros s s'; cbn [while].
  - destruct (cond s) eqn:Hc; [done | by intros [= <-]].
  - destruct (cond s) eqn:Hc; [| by intros [= <-]].
    destruct (body s) as [[a | e] |]; [apply IH | done..].
Qed.

Lemma while_done {St : Type} (cond : St → bool) (body : St → option (res St))
    (fuel : nat) (s : St) :
  cond s = false → while fuel cond body s = Some (Ok s).
Proof. intros Hc. destruct fuel; cbn [while]; by rewrite Hc. Qed.

Lemma while_turn {St : Type} (cond : St → bool) (body : St → option (res St))
    (fuel : nat) (s s' : St) :
  cond s = true → body s = Some (Ok s') →
  while (S fuel) cond body s = while fuel cond body s'.
Proof. intros Hc Hb. cbn [while]. by rewrite Hc, Hb. Qed.

Lemma readString_inv (off off' : Z) (str : jsstring) :
  readString buffer 4 off = Ok (str, off') →
  0 <= off < byteLength buffer ∧ off' = off + 4.
Proof.
  unfold readString. cbn [readChars].
  destruct (getUint8 buffer off) as [c |] eqn:Hc; cbn [mbind res_bind]; [| done].
  apply getUint8_inv in Hc. intros H. split; [done |].
  destruct (c =? 0); [by injection H |].
  destruct (getUint8 buffer (off + 1)) as [c1 |]; cbn [mbind res_bind] in H; [| done].
  destruct (c1 =? 0); [by injection H |].
  destruct (getUint8 buffer (off + 1 + 1)) as [c2 |]; cbn [mbind res_bind] in H; [| done].
  destruct (c2 =? 0); [by injection H |].
  destruct (getUint8 buffer (off + 1 + 1 + 1)) as [c3 |]; cbn [mbind res_bind] in H; [| done].
  destruct (c3 =? 0); by injection H.
Qed.

Lemma getUint8_nonneg (off v : Z) : getUint8 buffer off = Ok v → 0 <= v.
Proof.
  unfold getUint8. destruct (at_ buffer off); [| done]. intros [= <-]. lia.
Qed.

Lemma getUint8_range (off v : Z) : getUint8 buffer off = Ok v → 0 <= v < 256.
Proof.
  unfold getUint8. destruct (at_ buffer off) as [b |]; [| done]. intros [= <-].
  pose proof (Byte.to_N_bounded b). lia.
Qed.

Lemma readUint32_inv (off off' v : Z) :
  readUint32 buffer off = Ok (v, off') →
  0 <= off ∧ off + 4 <= byteLength buffer ∧ off' = off + 4 ∧ 0 <= v.
Proof.
  unfold readUint32, getUint32, getUint16.
  destruct (getUint8 buffer off) as [b0 |] eqn:H0; cbn [mbind res_bind]; [| done].
  destruct (getUint8 buffer (off + 1)) as [b1 |] eqn:H1; cbn [mbind res_bind]; [| done].
  destruct (getUint8 buffer (off + 2)) as [b2 |] eqn:H2; cbn [mbind res_bind]; [| done].
  destruct (getUint8 buffer (off + 2 + 1)) as [b3 |] eqn:H3; cbn [mbind res_bind]; [| done].
  intros [= <- <-].
  pose proof (getUint8_inv _ _ H0). pose proof (getUint8_inv _ _ H3).
  pose proof (getUint8_nonneg _ _ H0). pose proof (getUint8_nonneg _ _ H1).
  pose proof (getUint8_nonneg _ _ H2). pose proof (getUint8_nonneg _ _ H3).
  lia.
Qed.

(** The cursor after a turn of [parsePdta]'s loop: the declared end of the
    sub-chunk, whatever its reader consumed. *)
Lemma pdtaChunk_next (pdta pdta' : Pdta) (off off' : Z) :
  pdtaChunk buffer (pdta, off) = Ok (pdta', off') →
  ∃ size, readUint32 buffer (off + 4) = Ok (size, off + 8)
          ∧ 0 <= size ∧ off' = off + 8 + size
          ∧ 0 <= off ∧ off + 8 <= byteLength buffer.
Proof.
  unfold pdtaChunk.
  destruct (readString buffer 4 off) as [[id o1] |] eqn:Hid; cbn [mbind res_bind]; [| done].
  apply readString_inv in Hid as [? ->].
  destruct (readUint32 buffer (off + 4)) as [[size o2] |] eqn:Hsize;
    cbn [mbind res_bind]; [| done].
  pose proof Hsize as Hsize'. apply readUint32_inv in Hsize' as (? & ? & -> & ?).
  destruct (readTable buffer id size pdta (off + 4 + 4)) as [[p o3] |];
    cbn [mbind res_bind]; [| done].
  intros [= <- <-]. exists size.
  replace (off + 8) with (off + 4 + 4) by lia.
  split_and!; try done; lia.
Qed.

Lemma sdtaChunk_next (a b a' b' off off' : Z) :
  sdtaChunk buffer (a, b, off) = Ok (a', b', off') →
  0 <= off ∧ off + 8 <= byteLength buffer ∧ off + 8 <= off'.
Proof.
  unfold sdtaChunk.
  destruct (readString buffer 4 off) as [[id o1] |] eqn:Hid; cbn [mbind res_bind]; [| done].
  apply readString_inv in Hid as [? ->].
  destruct (readUint32 buffer (off + 4)) as [[size o2] |] eqn:Hsize;
    cbn [mbind res_bind]; [| done].
  apply readUint32_inv in Hsize as (? & ? & -> & ?).
  case_decide; intros [= <- <- <-]; lia.
Qed.

Lemma parsePdta_ends (fuel : nat) (limit off : Z) :
  (bytesLeft buffer off < fuel)%nat → parsePdta buffer fuel limit off ≠ None.
Proof.
  intros Hfuel. unfold parsePdta.
  apply (while_ends (fun s => bytesLeft buffer s.2)); [done | | done].
  intros [pdta o] [pdta' o'] _ [= Hchunk].
  apply pdtaChunk_next in Hchunk as (size & _ & ? & -> & ? & ?).
  unfold bytesLeft. simpl. lia.
Qed.

Lemma parsePdta_advances (fuel : nat) (limit off off' : Z) (pdta : Pdta) :
  parsePdta buffer fuel limit off = Some (Ok (pdta, off')) → off <= off'.
Proof.
  unfold parsePdta. intros H.
  apply (while_preserves (fun s s' : Pdta * Z => s.2 <= s'.2)) in H; [done | | |].
  - intros s. lia.
  - intros a b c. lia.
  - intros [p o] [p' o'] [= Hchunk].
    apply pdtaChunk_next in Hchunk as (size & _ & ? & -> & ? & ?). simpl. lia.
Qed.

Lemma sdta_ends (fuel : nat) (limit : Z) (s : Z * Z * Z) :
  (bytesLeft buffer s.2 < fuel)%nat →
  while fuel (fun s => s.2 <? limit) (fun s => Some (sdtaChunk buffer s)) s ≠ None.
Proof.
  apply (while_ends (fun s : Z * Z * Z => bytesLeft buffer s.2)); [done |].
  intros [[a b] o] [[a' b'] o'] _ [= Hchunk].
  apply sdtaChunk_next in Hchunk. unfold bytesLeft. simpl. lia.
Qed.

Lemma sdta_advances (fuel : nat) (limit : Z) (s s' : Z * Z * Z) :
  while fuel (fun s => s.2 <? limit) (fun s => Some (sdtaChunk buffer s)) s = Some (Ok s') →
  s.2 <= s'.2.
Proof.
  intros H.
  apply (while_preserves (fun s s' : Z * Z * Z => s.2 <= s'.2)) in H; [done | | |].
  - intros a. lia.
  - intros a b c. lia.
  - intros [[a b] o] [[a' b'] o'] [= Hchunk].
    apply sdtaChunk_next in Hchunk. simpl. lia.
Qed.

Lemma chunk_ends (fuel : nat) (w : Walk) :
  (length buffer < fuel)%nat → chunk buffer fuel w ≠ None.
Proof.
  intros Hfuel. unfold chunk.
  destruct (readString buffer 4 (w_offset w)) as [[id o1] |] eqn:Hid; [| done].
  apply readString_inv in Hid as [? ->].
  destruct (readUint32 buffer _) as [[size o2] |] eqn:Hsize; [| done].
  apply readUint32_inv in Hsize as (? & ? & -> & ?).
  case_decide; [| done].
  destruct (readString buffer 4 _) as [[listType o3] |] eqn:Hlist; [| done].
  apply readString_inv in Hlist as [? ->].
  assert (Hleft : (bytesLeft buffer (w_offset w + 4 + 4 + 4) < fuel)%nat).
  { unfold bytesLeft, byteLength in *. lia. }
  repeat case_decide; try done.
  - pose proof (parsePdta_ends fuel (w_offset w + 4 + 4 + size) _ Hleft) as Hp.
    destruct (parsePdta buffer fuel _ _) as [[[p o] | e] |]; done.
  - pose proof (sdta_ends fuel (w_offset w + 4 + 4 + size)
                  (w_sdtaOffset w, w_sdtaSize w, w_offset w + 4 + 4 + 4) Hleft) as Hs.
    destruct (while fuel _ _ _) as [[[[a b] o] | e] |]; done.
Qed.

Lemma chunk_advances (fuel : nat) (w w' : Walk) :
  chunk buffer fuel w = Some (Ok w') →
  w_offset w + 8 <= byteLength buffer ∧ w_offset w + 8 <= w_offset w'.
Proof.
  unfold chunk.
  destruct (readString buffer 4 (w_offset w)) as [[id o1] |] eqn:Hid; [| done].
  apply readString_inv in Hid as [? ->].
  destruct (readUint32 buffer _) as [[size o2] |] eqn:Hsize; [| done].
  apply readUint32_inv in Hsize as (? & ? & -> & ?).
  case_decide; [| intros [= <-]; simpl; lia].
  destruct (readString buffer 4 _) as [[listType o3] |] eqn:Hlist; [| done].
  apply readString_inv in Hlist as [? ->].
  repeat case_decide.
  - destruct (parsePdta buffer fuel _ _) as [[[p o] | e] |] eqn:Hp; [| done..].
    apply parsePdta_advances in Hp. intros [= <-]. simpl. lia.
  - destruct (while fuel _ _ _) as [[[[a b] o] | e] |] eqn:Hs; [| done..].
    apply sdta_advances in Hs. simpl in Hs. intros [= <-]. simpl. lia.
  - intros [= <-]. simpl. lia.
Qed.

(** [parse] returns or throws: its loops do not run out of turns. *)
Lemma parse_ends : parse buffer ≠ None.
Proof.
  unfold parse, parseWith.
  destruct (readString buffer 4 0) as [[riff o1] |] eqn:Hriff; [| done].
  apply readString_inv in Hriff as [_ ->].
  case_decide; [| done].
  destruct (readUint32 buffer (0 + 4)) as [[size o2] |] eqn:Hsize; [| done].
  apply readUint32_inv in Hsize as (_ & _ & -> & _).
  destruct (readString buffer 4 (0 + 4 + 4)) as [[fb o3] |] eqn:Hfb; [| done].
  apply readString_inv in Hfb as [_ ->].
  case_decide; [| done].
  unfold walkAndAttach.
  match goal with
  | |- context [while ?f ?c ?b ?s] =>
      assert (Hwalk : while f c b s ≠ None);
      [| destruct (while f c b s) as [[w | e] |]; done]
  end.
  apply (while_ends (fun w => bytesLeft buffer (w_offset w))).
  - intros w _. apply chunk_ends. lia.
  - intros w w' _ Hchunk. apply chunk_advances in Hchunk.
    unfold bytesLeft. lia.
  - unfold bytesLeft, byteLength. simpl. lia.
Qed.

End Reading.

(** ** The properties the specification states *)

Section Properties.

Import SFZConverter.

Variable Math_pow : float → float → float.
Variable Number_toString : float → jsstring.

(** C10. Every code unit of [sanitize name] is a letter, a digit, [_] or [-],
    and the result is as long as [name]: each other code unit, white space
    included, is replaced by one [_], so that [trim] finds nothing to strip.
    A region's file reference is [sample=], that sanitized name and [.wav]. *)
Theorem sanitize_charset (name : jsstring) :
  Forall (fun c => (65 <= c <= 90 ∨ 97 <= c <= 122 ∨ 48 <= c <= 57 ∨ c = 95 ∨ c = 45)%N)
         (sanitize name)
  ∧ length (sanitize name) = length name
  ∧ (∀ (i : nat) (c : N), name !! i = Some c →
       sanitize name !! i = Some (if allowed c then c else 95%N))
  ∧ ∀ combined sample,
      ∃ rest, region Math_pow Number_toString combined sample
              = lit "<region>" ++ nl
                ++ lit "sample=" ++ sanitize (sample_name sample) ++ lit ".wav" ++ nl
                ++ rest.
Proof.
  rewrite !sanitize_replaces. repeat split.
  - eapply Forall_impl; [apply replaced_allowed |].
    intros c. unfold allowed. intros H.
    repeat (apply orb_true_iff in H; destruct H as [H | H]);
      repeat (apply andb_true_iff in H; destruct H as [? H]);
      repeat match goal with
             | H : (_ <=? _)%N = true |- _ => apply N.leb_le in H
             | H : (_ =? _)%N = true |- _ => apply N.eqb_eq in H
             end; lia.
  - apply length_map.
  - intros i c Hc. by rewrite list_lookup_fmap, Hc.
  - intros combined sample. eexists.
    unfold region, sampleLine. rewrite sanitize_replaces.
    rewrite <- !app_assoc. reflexivity.
Qed.

(** C5, as the code has it. [createWavBuffer] throws exactly when the
    sample's [data] is absent, and then with the message "No sample data
    found"; an [Int16Array] of length zero is data, and gives the 44 bytes of
    the header alone. *)
Theorem createWavBuffer_throws_iff_absent (sample : SF2Sample) :
  (returns (createWavBuffer sample) = false ↔ data sample = None)
  ∧ (createWavBuffer sample = Throw (Error "No sample data found") ↔ data sample = None)
  ∧ (data sample = Some [] →
     createWavBuffer sample = Ok (wavHeader (sampleRate sample) 0)).
Proof.
  destruct (data sample) as [d |] eqn:Hd.
  - rewrite (createWavBuffer_bytes sample d Hd). repeat split; try done.
    intros [= ->]. reflexivity.
  - unfold createWavBuffer. rewrite Hd. by repeat split.
Qed.

(** C6. For a sample whose [data] holds [n] frames (with [36 + 2 n] within
    the 32 bits of the header's size fields), [createWavBuffer] returns
    [44 + 2 n] bytes; the little-endian word at offset 40 is [2 n], the one at
    offset 4 is [36 + 2 n], and from offset 44 on come the frames, each as a
    little-endian signed 16-bit value. For [n = 100]: 244 bytes, and 200 in
    the data-size field. *)
Theorem createWavBuffer_layout (sample : SF2Sample) (d : list Z) :
  data sample = Some d →
  Forall int16 d →
  36 + 2 * Z.of_nat (length d) < 2 ^ 32 →
  ∃ buf, createWavBuffer sample = Ok buf
    ∧ length buf = (44 + 2 * length d)%nat
    ∧ u32le buf 40 = 2 * Z.of_nat (length d)
    ∧ u32le buf 4 = 36 + 2 * Z.of_nat (length d)
    ∧ drop 44 buf = flat_map frameBytes d
    ∧ (∀ (i : nat) (v : Z), d !! i = Some v → i16le buf (44 + 2 * i) = v)
    ∧ (length d = 100%nat → length buf = 244%nat ∧ u32le buf 40 = 200).
Proof.
  intros Hd Hint Hsize. eexists. split; [by apply createWavBuffer_bytes |].
  assert (Hlen : length (wavHeader (sampleRate sample) (length d) ++ flat_map frameBytes d)
                 = (44 + 2 * length d)%nat).
  { rewrite length_app, wavHeader_length, frames_length. lia. }
  assert (H40 : u32le (wavHeader (sampleRate sample) (length d) ++ flat_map frameBytes d) 40
                = 2 * Z.of_nat (length d)).
  { unfold u32le, byteAt. cbn [wavHeader app map lookup list_lookup Nat.add default id].
    rewrite byteOf_u32; lia. }
  split_and!.
  - exact Hlen.
  - exact H40.
  - unfold u32le, byteAt. cbn [wavHeader app map lookup list_lookup Nat.add default id].
    rewrite byteOf_u32; lia.
  - reflexivity.
  - intros i v Hv. unfold i16le, byteAt.
    destruct (frames_lookup d i v Hv) as [H0 H1].
    rewrite !lookup_app_r by (rewrite wavHeader_length; lia).
    rewrite wavHeader_length.
    replace (44 + 2 * i - 44)%nat with (i * 2)%nat by lia.
    replace (44 + 2 * i + 1 - 44)%nat with (i * 2 + 1)%nat by lia.
    rewrite H0, H1. cbn [default id].
    apply byteOf_i16. rewrite Forall_forall in Hint. apply Hint.
    by eapply list_elem_of_lookup_2.
  - intros H100. rewrite Hlen, H40. lia.
Qed.

(** C1, as the code has it. The first zone of a range is taken as the global
    zone exactly when it lacks the terminating generator and the range is not
    empty: one zone is enough. The global layer is then that zone's
    generators, and empty otherwise. [getSFZContent] walks the preset's zones
    with the layer so chosen for [OPER_INSTRUMENT], 41, and each preset zone
    walks its instrument's zones with the layer chosen for [OPER_SAMPLE_ID],
    53. When the end of a range cannot be read, for want of a table, there
    is no walk: the [TypeError] of that read is thrown. *)
Theorem firstZone_global_iff (terminator : Z) (firstGens : gmap Z Z) (bagStart bagEnd : Z) :
  let isGlobal (terminator : Z) (firstGens : gmap Z Z) (bagStart bagEnd : Z) : Prop :=
    firstGens !! terminator = None ∧ 1 <= bagEnd - bagStart in
  (firstZoneIsGlobal terminator firstGens bagStart bagEnd = true
   ↔ isGlobal terminator firstGens bagStart bagEnd)
  ∧ globalGens terminator firstGens bagStart bagEnd
    = (if decide (isGlobal terminator firstGens bagStart bagEnd) then firstGens else ∅)
  ∧ (∀ d preset pos outputBase first zoneEnd,
       pBagEnd d pos = Ok zoneEnd →
       getGenerators (pbag d) (pgen d) (bagIndex preset) = Ok first →
       getSFZContent Math_pow Number_toString preset pos d outputBase
       = forRange (bagIndex preset) zoneEnd
           (presetZone Math_pow Number_toString d
              (if decide (isGlobal OPER_INSTRUMENT first (bagIndex preset) zoneEnd)
               then first else ∅))
           (header preset outputBase))
  ∧ (∀ d globalPresetGens pb sfz pGens instId table instrument first zoneEnd,
       getGenerators (pbag d) (pgen d) pb = Ok pGens →
       pGens !! OPER_INSTRUMENT = Some instId →
       instruments d = Some table →
       at_ table instId = Some instrument →
       iBagEnd d instId = Ok zoneEnd →
       getGenerators (ibag d) (igen d) (inst_bagIndex instrument) = Ok first →
       presetZone Math_pow Number_toString d globalPresetGens pb sfz
       = forRange (inst_bagIndex instrument) zoneEnd
           (instZone Math_pow Number_toString d globalPresetGens pGens
              (if decide (isGlobal OPER_SAMPLE_ID first (inst_bagIndex instrument) zoneEnd)
               then first else ∅))
           sfz)
  ∧ (∀ d preset pos outputBase e,
       pBagEnd d pos = Throw e →
       e = TypeError
       ∧ getSFZContent Math_pow Number_toString preset pos d outputBase = Throw e)
  ∧ (∀ d globalPresetGens pb sfz pGens instId e,
       getGenerators (pbag d) (pgen d) pb = Ok pGens →
       pGens !! OPER_INSTRUMENT = Some instId →
       is_Some (instrumentAt d instId) →
       iBagEnd d instId = Throw e →
       e = TypeError
       ∧ presetZone Math_pow Number_toString d globalPresetGens pb sfz = Throw e).
Proof.
  intros isGlobal.
  assert (Hiff : ∀ t g s e, firstZoneIsGlobal t g s e = true ↔ isGlobal t g s e).
  { intros t g s e. unfold firstZoneIsGlobal, isGlobal.
    rewrite andb_true_iff, bool_decide_eq_true, Z.ltb_lt. intuition lia. }
  assert (Hgens : ∀ t g s e,
            globalGens t g s e = (if decide (isGlobal t g s e) then g else ∅)).
  { intros t g s e. unfold globalGens.
    destruct (firstZoneIsGlobal t g s e) eqn:E.
    - rewrite decide_True; [done | by apply Hiff].
    - rewrite decide_False; [done |]. intros H. apply Hiff in H. congruence. }
  split_and!.
  - apply Hiff.
  - apply Hgens.
  - intros d preset pos outputBase first zoneEnd Hend Hfirst.
    rewrite (getSFZContent_walks Math_pow Number_toString d preset pos outputBase
               zoneEnd first Hend Hfirst).
    by rewrite Hgens.
  - intros d gp pb sfz pGens instId table instrument first zoneEnd
      HpGens Hid Htable Hinst Hend Hfirst.
    rewrite (presetZone_walks Math_pow Number_toString d gp pb sfz pGens first instId
               zoneEnd table instrument HpGens Hid Htable Hinst Hend Hfirst).
    by rewrite Hgens.
  - intros d preset pos outputBase e Hend. split.
    + unfold pBagEnd in Hend.
      destruct (presets d) as [table |]; cbn [defined mbind res_bind] in Hend;
        [| by injection Hend as <-].
      by eapply orElseDo_throws, length_throws in Hend.
    + unfold getSFZContent. by rewrite Hend.
  - intros d gp pb sfz pGens instId e HpGens Hid [instrument Hinst] Hend. split.
    + unfold iBagEnd in Hend.
      destruct (instruments d) as [table |]; cbn [defined mbind res_bind] in Hend;
        [| by injection Hend as <-].
      by eapply orElseDo_throws, length_throws in Hend.
    + unfold instrumentAt in Hinst. unfold presetZone.
      rewrite HpGens. cbn [mbind res_bind]. rewrite Hid.
      destruct (instruments d) as [table |]; [| done].
      cbn [defined mbind res_bind option_bind] in *. rewrite Hinst.
      by rewrite Hend.
Qed.

(** C4, as the code has it. The region of an instrument zone is written
    from the four layers of that zone: its own generators, those of the
    preset zone, and the two global layers. For the key range (43) and the
    velocity range (44) the local instrument zone decides if it defines the
    key, otherwise the local preset zone, otherwise the merged map: the
    global instrument zone, then the global preset zone. Every other key
    follows the merge: local instrument, global instrument, local preset,
    global preset. Only when none of the four layers defines a range is the
    region unranged: its key line then reads 0 to 127, and it has no
    velocity line. The layers are those the two walks hand down: the
    generators of the preset zone and the global layer of its instrument,
    under the global layer of the preset. *)
Theorem range_precedence (d : ParsedData) (globalPresetGens pGens globalInstGens : gmap Z Z)
    (ib : Z) (sfz : jsstring) (iGens : gmap Z Z) (sampleId : Z)
    (table : list SF2Sample) (sample : SF2Sample) :
  getGenerators (ibag d) (igen d) ib = Ok iGens →
  iGens !! OPER_SAMPLE_ID = Some sampleId →
  samples d = Some table →
  at_ table sampleId = Some sample →
  sample_name sample ≠ lit "EOS" →
  let combined := combine globalPresetGens pGens globalInstGens iGens in
  let range := firstDefined [iGens; pGens; globalInstGens; globalPresetGens] in
  let merged := firstDefined [iGens; globalInstGens; pGens; globalPresetGens] in
  instZone Math_pow Number_toString d globalPresetGens pGens globalInstGens ib sfz
  = Ok (sfz ++ region Math_pow Number_toString combined sample)
  ∧ (∀ k, k = OPER_KEY_RANGE ∨ k = OPER_VEL_RANGE → combined !! k = range k)
  ∧ (∀ k, k ≠ OPER_KEY_RANGE → k ≠ OPER_VEL_RANGE → combined !! k = merged k)
  ∧ region Math_pow Number_toString combined sample
    = lit "<region>" ++ nl ++ sampleLine sample
      ++ match range OPER_KEY_RANGE with
         | Some v => keyLine (Some v)
         | None => lit "lokey=0 hikey=127" ++ nl
         end
      ++ match range OPER_VEL_RANGE with
         | Some v =>
             lit "lovel=" ++ showZ (rangeLo v) ++ lit " hivel=" ++ showZ (rangeHi v) ++ nl
         | None => []
         end
      ++ soundLines Math_pow Number_toString combined sample
      ++ loopLines combined sample ++ nl
  ∧ (∀ pb instId instruments' instrument first bagEnd sfz',
       getGenerators (pbag d) (pgen d) pb = Ok pGens →
       pGens !! OPER_INSTRUMENT = Some instId →
       instruments d = Some instruments' →
       at_ instruments' instId = Some instrument →
       iBagEnd d instId = Ok bagEnd →
       getGenerators (ibag d) (igen d) (inst_bagIndex instrument) = Ok first →
       presetZone Math_pow Number_toString d globalPresetGens pb sfz'
       = forRange (inst_bagIndex instrument) bagEnd
           (instZone Math_pow Number_toString d globalPresetGens pGens
              (globalGens OPER_SAMPLE_ID first (inst_bagIndex instrument) bagEnd))
           sfz')
  ∧ (∀ preset pos outputBase first bagEnd,
       pBagEnd d pos = Ok bagEnd →
       getGenerators (pbag d) (pgen d) (bagIndex preset) = Ok first →
       getSFZContent Math_pow Number_toString preset pos d outputBase
       = forRange (bagIndex preset) bagEnd
           (presetZone Math_pow Number_toString d
              (globalGens OPER_INSTRUMENT first (bagIndex preset) bagEnd))
           (header preset outputBase)).
Proof.
  intros HiGens Hid Htable Hsample Hname combined range merged.
  assert (Hrange : ∀ k, k = OPER_KEY_RANGE ∨ k = OPER_VEL_RANGE → combined !! k = range k).
  { intros k Hk. unfold combined, range, combine. cbn [firstDefined].
    rewrite !overrideRange_lookup, !spread4_lookup.
    destruct Hk as [-> | ->]; unfold OPER_KEY_RANGE, OPER_VEL_RANGE;
      repeat case_decide; try done.
    - destruct (iGens !! 43), (pGens !! 43), (globalInstGens !! 43),
        (globalPresetGens !! 43); done.
    - destruct (iGens !! 44), (pGens !! 44), (globalInstGens !! 44),
        (globalPresetGens !! 44); done. }
  split_and!.
  - by eapply instZone_region.
  - exact Hrange.
  - intros k Hkey Hvel. unfold combined, merged, combine. cbn [firstDefined].
    rewrite !overrideRange_lookup, !spread4_lookup.
    repeat case_decide; try congruence.
    destruct (iGens !! k), (globalInstGens !! k), (pGens !! k), (globalPresetGens !! k);
      done.
  - unfold region, soundLines. rewrite !Hrange by auto.
    destruct (range OPER_KEY_RANGE), (range OPER_VEL_RANGE);
      cbn [keyLine velLine]; rewrite <- ?app_assoc; reflexivity.
  - intros pb instId instruments' instrument first bagEnd sfz'. apply presetZone_walks.
  - intros preset pos outputBase first bagEnd. apply getSFZContent_walks.
Qed.

(** C7. A region opens with its [sample=] line and then states its key
    range in one line: [lokey=0 hikey=127] when no key range is resolved;
    for a packed value [v], the bounds [v & 0x7F] and [(v >> 8) & 0x7F],
    written as one [key=] directive, and nothing else, when they are equal
    and as [lokey=] and [hikey=] otherwise. The velocity line, the sound
    lines and the loop lines follow. The bounds are the low seven bits of
    the two low bytes, and are written with their decimal digits. *)
Theorem region_key_directive (combined : gmap Z Z) (sample : SF2Sample) :
  let keyText (keyRange : option Z) : jsstring :=
    match keyRange with
    | None => lit "lokey=0 hikey=127" ++ nl
    | Some v =>
        let lo := Z.land v 0x7F in
        let hi := Z.land (Z.shiftr v 8) 0x7F in
        if decide (lo = hi) then lit "key=" ++ decimal lo ++ nl
        else lit "lokey=" ++ decimal lo ++ lit " hikey=" ++ decimal hi ++ nl
    end in
  region Math_pow Number_toString combined sample
  = lit "<region>" ++ nl
    ++ lit "sample=" ++ sanitize (sample_name sample) ++ lit ".wav" ++ nl
    ++ keyText (combined !! OPER_KEY_RANGE)
    ++ velLine (combined !! OPER_VEL_RANGE)
    ++ soundLines Math_pow Number_toString combined sample
    ++ loopLines combined sample ++ nl
  ∧ (∀ keyRange, keyLine keyRange = keyText keyRange)
  ∧ ∀ v, rangeLo v = v mod 128 ∧ rangeHi v = (v / 256) mod 128
         ∧ 0 <= rangeLo v <= 127 ∧ 0 <= rangeHi v <= 127
         ∧ showZ (rangeLo v) = decimal (rangeLo v)
         ∧ showZ (rangeHi v) = decimal (rangeHi v).
Proof.
  intros keyText.
  assert (Hbounds : ∀ v, rangeLo v = v mod 128 ∧ rangeHi v = (v / 256) mod 128
                         ∧ 0 <= rangeLo v <= 127 ∧ 0 <= rangeHi v <= 127).
  { intros v.
    assert (Hlo : rangeLo v = v mod 128).
    { unfold rangeLo. change 127 with (Z.ones 7). by rewrite Z.land_ones. }
    assert (Hhi : rangeHi v = (v / 256) mod 128).
    { unfold rangeHi. change 127 with (Z.ones 7).
      rewrite Z.land_ones by lia. by rewrite Z.shiftr_div_pow2. }
    rewrite Hlo, Hhi.
    pose proof (Z.mod_pos_bound v 128). pose proof (Z.mod_pos_bound (v / 256) 128).
    lia. }
  assert (Hdigits : ∀ b, 0 <= b <= 127 → showZ b = decimal b).
  { assert (Hall : Forall (fun b => showZ b = decimal b) (seqZ 0 128))
      by (refine (bool_decide_unpack _ _); vm_compute; exact I).
    intros b Hb. rewrite Forall_forall in Hall. apply Hall, elem_of_seqZ. lia. }
  assert (Hkey : ∀ keyRange, keyLine keyRange = keyText keyRange).
  { intros [v |]; [| reflexivity]. unfold keyLine, keyText. cbv zeta.
    destruct (Hbounds v) as (_ & _ & Hlo & Hhi).
    rewrite !(Hdigits (rangeLo v)), !(Hdigits (rangeHi v)) by done.
    unfold rangeLo, rangeHi.
    destruct (Z.eqb_spec (Z.land v 127) (Z.land (Z.shiftr v 8) 127)) as [E | E].
    - by rewrite decide_True.
    - by rewrite decide_False. }
  split_and!.
  - unfold region, sampleLine, soundLines. rewrite Hkey.
    rewrite <- !app_assoc. reflexivity.
  - exact Hkey.
  - intros v. destruct (Hbounds v) as (Hlo & Hhi & Hlob & Hhib).
    do 4 (split; [done |]). split; by apply Hdigits.
Qed.

(** One case of the [switch] of [parsePdta]: the sub-chunk of this name is
    read by the reader [readItems item], whose records are [width] bytes
    wide, and stored. *)
Ltac table_case Hread Hturn item item_ok width :=
  intros -> Hfits; apply Hturn;
  destruct (Hread _ item width ltac:(lia) item_ok Hfits) as (items & Hitems & Hlen);
  exists items; split_and!; [done | done |];
  unfold SF2Parser.readTable;
  rewrite ?decide_False by (by vm_compute);
  rewrite decide_True by done;
  unfold SF2Parser.readPhdr, SF2Parser.readBag, SF2Parser.readGen, SF2Parser.readInst,
    SF2Parser.readShdr, mbind, SF2Parser.M_bind;
  by rewrite Hitems.

(** C2, as the code has it. [parsePdta] makes no check that the declared
    size of a sub-chunk is a multiple of the record width, and neither
    throws nor truncates for that. For each of the seven tables, a sub-chunk
    with that name and a declared size [size] is decoded into the quotient
    [size / width] rounded up of records (38 bytes a preset header, 4 a bag
    or a generator, 22 an instrument, 46 a sample header) whenever the
    buffer holds that many records from the start of its body, the last of
    them reaching past the declared end when [size] is no multiple; the
    records become the table of that name, the other tables stay, and the
    cursor goes to the declared end of the sub-chunk, where the loop of
    [parsePdta] goes on. *)
Theorem readers_round_up (buffer : list Byte.byte) (id : jsstring) (size offset : Z)
    (pdta : SF2Parser.Pdta) :
  SF2Parser.readString buffer 4 offset = Ok (id, offset + 4) →
  SF2Parser.readUint32 buffer (offset + 4) = Ok (size, offset + 8) →
  let count width := (size + width - 1) / width in
  let fits width := offset + 8 + width * count width <= SF2Parser.byteLength buffer in
  let decoded {A : Type} (reader : Z → SF2Parser.M (list A)) (width : Z)
      (store : list A → SF2Parser.Pdta) : Prop :=
    ∃ items,
      reader size (offset + 8) = Ok (items, offset + 8 + width * count width)
      ∧ Z.of_nat (length items) = count width
      ∧ SF2Parser.pdtaChunk buffer (pdta, offset) = Ok (store items, offset + 8 + size)
      ∧ (∀ fuel limit, offset < limit →
           SF2Parser.while (S fuel) (fun s => s.2 <? limit)
             (fun s => Some (SF2Parser.pdtaChunk buffer s)) (pdta, offset)
           = SF2Parser.while fuel (fun s => s.2 <? limit)
               (fun s => Some (SF2Parser.pdtaChunk buffer s))
               (store items, offset + 8 + size))
      ∧ (pdta = SF2Parser.emptyPdta →
         ∀ fuel limit, offset < limit →
           SF2Parser.parsePdta buffer (S fuel) limit offset
           = SF2Parser.while fuel (fun s => s.2 <? limit)
               (fun s => Some (SF2Parser.pdtaChunk buffer s))
               (store items, offset + 8 + size))
      ∧ (pdta = SF2Parser.emptyPdta →
         ∀ fuel limit, offset < limit → limit <= offset + 8 + size →
           SF2Parser.parsePdta buffer (S fuel) limit offset
           = Some (Ok (store items, offset + 8 + size))) in
  (∀ width, 0 < width → width * (count width - 1) < size <= width * count width)
  ∧ (id = lit "phdr" → fits 38 →
     decoded (SF2Parser.readPhdr buffer) 38 (fun items =>
       SF2Parser.Build_Pdta (Some items) (SF2Parser.pbag pdta) (SF2Parser.pgen pdta)
         (SF2Parser.inst pdta) (SF2Parser.ibag pdta) (SF2Parser.igen pdta)
         (SF2Parser.shdr pdta)))
  ∧ (id = lit "pbag" → fits 4 →
     decoded (SF2Parser.readBag buffer) 4 (fun items =>
       SF2Parser.Build_Pdta (SF2Parser.phdr pdta) (Some items) (SF2Parser.pgen pdta)
         (SF2Parser.inst pdta) (SF2Parser.ibag pdta) (SF2Parser.igen pdta)
         (SF2Parser.shdr pdta)))
  ∧ (id = lit "pgen" → fits 4 →
     decoded (SF2Parser.readGen buffer) 4 (fun items =>
       SF2Parser.Build_Pdta (SF2Parser.phdr pdta) (SF2Parser.pbag pdta) (Some items)
         (SF2Parser.inst pdta) (SF2Parser.ibag pdta) (SF2Parser.igen pdta)
         (SF2Parser.shdr pdta)))
  ∧ (id = lit "inst" → fits 22 →
     decoded (SF2Parser.readInst buffer) 22 (fun items =>
       SF2Parser.Build_Pdta (SF2Parser.phdr pdta) (SF2Parser.pbag pdta)
         (SF2Parser.pgen pdta) (Some items) (SF2Parser.ibag pdta) (SF2Parser.igen pdta)
         (SF2Parser.shdr pdta)))
  ∧ (id = lit "ibag" → fits 4 →
     decoded (SF2Parser.readBag buffer) 4 (fun items =>
       SF2Parser.Build_Pdta (SF2Parser.phdr pdta) (SF2Parser.pbag pdta)
         (SF2Parser.pgen pdta) (SF2Parser.inst pdta) (Some items) (SF2Parser.igen pdta)
         (SF2Parser.shdr pdta)))
  ∧ (id = lit "igen" → fits 4 →
     decoded (SF2Parser.readGen buffer) 4 (fun items =>
       SF2Parser.Build_Pdta (SF2Parser.phdr pdta) (SF2Parser.pbag pdta)
         (SF2Parser.pgen pdta) (SF2Parser.inst pdta) (SF2Parser.ibag pdta) (Some items)
         (SF2Parser.shdr pdta)))
  ∧ (id = lit "shdr" → fits 46 →
     decoded (SF2Parser.readShdr buffer) 46 (fun items =>
       SF2Parser.Build_Pdta (SF2Parser.phdr pdta) (SF2Parser.pbag pdta)
         (SF2Parser.pgen pdta) (SF2Parser.inst pdta) (SF2Parser.ibag pdta)
         (SF2Parser.igen pdta) (Some items))).
Proof.
  intros Hid Hdeclared count fits decoded.
  assert (Hoffset : 0 <= offset).
  { pose proof (readString_inv buffer _ _ _ Hid) as [? _]. lia. }
  assert (Hsize : 0 <= size).
  { apply readUint32_inv in Hdeclared as (_ & _ & _ & Hrange). lia. }
  assert (Hcount : ∀ width, 0 < width →
            Z.of_nat (SF2Parser.recordCount size width) = count width).
  { intros width Hwidth. unfold SF2Parser.recordCount, count.
    apply Z2Nat.id, Z.div_pos; lia. }
  assert (Hread : ∀ (A : Type) (item : SF2Parser.M A) (width : Z),
            0 < width →
            (∀ off, 0 <= off → off + width <= SF2Parser.byteLength buffer →
                    ∃ x, item off = Ok (x, off + width)) →
            fits width →
            ∃ items,
              SF2Parser.readItems item (SF2Parser.recordCount size width) (offset + 8)
              = Ok (items, offset + 8 + width * count width)
              ∧ Z.of_nat (length items) = count width).
  { intros A item width Hwidth Hitem Hfits.
    destruct (readItems_ok buffer item width ltac:(lia) Hitem
                (SF2Parser.recordCount size width) (offset + 8) ltac:(lia))
      as (items & Hitems & Hlen); [rewrite Hcount by done; unfold fits in Hfits; lia |].
    exists items. rewrite Hcount in Hitems by done.
    split; [done |]. by rewrite Hlen, Hcount. }
  assert (Hturn : ∀ (A : Type) (reader : Z → SF2Parser.M (list A)) (width : Z)
                    (store : list A → SF2Parser.Pdta),
            (∃ items, reader size (offset + 8) = Ok (items, offset + 8 + width * count width)
                      ∧ Z.of_nat (length items) = count width
                      ∧ SF2Parser.readTable buffer id size pdta (offset + 8)
                        = Ok (store items, offset + 8 + width * count width)) →
            decoded A reader width store).
  { intros A reader width store (items & Hitems & Hlen & Htable).
    assert (Hchunk : SF2Parser.pdtaChunk buffer (pdta, offset)
                     = Ok (store items, offset + 8 + size)).
    { unfold SF2Parser.pdtaChunk. rewrite Hid. cbn [mbind res_bind].
      rewrite Hdeclared. cbn [mbind res_bind]. by rewrite Htable. }
    assert (Hloop : ∀ fuel limit, offset < limit →
              SF2Parser.while (S fuel) (fun s => s.2 <? limit)
                (fun s => Some (SF2Parser.pdtaChunk buffer s)) (pdta, offset)
              = SF2Parser.while fuel (fun s => s.2 <? limit)
                  (fun s => Some (SF2Parser.pdtaChunk buffer s))
                  (store items, offset + 8 + size)).
    { intros fuel limit Hlimit. apply while_turn; [| by rewrite Hchunk].
      cbn [snd]. by apply Z.ltb_lt. }
    exists items. split_and!; try done.
    - intros -> fuel limit Hlimit. unfold SF2Parser.parsePdta. by apply Hloop.
    - intros -> fuel limit Hlimit Hlast. unfold SF2Parser.parsePdta.
      rewrite Hloop by done. apply while_done. cbn [snd]. apply Z.ltb_ge. lia. }
  split_and!.
  - intros width Hwidth. rewrite <- (Hcount width Hwidth).
    by apply recordCount_ceil.
  - table_case Hread Hturn (SF2Parser.phdrItem buffer) (phdrItem_ok buffer) 38.
  - table_case Hread Hturn (SF2Parser.bagItem buffer) (bagItem_ok buffer) 4.
  - table_case Hread Hturn (SF2Parser.genItem buffer) (genItem_ok buffer) 4.
  - table_case Hread Hturn (SF2Parser.instItem buffer) (instItem_ok buffer) 22.
  - table_case Hread Hturn (SF2Parser.bagItem buffer) (bagItem_ok buffer) 4.
  - table_case Hread Hturn (SF2Parser.genItem buffer) (genItem_ok buffer) 4.
  - table_case Hread Hturn (SF2Parser.shdrItem buffer) (shdrItem_ok buffer) 46.
Qed.

(** C9. With a [Math.pow] that answers 1 for an exponent of zero of either
    sign, as the language requires, and that is exact at [2 ** 1]:
    [tcToSec(0)] is 1 and [tcToSec(1200)] is 2; a sustain of 0 centibels is
    written [100.00]; a pan of 500 is written [50.00] and a pan of -500
    [-50.00]. The numbers are binary64 values, the divisions IEEE divisions,
    and the digits those of [toFixed]. *)
Theorem numeric_fixed_points :
  (∀ x, Math_pow x 0%float = 1%float ∧ Math_pow x neg_zero = 1%float) →
  Math_pow 2%float 1%float = 2%float →
  tcToSec Math_pow (ofZ 0) = 1%float
  ∧ tcToSec Math_pow (ofZ 1200) = 2%float
  ∧ sustainText Math_pow Number_toString 0 = lit "100.00"
  ∧ panText Number_toString 500 = lit "50.00"
  ∧ panText Number_toString (-500) = lit "-50.00".
Proof.
  intros Hzero Hone. split_and!.
  - unfold tcToSec.
    replace (ofZ 0 / 1200)%float with 0%float by (vm_compute; reflexivity).
    apply Hzero.
  - unfold tcToSec.
    replace (ofZ 1200 / 1200)%float with 1%float by (vm_compute; reflexivity).
    exact Hone.
  - unfold sustainText.
    replace (- (ofZ 0 / 10) / 20)%float with neg_zero by (vm_compute; reflexivity).
    rewrite (proj2 (Hzero 10%float)). vm_compute. reflexivity.
  - vm_compute. reflexivity.
  - vm_compute. reflexivity.
Qed.

End Properties.

(** ** The examples *)

Section Instances.

Import SFZConverter.

(** C1, against the claim that a range of one zone is never global: the one
    zone of "Solo" holds a pan generator and no instrument generator, and it
    is taken as the global zone. *)
Lemma single_zone_taken_as_global :
  getGenerators (pbag soloZoneBank) (pgen soloZoneBank) 0 = Ok {[17 := 100]}
  ∧ ({[17 := 100]} : gmap Z Z) !! OPER_INSTRUMENT = None
  ∧ pBagEnd soloZoneBank 0 = Ok 1
  ∧ firstZoneIsGlobal OPER_INSTRUMENT {[17 := 100]} 0 1 = true
  ∧ globalGens OPER_INSTRUMENT {[17 := 100]} 0 1 = {[17 := 100]}
  ∧ ¬ (∀ terminator (firstGens : gmap Z Z) bagStart bagEnd,
         firstZoneIsGlobal terminator firstGens bagStart bagEnd = true
         ↔ firstGens !! terminator = None ∧ 2 <= bagEnd - bagStart).
Proof.
  split_and!; try (vm_compute; reflexivity).
  intros H. destruct (H OPER_INSTRUMENT {[17 := 100]} 0 1) as [Hglobal _].
  destruct Hglobal as [_ Hcount]; [vm_compute; reflexivity | lia].
Qed.

(** C3, where the code leaves the claim: "Empty" starts at zone 0 and so does
    its successor, so its range should be empty; [0 || length] makes it the
    whole bag table, and the document of "Empty" holds the region of "Piano".
    The end of a generator range is computed the same way. *)
Lemma next_start_zero_ends_at_table_length :
  (presets emptyFirstPresetBank ≫= fun table => bagIndex <$> at_ table 1) = Some 0
  ∧ pBagEnd emptyFirstPresetBank 0 = Ok 2
  ∧ length_ (pbag emptyFirstPresetBank) = Ok 2
  ∧ genEnd [bag 0; bag 0; bag 1] (Some [gen 41 0; gen 0 0]) 0 = Ok 2
  ∧ getSFZContent examplePow exampleToString (mkPreset "Empty" 0) 0
      emptyFirstPresetBank (lit "Bank")
    = Ok (header (mkPreset "Empty" 0) (lit "Bank")
          ++ lit "<region>" ++ nl ++ lit "sample=Snd.wav" ++ nl
          ++ lit "lokey=0 hikey=127" ++ nl ++ lit "pitch_keycenter=60" ++ nl ++ nl).
Proof. split_and!; vm_compute; reflexivity. Qed.

(** C4, against the claim that a region is unranged when neither local zone
    defines a range: here only the instrument's global zone has a key range,
    0 to 64, and the region gets it. *)
Lemma global_zone_range_reaches_region :
  getGenerators (pbag globalRangeBank) (pgen globalRangeBank) 0 = Ok {[41 := 0]}
  ∧ getGenerators (ibag globalRangeBank) (igen globalRangeBank) 0 = Ok {[43 := 16384]}
  ∧ getGenerators (ibag globalRangeBank) (igen globalRangeBank) 1 = Ok {[53 := 0]}
  ∧ firstDefined [{[53 := 0]}; {[41 := 0]}] OPER_KEY_RANGE = None
  ∧ combine ∅ {[41 := 0]} {[43 := 16384]} {[53 := 0]} !! OPER_KEY_RANGE = Some 16384
  ∧ getSFZContent examplePow exampleToString (mkPreset "Test" 0) 0
      globalRangeBank (lit "Bank")
    = Ok (header (mkPreset "Test" 0) (lit "Bank")
          ++ lit "<region>" ++ nl ++ lit "sample=Snd.wav" ++ nl
          ++ lit "lokey=0 hikey=64" ++ nl ++ lit "pitch_keycenter=60" ++ nl ++ nl)
  ∧ ¬ (∀ gp p gi i : gmap Z Z,
         combine gp p gi i !! OPER_KEY_RANGE = firstDefined [i; p] OPER_KEY_RANGE).
Proof.
  split_and!; try (vm_compute; reflexivity).
  intros H. specialize (H ∅ {[41 := 0]} {[43 := 16384]} {[53 := 0]}).
  vm_compute in H. discriminate H.
Qed.

(** C4 at that bank: the region of the instrument's second zone, under the
    layers the walks hand down, takes its key range from the global
    instrument layer. *)
Lemma global_range_region_layers :
  instZone examplePow exampleToString globalRangeBank ∅ {[41 := 0]} {[43 := 16384]} 1
    (lit "// ")
  = Ok (lit "// "
        ++ region examplePow exampleToString
             (combine ∅ {[41 := 0]} {[43 := 16384]} {[53 := 0]})
             (mkSample "Snd" (Some [1; -1])))
  ∧ combine ∅ {[41 := 0]} {[43 := 16384]} {[53 := 0]} !! OPER_KEY_RANGE = Some 16384.
Proof.
  assert (HiGens : getGenerators (ibag globalRangeBank) (igen globalRangeBank) 1
                   = Ok {[53 := 0]}) by (vm_compute; reflexivity).
  assert (Hid : ({[53 := 0]} : gmap Z Z) !! OPER_SAMPLE_ID = Some 0)
    by (vm_compute; reflexivity).
  assert (Htable : samples globalRangeBank
                   = Some [mkSample "Snd" (Some [1; -1]); mkSample "EOS" (Some [])])
    by reflexivity.
  assert (Hsample : at_ [mkSample "Snd" (Some [1; -1]); mkSample "EOS" (Some [])] 0
                    = Some (mkSample "Snd" (Some [1; -1]))) by reflexivity.
  assert (Hname : sample_name (mkSample "Snd" (Some [1; -1])) ≠ lit "EOS")
    by (intros H; vm_compute in H; discriminate H).
  destruct (range_precedence examplePow exampleToString globalRangeBank
              ∅ {[41 := 0]} {[43 := 16384]} 1 (lit "// ") {[53 := 0]} 0 _ _
              HiGens Hid Htable Hsample Hname) as (Hzone & Hrange & _).
  split; [exact Hzone |].
  rewrite (Hrange OPER_KEY_RANGE (or_introl eq_refl)). vm_compute. reflexivity.
Defined.

(** C5, against the claim that a buffer of length zero makes
    [createWavBuffer] fail: it returns the 44 bytes of the header. *)
Lemma blank_sample_is_encoded :
  data blankSample = Some []
  ∧ createWavBuffer blankSample = Ok (wavHeader 44100 0)
  ∧ length (wavHeader 44100 0) = 44%nat
  ∧ ¬ (∀ sample, returns (createWavBuffer sample) = false
                 ↔ data sample = None ∨ data sample = Some []).
Proof.
  split_and!; try reflexivity.
  intros H. destruct (H blankSample) as [_ Hfails].
  specialize (Hfails (or_intror eq_refl)). vm_compute in Hfails. discriminate Hfails.
Qed.

(** C6 at a sample of a hundred frames. *)
Lemma hundred_frames_wav :
  (data sndSample = Some hundredFrames ∧ Forall int16 hundredFrames
   ∧ 36 + 2 * Z.of_nat (length hundredFrames) < 2 ^ 32)
  ∧ ∃ buf, createWavBuffer sndSample = Ok buf
      ∧ length buf = 244%nat
      ∧ u32le buf 40 = 200
      ∧ u32le buf 4 = 236
      ∧ i16le buf 44 = -16000
      ∧ i16le buf 242 = 15779.
Proof.
  assert (Hdata : data sndSample = Some hundredFrames) by reflexivity.
  assert (Hint : Forall int16 hundredFrames)
    by (refine (bool_decide_unpack _ _); vm_compute; exact I).
  assert (Hsize : 36 + 2 * Z.of_nat (length hundredFrames) < 2 ^ 32)
    by (vm_compute; reflexivity).
  split; [by split_and! |].
  destruct (createWavBuffer_layout sndSample hundredFrames Hdata Hint Hsize)
    as (buf & Hbuf & Hlen & H40 & H4 & _ & Hframes & _).
  exists buf. split_and!.
  - exact Hbuf.
  - exact Hlen.
  - exact H40.
  - exact H4.
  - exact (Hframes 0%nat (-16000) eq_refl).
  - exact (Hframes 99%nat 15779 eq_refl).
Defined.

(** C8, where the code leaves the claim: [noInstFile] has no [inst]
    sub-chunk, and [parse] returns its tables with [instruments] undefined.
    The zone of "Test" names instrument 0, which does not exist; it is not
    skipped, for reading [parsedData.instruments[instId]] throws a
    [TypeError] before the test that skips a missing instrument, and
    [getSFZContent] returns no header. *)
Lemma missing_instrument_table_throws :
  SF2Parser.parse noInstFile = Some (Ok noInstBank)
  ∧ instruments noInstBank = None
  ∧ getGenerators (pbag noInstBank) (pgen noInstBank) 0 = Ok {[41 := 0]}
  ∧ instrumentAt noInstBank 0 = None
  ∧ presetZone examplePow exampleToString noInstBank ∅ 0 [] = Throw TypeError
  ∧ getSFZContent examplePow exampleToString (mkPreset "Test" 0) 0 noInstBank (lit "Bank")
    = Throw TypeError
  ∧ ¬ (∀ d globalPresetGens pb sfz pGens instId,
         getGenerators (pbag d) (pgen d) pb = Ok pGens →
         pGens !! OPER_INSTRUMENT = Some instId →
         instrumentAt d instId = None →
         presetZone examplePow exampleToString d globalPresetGens pb sfz = Ok sfz).
Proof.
  assert (Hthrows : presetZone examplePow exampleToString noInstBank ∅ 0 []
                    = Throw TypeError) by (vm_compute; reflexivity).
  do 6 (split; [vm_compute; reflexivity |]).
  intros H.
  specialize (H noInstBank ∅ 0 [] {[41 := 0]} 0).
  rewrite Hthrows in H. discriminate H; vm_compute; reflexivity.
Qed.

(** C2, against the claim that a size that is no multiple of the record
    width makes [parse] fail: the [pbag] sub-chunk of [oddBagFile] declares 6
    bytes, and [parse] returns its tables, with two bag records, the second
    of them made of the chunk's last two bytes and the first two of the tag
    that follows. *)
Lemma odd_bag_size_is_parsed :
  SF2Parser.readString oddBagFile 4 70 = Ok (lit "pbag", 74)
  ∧ SF2Parser.getUint32 oddBagFile 74 = Ok 6
  ∧ 6 mod 4 = 2
  ∧ ∃ tables, SF2Parser.parse oddBagFile = Some (Ok tables)
      ∧ pbag tables
        = Some [{| generatorStart := 0; modulatorStart := 0 |};
                {| generatorStart := 1; modulatorStart := 26480 |}]
      ∧ presets tables = Some [mkPreset "EOP" 0]
      ∧ length <$> samples tables = Some 1%nat.
Proof.
  split_and!; try (vm_compute; reflexivity).
  eexists. split_and!; vm_compute; reflexivity.
Qed.

(** C2 at that sub-chunk: the turn of [parsePdta] that meets it stores two
    bag records for its 6 bytes and goes on at its declared end. *)
Lemma odd_bag_two_records :
  (SF2Parser.readString oddBagFile 4 70 = Ok (lit "pbag", 70 + 4)
   ∧ SF2Parser.readUint32 oddBagFile (70 + 4) = Ok (6, 70 + 8)
   ∧ 70 + 8 + 4 * ((6 + 4 - 1) / 4) <= SF2Parser.byteLength oddBagFile)
  ∧ ∃ items, length items = 2%nat
      ∧ SF2Parser.pdtaChunk oddBagFile (SF2Parser.emptyPdta, 70)
        = Ok (SF2Parser.Build_Pdta None (Some items) None None None None None, 70 + 8 + 6).
Proof.
  assert (Hid : SF2Parser.readString oddBagFile 4 70 = Ok (lit "pbag", 70 + 4))
    by (vm_compute; reflexivity).
  assert (Hsize : SF2Parser.readUint32 oddBagFile (70 + 4) = Ok (6, 70 + 8))
    by (vm_compute; reflexivity).
  assert (Hfits : 70 + 8 + 4 * ((6 + 4 - 1) / 4) <= SF2Parser.byteLength oddBagFile)
    by (vm_compute; discriminate).
  split; [by split_and! |].
  destruct (readers_round_up oddBagFile (lit "pbag") 6 70 SF2Parser.emptyPdta Hid Hsize)
    as (_ & _ & Hbag & _).
  destruct (Hbag eq_refl Hfits) as (items & _ & Hlen & Hchunk & _).
  exists items. split; [| exact Hchunk].
  apply Nat2Z.inj. rewrite Hlen. reflexivity.
Defined.

(** C9 with the engine of the examples. *)
Lemma example_engine_fixed_points :
  tcToSec examplePow (ofZ 0) = 1%float
  ∧ tcToSec examplePow (ofZ 1200) = 2%float
  ∧ sustainText examplePow exampleToString 0 = lit "100.00"
  ∧ panText exampleToString 500 = lit "50.00"
  ∧ panText exampleToString (-500) = lit "-50.00".
Proof.
  apply (numeric_fixed_points examplePow exampleToString).
  - intros x. split; reflexivity.
  - reflexivity.
Defined.

End Instances.

(** ** What [trim] keeps *)

Section Trimming.

Lemma trimStart_drops (s : jsstring) : ∃ k, s = k ++ trimStart s.
Proof.
  induction s as [| c s [k IH]]; [by exists [] |]. simpl.
  destruct (isWhiteSpace c); [| by exists []].
  exists (c :: k). simpl. by rewrite <- IH.
Qed.

Lemma trimEnd_drops (s : jsstring) : ∃ k, s = trimEnd s ++ k.
Proof.
  unfold trimEnd. destruct (trimStart_drops (rev s)) as [k Hk].
  exists (rev k). rewrite <- rev_app_distr, <- Hk. by rewrite rev_involutive.
Qed.

Lemma trim_drops (s : jsstring) : ∃ a b, s = a ++ trim s ++ b.
Proof.
  unfold trim. destruct (trimStart_drops s) as [a Ha].
  destruct (trimEnd_drops (trimStart s)) as [b Hb].
  exists a, b. by rewrite <- Hb.
Qed.

Lemma trim_length (s : jsstring) : (length (trim s) <= length s)%nat.
Proof.
  destruct (trim_drops s) as (a & b & H).
  rewrite H at 2. rewrite !length_app. lia.
Qed.

Lemma trim_full_length (s : jsstring) : length (trim s) = length s → trim s = s.
Proof.
  destruct (trim_drops s) as (a & b & H). intros Hlen.
  rewrite H in Hlen at 2. rewrite !length_app in Hlen.
  assert (a = []) as -> by (apply nil_length_inv; lia).
  assert (b = []) as -> by (apply nil_length_inv; lia).
  simpl in H. by rewrite app_nil_r in H.
Qed.

Lemma trim_Forall (P : N → Prop) (s : jsstring) : Forall P s → Forall P (trim s).
Proof.
  destruct (trim_drops s) as (a & b & H). intros Hs. rewrite H in Hs.
  by apply Forall_app in Hs as [_ [Hs _]%Forall_app].
Qed.

Lemma trimStart_fixed_head (c : N) (s : jsstring) :
  trimStart (c :: s) = c :: s → isWhiteSpace c = false.
Proof.
  simpl. destruct (isWhiteSpace c); [| done]. intros H.
  destruct (trimStart_drops s) as [k Hk]. rewrite H in Hk.
  apply (f_equal length) in Hk. rewrite length_app in Hk. simpl in Hk. lia.
Qed.

Lemma trimStart_idempotent (s : jsstring) : trimStart (trimStart s) = trimStart s.
Proof.
  induction s as [| c s IH]; [done |]. simpl.
  destruct (isWhiteSpace c) eqn:Hc; [done |]. simpl. by rewrite Hc.
Qed.

Lemma trimStart_fixed_prefix (t u k : jsstring) :
  trimStart u = u → u = t ++ k → trimStart t = t.
Proof.
  intros Hu ->. destruct t as [| c t]; [done |].
  apply trimStart_fixed_head in Hu. simpl. by rewrite Hu.
Qed.

Lemma trim_idempotent (s : jsstring) : trim (trim s) = trim s.
Proof.
  assert (Hstart : trimStart (trim s) = trim s).
  { unfold trim. destruct (trimEnd_drops (trimStart s)) as [k Hk].
    eapply trimStart_fixed_prefix; [apply trimStart_idempotent | exact Hk]. }
  unfold trim at 1. rewrite Hstart. unfold trim, trimEnd.
  rewrite rev_involutive, trimStart_idempotent. done.
Qed.

End Trimming.

(** ** What the readers return *)

Section Decoding.

Import SF2Parser.

Variable buffer : list Byte.byte.

Lemma M_bind_inv {A B : Type} (m : M A) (f : A → M B) (offset : Z) (r : B * Z) :
  (m ≫= f) offset = Ok r →
  ∃ a offset', m offset = Ok (a, offset') ∧ f a offset' = Ok r.
Proof.
  unfold mbind, M_bind. destruct (m offset) as [[a offset'] |]; [| done].
  intros H. by exists a, offset'.
Qed.

Lemma getUint16_range (off v : Z) : getUint16 buffer off = Ok v → uint16 v.
Proof.
  unfold getUint16, uint16.
  destruct (getUint8 buffer off) as [b0 |] eqn:H0; cbn [mbind res_bind]; [| done].
  destruct (getUint8 buffer (off + 1)) as [b1 |] eqn:H1; cbn [mbind res_bind]; [| done].
  intros [= <-]. apply getUint8_range in H0, H1. lia.
Qed.

Lemma readUint16_range (off off' v : Z) :
  readUint16 buffer off = Ok (v, off') → uint16 v.
Proof.
  unfold readUint16. destruct (getUint16 buffer off) as [x |] eqn:H;
    cbn [mbind res_bind]; [| done].
  intros [= <- _]. by eapply getUint16_range.
Qed.

Lemma readUint32_range (off off' v : Z) :
  readUint32 buffer off = Ok (v, off') → uint32 v.
Proof.
  unfold readUint32, getUint32, uint32.
  destruct (getUint16 buffer off) as [lo |] eqn:Hlo; cbn [mbind res_bind]; [| done].
  destruct (getUint16 buffer (off + 2)) as [hi |] eqn:Hhi; cbn [mbind res_bind]; [| done].
  intros [= <- _]. apply getUint16_range in Hlo, Hhi. unfold uint16 in *.
  change (2 ^ 32) with 4294967296. lia.
Qed.

Lemma readInt16_range (off off' v : Z) :
  readInt16 buffer off = Ok (v, off') → int16 v.
Proof.
  unfold readInt16, getInt16.
  destruct (getUint16 buffer off) as [x |] eqn:H; cbn [mbind res_bind]; [| done].
  intros [= <- _]. apply getUint16_range in H. unfold uint16, int16 in *.
  destruct (Z.ltb_spec x 32768); lia.
Qed.

Lemma readUint8_range (off off' v : Z) :
  readUint8 buffer off = Ok (v, off') → uint8 v.
Proof.
  unfold readUint8. destruct (getUint8 buffer off) as [x |] eqn:H;
    cbn [mbind res_bind]; [| done].
  intros [= <- _]. by eapply getUint8_range.
Qed.

Lemma readInt8_range (off off' v : Z) :
  readInt8 buffer off = Ok (v, off') → int8 v.
Proof.
  unfold readInt8, getInt8.
  destruct (getUint8 buffer off) as [x |] eqn:H; cbn [mbind res_bind]; [| done].
  intros [= <- _]. apply getUint8_range in H. unfold int8.
  destruct (Z.ltb_spec x 128); lia.
Qed.

(** The characters of a name: at most [n], each the value of a byte that is
    not NUL. *)
Lemma readChars_shape (n : nat) : ∀ (off : Z) (chars : jsstring),
  readChars buffer n off = Ok chars →
  (length chars <= n)%nat ∧ Forall (fun c => 0 < c < 256)%N chars.
Proof.
  induction n as [| n IH]; intros off chars; cbn [readChars].
  - intros [= <-]. split; [done | apply List.Forall_nil].
  - destruct (getUint8 buffer off) as [c |] eqn:Hc; cbn [mbind res_bind]; [| done].
    apply getUint8_range in Hc.
    destruct (Z.eqb_spec c 0) as [-> | Hne].
    + intros [= <-]. split; [simpl; lia | apply List.Forall_nil].
    + destruct (readChars buffer n (off + 1)) as [rest |] eqn:Hrest;
        cbn [mbind res_bind]; [| done].
      intros [= <-]. destruct (IH _ _ Hrest) as [Hlen Hall].
      split; [simpl; lia |]. apply List.Forall_cons; [lia | done].
Qed.

Lemma readString_shape (n : nat) (off off' : Z) (str : jsstring) :
  readString buffer n off = Ok (str, off') →
  off' = off + Z.of_nat n
  ∧ (length str <= n)%nat
  ∧ Forall (fun c => 0 < c < 256)%N str
  ∧ trim str = str.
Proof.
  unfold readString.
  destruct (readChars buffer n off) as [chars |] eqn:Hchars; cbn [mbind res_bind]; [| done].
  intros [= <- <-]. destruct (readChars_shape _ _ _ Hchars) as [Hlen Hall].
  split_and!; [done | | by apply trim_Forall | apply trim_idempotent].
  pose proof (trim_length chars). lia.
Qed.

Lemma readItems_Forall {A : Type} (item : M A) (P : A → Prop) :
  (∀ off x off', item off = Ok (x, off') → P x) →
  ∀ (n : nat) (off : Z) (items : list A) (off' : Z),
    readItems item n off = Ok (items, off') → Forall P items.
Proof.
  intros Hitem. induction n as [| n IH]; intros off items off'; cbn [readItems].
  - intros [= <- _]. apply List.Forall_nil.
  - intros H. apply M_bind_inv in H as (x & o1 & Hx & H).
    apply M_bind_inv in H as (xs & o2 & Hxs & H).
    injection H as <- _. apply List.Forall_cons; [by eapply Hitem | by eapply IH].
Qed.

End Decoding.

(** ** Generator ranges *)

Section Generators.

Import SFZConverter.

Variable genList : list SF2Generator.

Lemma at_is_Some {A : Type} (l : list A) (j : Z) :
  is_Some (at_ l j) ↔ 0 <= j < Z.of_nat (length l).
Proof.
  unfold at_. destruct (Z.leb_spec 0 j).
  - rewrite lookup_lt_is_Some. lia.
  - split; [by intros [? ?] | lia].
Qed.

Lemma addGenerator_Some (i : Z) (gen : SF2Generator) (acc : gmap Z Z) :
  at_ genList i = Some gen →
  addGenerator (Some genList) i acc = Ok (<[operator gen := amount gen]> acc).
Proof. intros H. unfold addGenerator. cbn [defined mbind res_bind]. by rewrite H. Qed.

Lemma addGenerator_None (i : Z) (acc : gmap Z Z) :
  at_ genList i = None → addGenerator (Some genList) i acc = Throw TypeError.
Proof. intros H. unfold addGenerator. cbn [defined mbind res_bind]. by rewrite H. Qed.

Lemma addGenerators_returns (n : nat) : ∀ (i : Z) (acc : gmap Z Z),
  (∀ j, i <= j < i + Z.of_nat n → 0 <= j < Z.of_nat (length genList)) →
  ∃ gens, forLoop n i (addGenerator (Some genList)) acc = Ok gens.
Proof.
  induction n as [| n IH]; intros i acc Hin; [by eexists |].
  cbn [forLoop].
  destruct (proj2 (at_is_Some genList i)) as [gen Hgen]; [apply Hin; lia |].
  rewrite (addGenerator_Some _ _ _ Hgen).
  cbn [mbind res_bind]. apply IH. intros j Hj. apply Hin. lia.
Qed.

Lemma addGenerators_throws (n : nat) : ∀ (i : Z) (acc : gmap Z Z) (e : exn),
  forLoop n i (addGenerator (Some genList)) acc = Throw e →
  e = TypeError ∧ ∃ j, i <= j < i + Z.of_nat n ∧ at_ genList j = None.
Proof.
  induction n as [| n IH]; intros i acc e; cbn [forLoop]; [done |].
  destruct (at_ genList i) as [gen |] eqn:Hi.
  - rewrite (addGenerator_Some _ _ _ Hi).
    cbn [mbind res_bind]. intros H. apply IH in H as (-> & j & Hj & Hnone).
    split; [done |]. exists j. split; [lia | done].
  - rewrite (addGenerator_None _ _ Hi).
    cbn [mbind res_bind]. intros [= <-]. split; [done |]. exists i. split; [lia | done].
Qed.

Lemma addGenerators_reads (n : nat) : ∀ (i : Z) (acc gens : gmap Z Z),
  forLoop n i (addGenerator (Some genList)) acc = Ok gens →
  ∀ j, i <= j < i + Z.of_nat n → 0 <= j < Z.of_nat (length genList).
Proof.
  induction n as [| n IH]; intros i acc gens; cbn [forLoop]; [intros _ j; lia |].
  destruct (at_ genList i) as [gi |] eqn:Hi;
    [rewrite (addGenerator_Some _ _ _ Hi) | by rewrite (addGenerator_None _ _ Hi)].
  cbn [mbind res_bind]. intros Hrest j Hj.
  destruct (decide (j = i)) as [-> | Hne].
  - apply at_is_Some. by eexists.
  - apply (IH _ _ _ Hrest). lia.
Qed.

Lemma addGenerators_lookup (n : nat) : ∀ (i : Z) (acc gens : gmap Z Z),
  forLoop n i (addGenerator (Some genList)) acc = Ok gens →
  ∀ k v, gens !! k = Some v
         ↔ storedLast genList i n k v ∨ (notStored genList i n k ∧ acc !! k = Some v).
Proof.
  induction n as [| n IH]; intros i acc gens; cbn [forLoop].
  - intros [= <-] k v. split.
    + intros H. right. split; [| done]. intros j gen Hj. lia.
    + intros [(j & gen & Hj & _) | [_ H]]; [lia | done].
  - destruct (at_ genList i) as [gi |] eqn:Hi;
      [rewrite (addGenerator_Some _ _ _ Hi) | rewrite (addGenerator_None _ _ Hi)];
      cbn [mbind res_bind]; [| done].
    intros Hrest k v. rewrite (IH _ _ _ Hrest k v). clear IH Hrest. split.
    + intros [(j & gen & Hj & Hgen & Hk & Hv & Hlast) | [Hnot Hacc]].
      * left. exists j, gen. split_and!; [lia | lia | done | done | done |].
        intros j' gen' Hj'. apply Hlast. lia.
      * destruct (decide (operator gi = k)) as [Hk | Hk].
        -- left. exists i, gi. rewrite <- Hk, lookup_insert_eq in Hacc.
           injection Hacc as Hv. split_and!; [lia | lia | done | done | done |].
           intros j' gen' Hj'. apply Hnot. lia.
        -- right. rewrite lookup_insert_ne in Hacc by done. split; [| done].
           intros j gen Hj Hgen. destruct (decide (j = i)) as [-> | Hne].
           ++ congruence.
           ++ apply (Hnot j gen); [lia | done].
    + intros [(j & gen & Hj & Hgen & Hk & Hv & Hlast) | [Hnot Hacc]].
      * destruct (decide (j = i)) as [-> | Hne].
        -- right. assert (gen = gi) as -> by congruence. split.
           ++ intros j' gen' Hj'. apply Hlast. lia.
           ++ by rewrite <- Hk, <- Hv, lookup_insert_eq.
        -- left. exists j, gen. split_and!; [lia | lia | done | done | done |].
           intros j' gen' Hj'. apply Hlast. lia.
      * right. split.
        -- intros j gen Hj. apply Hnot. lia.
        -- rewrite lookup_insert_ne; [done |]. apply (Hnot i gi); [lia | done].
Qed.

End Generators.

(** A bag table whose starts lie inside the generator table gives ranges
    that do. *)
Lemma rangeEnd_in_bounds (bags : list SF2Bag) (genList : list SF2Generator) (bagIdx : Z) :
  gensInBounds bags genList →
  rangeEnd bags genList bagIdx <= Z.of_nat (length genList).
Proof.
  intros Hin. unfold rangeEnd.
  destruct (at_ bags (bagIdx + 1)) as [next |] eqn:Hnext; [| simpl; lia].
  simpl. destruct (generatorStart next =? 0); [lia |].
  unfold at_ in Hnext. destruct (0 <=? bagIdx + 1); [| done].
  unfold gensInBounds in Hin. rewrite Forall_forall in Hin.
  apply list_elem_of_lookup_2, Hin in Hnext. lia.
Qed.

Lemma getGenerators_in_bounds (bags : list SF2Bag) (genList : list SF2Generator)
    (bagIdx : Z) :
  gensInBounds bags genList →
  ∃ gens, SFZConverter.getGenerators (Some bags) (Some genList) bagIdx = Ok gens.
Proof.
  intros Hin. rewrite getGenerators_present.
  destruct (_ || _); [by eexists |].
  destruct (at_ bags bagIdx) as [bag |] eqn:Hbag; [| by eexists].
  apply addGenerators_returns. intros j Hj.
  pose proof (rangeEnd_in_bounds bags genList bagIdx Hin).
  unfold at_ in Hbag. destruct (0 <=? bagIdx); [| done].
  unfold gensInBounds in Hin. rewrite Forall_forall in Hin.
  apply list_elem_of_lookup_2, Hin in Hbag. lia.
Qed.

(** ** Loops that only append *)

Section Appending.

Import SFZConverter.

Variable Math_pow : float → float → float.
Variable Number_toString : float → jsstring.

Lemma forLoop_returns {St : Type} (body : Z → St → res St) (n : nat) :
  (∀ j s, ∃ s', body j s = Ok s') →
  ∀ i s, ∃ s', forLoop n i body s = Ok s'.
Proof.
  intros Hbody. induction n as [| n IH]; intros i s; [by eexists |].
  cbn [forLoop]. destruct (Hbody i s) as [s' ->]. cbn [mbind res_bind]. apply IH.
Qed.

Lemma forLoop_appends (body : Z → jsstring → res jsstring) (n : nat) :
  (∀ j s, body j s = appendTo s (body j [])) →
  ∀ i s, forLoop n i body s = appendTo s (forLoop n i body []).
Proof.
  intros Hbody. induction n as [| n IH]; intros i s.
  - simpl. by rewrite app_nil_r.
  - cbn [forLoop]. rewrite (Hbody i s).
    destruct (body i []) as [t |]; cbn [appendTo mbind res_bind]; [| done].
    rewrite (IH (i + 1) (s ++ t)), (IH (i + 1) t).
    destruct (forLoop n (i + 1) body []) as [r |]; cbn [appendTo]; [| done].
    by rewrite app_assoc.
Qed.

Lemma instZone_from_empty d gp pG gi ib (sfz : jsstring) :
  instZone Math_pow Number_toString d gp pG gi ib sfz
  = appendTo sfz (instZone Math_pow Number_toString d gp pG gi ib []).
Proof.
  unfold instZone.
  destruct (getGenerators (ibag d) (igen d) ib) as [iGens |]; cbn [mbind res_bind]; [| done].
  destruct (iGens !! OPER_SAMPLE_ID) as [sampleId |];
    [| by cbn [appendTo]; rewrite app_nil_r].
  destruct (samples d) as [table |]; cbn [defined mbind res_bind]; [| done].
  destruct (at_ table sampleId) as [sample |];
    [| by cbn [appendTo]; rewrite app_nil_r].
  case_bool_decide; cbn [appendTo]; by rewrite ?app_nil_r.
Qed.

Lemma presetZone_from_empty d gp pb (sfz : jsstring) :
  presetZone Math_pow Number_toString d gp pb sfz
  = appendTo sfz (presetZone Math_pow Number_toString d gp pb []).
Proof.
  unfold presetZone.
  destruct (getGenerators (pbag d) (pgen d) pb) as [pGens |]; cbn [mbind res_bind]; [| done].
  destruct (pGens !! OPER_INSTRUMENT) as [instId |];
    [| by cbn [appendTo]; rewrite app_nil_r].
  destruct (instruments d) as [table |] eqn:Htable; cbn [defined mbind res_bind]; [| done].
  destruct (at_ table instId) as [instrument |];
    [| by cbn [appendTo]; rewrite app_nil_r].
  destruct (iBagEnd d instId) as [bagEnd |]; cbn [mbind res_bind]; [| done].
  destruct (getGenerators (ibag d) (igen d) (inst_bagIndex instrument)) as [first |];
    cbn [mbind res_bind]; [| done].
  apply forLoop_appends. intros j s. apply instZone_from_empty.
Qed.

Lemma instZone_returns d gp pG gi ib (sfz : jsstring) (bags : list SF2Bag)
    (genList : list SF2Generator) :
  is_Some (samples d) →
  ibag d = Some bags → igen d = Some genList → gensInBounds bags genList →
  ∃ sfz', instZone Math_pow Number_toString d gp pG gi ib sfz = Ok sfz'.
Proof.
  intros [table Htable] Hbags Hgens Hin. unfold instZone. rewrite Hbags, Hgens.
  destruct (getGenerators_in_bounds _ _ ib Hin) as [iGens ->]. cbn [mbind res_bind].
  destruct (iGens !! OPER_SAMPLE_ID) as [sampleId |]; [| by eexists].
  rewrite Htable. cbn [defined mbind res_bind].
  destruct (at_ table sampleId) as [sample |]; [| by eexists].
  case_bool_decide; by eexists.
Qed.

Lemma presetZone_returns d gp pb (sfz : jsstring) (pBags iBags : list SF2Bag)
    (pGenList iGenList : list SF2Generator) :
  is_Some (instruments d) → is_Some (samples d) →
  pbag d = Some pBags → pgen d = Some pGenList → gensInBounds pBags pGenList →
  ibag d = Some iBags → igen d = Some iGenList → gensInBounds iBags iGenList →
  ∃ sfz', presetZone Math_pow Number_toString d gp pb sfz = Ok sfz'.
Proof.
  intros [table Htable] Hsamples HpBags HpGens Hp HiBags HiGens Hi.
  unfold presetZone. rewrite HpBags, HpGens.
  destruct (getGenerators_in_bounds _ _ pb Hp) as [pGens ->]. cbn [mbind res_bind].
  destruct (pGens !! OPER_INSTRUMENT) as [instId |]; [| by eexists].
  rewrite Htable. cbn [defined mbind res_bind].
  destruct (at_ table instId) as [instrument |]; [| by eexists].
  rewrite (iBagEnd_present d instId table iBags Htable HiBags). cbn [mbind res_bind].
  rewrite HiBags, HiGens.
  destruct (getGenerators_in_bounds _ _ (inst_bagIndex instrument) Hi) as [first ->].
  cbn [mbind res_bind]. apply forLoop_returns. intros j s.
  by apply (instZone_returns d _ _ _ j s iBags iGenList).
Qed.

End Appending.

(** ** Further properties of the converter *)

Section Converter.

Import SFZConverter.

Variable Math_pow : float → float → float.
Variable Number_toString : float → jsstring.

(** X1. [sanitize] changes nothing in a name it has produced, and the names
    it leaves as they are are exactly those made of letters, digits, [_] and
    [-]. *)
Theorem sanitize_idempotent (name : jsstring) :
  sanitize (sanitize name) = sanitize name
  ∧ (sanitize name = name ↔ Forall (fun c => allowed c = true) name).
Proof.
  assert (Hclean : ∀ s : jsstring, Forall (fun c => allowed c = true) s → sanitize s = s).
  { intros s Hs. rewrite sanitize_replaces.
    induction Hs as [| c s Hc _ IH]; [done |]. simpl. by rewrite Hc, IH. }
  split; [| split].
  - apply Hclean. rewrite sanitize_replaces. apply replaced_allowed.
  - intros H. rewrite <- H, sanitize_replaces. apply replaced_allowed.
  - apply Hclean.
Qed.

(** X2. A region ends with three loop lines, before the blank line that
    closes it, exactly when the sample-modes generator is present and odd
    (bit 0 set: the modes 1 and 3), and then with the loop points counted
    from the start of the sample; a region without that generator, or with
    an even one, has no loop line. The rest of the region is the same
    either way. *)
Theorem loop_lines_iff_odd (combined : gmap Z Z) (sample : SF2Sample) :
  let sampleModes := default 0 (combined !! OPER_SAMPLE_MODES) in
  let loopText : jsstring :=
    if Z.odd sampleModes then
      lit "loop_mode=loop_continuous" ++ nl
      ++ lit "loop_start=" ++ showZ (startLoop sample - start sample) ++ nl
      ++ lit "loop_end=" ++ showZ (endLoop sample - start sample) ++ nl
    else [] in
  region Math_pow Number_toString combined sample
  = lit "<region>" ++ nl ++ sampleLine sample
    ++ keyLine (combined !! OPER_KEY_RANGE)
    ++ velLine (combined !! OPER_VEL_RANGE)
    ++ soundLines Math_pow Number_toString combined sample
    ++ loopText ++ nl
  ∧ loopLines combined sample = loopText
  ∧ (combined !! OPER_SAMPLE_MODES = None → loopText = []).
Proof.
  intros sampleModes loopText.
  assert (Hland : Z.land sampleModes 3 = sampleModes mod 4).
  { change 3 with (Z.ones 2). by rewrite Z.land_ones. }
  assert (Hloop : loopLines combined sample = loopText).
  { unfold loopLines, loopText. fold sampleModes. cbv zeta. rewrite Hland.
    destruct (Z.odd sampleModes) eqn:H.
    - apply Z.odd_spec in H as [k Hk].
      assert (Hcases : sampleModes mod 4 = 1 ∨ sampleModes mod 4 = 3)
        by (Z.div_mod_to_equations; lia).
      destruct Hcases as [-> | ->]; by rewrite <- ?app_assoc.
    - rewrite <- Z.negb_even in H. apply negb_false_iff, Z.even_spec in H as [k Hk].
      assert (Hcases : sampleModes mod 4 = 0 ∨ sampleModes mod 4 = 2)
        by (Z.div_mod_to_equations; lia).
      by destruct Hcases as [-> | ->]. }
  split_and!.
  - unfold region, soundLines. rewrite Hloop. rewrite <- !app_assoc. reflexivity.
  - exact Hloop.
  - intros Hnone. unfold loopText, sampleModes. by rewrite Hnone.
Qed.

(** X3. For every pan of the SoundFont range, -500 to 500 tenths of a
    percent, the binary64 division by 10 and [toFixed(2)] write the exact
    decimal value: the sign, the whole percents, a point, the tenth and a
    zero. No pan of the range is written rounded. *)
Theorem pan_written_exactly (pan : Z) :
  -500 <= pan <= 500 →
  panText Number_toString pan = panDigits pan
  ∧ panLine Number_toString (Some pan) = lit "pan=" ++ panDigits pan ++ nl.
Proof.
  intros Hpan.
  assert (Hall : Forall (fun p => panText Number_toString p = panDigits p)
                        (seqZ (-500) 1001))
    by (refine (bool_decide_unpack _ _); vm_compute; exact I).
  assert (Hthis : panText Number_toString pan = panDigits pan).
  { rewrite Forall_forall in Hall. apply Hall, elem_of_seqZ. lia. }
  split; [exact Hthis |]. unfold panLine. by rewrite Hthis.
Qed.

(** X4. A range generator's amount is read as a signed 16-bit number, and the
    bounds the converter takes from it are the low seven bits of each of its
    two bytes, whatever the sign of the amount: a bound of 128 or more in
    the file loses its top bit. *)
Theorem range_bounds_from_bytes (buffer : list Byte.byte) (off amount : Z) :
  SF2Parser.getInt16 buffer off = Ok amount →
  ∃ lo hi,
    SF2Parser.getUint8 buffer off = Ok lo
    ∧ SF2Parser.getUint8 buffer (off + 1) = Ok hi
    ∧ rangeLo amount = lo mod 128
    ∧ rangeHi amount = hi mod 128.
Proof.
  unfold SF2Parser.getInt16, SF2Parser.getUint16.
  destruct (SF2Parser.getUint8 buffer off) as [lo |] eqn:Hlo; cbn [mbind res_bind]; [| done].
  destruct (SF2Parser.getUint8 buffer (off + 1)) as [hi |] eqn:Hhi;
    cbn [mbind res_bind]; [| done].
  intros [= <-]. exists lo, hi. split_and!; try done.
  - unfold rangeLo. change 127 with (Z.ones 7). rewrite Z.land_ones by lia.
    destruct (Z.ltb_spec (lo + 256 * hi) 32768); Z.div_mod_to_equations; lia.
  - unfold rangeHi. change 127 with (Z.ones 7).
    rewrite Z.land_ones by lia. rewrite Z.shiftr_div_pow2 by lia.
    change (2 ^ 8) with 256. change (2 ^ 7) with 128.
    pose proof (getUint8_range buffer _ _ Hlo).
    pose proof (getUint8_range buffer _ _ Hhi).
    destruct (Z.ltb_spec (lo + 256 * hi) 32768); Z.div_mod_to_equations; lia.
Qed.

(** X5. The header of every buffer [createWavBuffer] returns (for a rate
    whose double fits 32 bits): the tags [RIFF], [WAVE], [fmt ] and [data]; a
    format chunk of 16 bytes for PCM (1), one channel, the sample's rate, a
    byte rate of twice the rate, a block of 2 bytes and 16 bits a sample; and
    two size fields that agree with the buffer, 8 and 44 less than its
    length. *)
Theorem wav_header_fields (sample : SF2Sample) (d : list Z) :
  data sample = Some d →
  0 <= sampleRate sample * 2 < 2 ^ 32 →
  36 + 2 * Z.of_nat (length d) < 2 ^ 32 →
  ∃ buf, createWavBuffer sample = Ok buf
    ∧ take 4 buf = [0x52; 0x49; 0x46; 0x46]
    ∧ take 8 (drop 8 buf) = [0x57; 0x41; 0x56; 0x45; 0x66; 0x6d; 0x74; 0x20]
    ∧ u32le buf 16 = 16
    ∧ u16le buf 20 = 1
    ∧ u16le buf 22 = 1
    ∧ u32le buf 24 = sampleRate sample
    ∧ u32le buf 28 = sampleRate sample * 2
    ∧ u16le buf 32 = 2
    ∧ u16le buf 34 = 16
    ∧ take 4 (drop 36 buf) = [0x64; 0x61; 0x74; 0x61]
    ∧ u32le buf 4 = Z.of_nat (length buf) - 8
    ∧ u32le buf 40 = Z.of_nat (length buf) - 44.
Proof.
  intros Hd Hrate Hsize. eexists. split; [by apply createWavBuffer_bytes |].
  assert (Hlen : Z.of_nat (length (wavHeader (sampleRate sample) (length d)
                                   ++ flat_map frameBytes d))
                 = 44 + 2 * Z.of_nat (length d)).
  { rewrite length_app, wavHeader_length, frames_length. lia. }
  rewrite Hlen. change (2 ^ 32) with 4294967296 in *.
  split_and!; try reflexivity;
    unfold u32le, u16le, byteAt;
    cbn [wavHeader app map lookup list_lookup Nat.add default id];
    rewrite byteOf_u32; lia.
Qed.

(** X6. The frames come back: the bytes [createWavBuffer] writes after the
    header, read as the decoder reads sample data ([new Int16Array] over the
    bytes), are the frames of the sample. *)
Theorem wav_frames_round_trip (sample : SF2Sample) (d : list Z) :
  data sample = Some d →
  Forall int16 d →
  ∃ buf, createWavBuffer sample = Ok buf
    ∧ Forall (fun b => 0 <= b < 256) buf
    ∧ SF2Parser.Int16Array (byteOfZ <$> drop 44 buf) = Ok d.
Proof.
  intros Hd Hint. eexists. split; [by apply createWavBuffer_bytes |].
  split.
  - apply Forall_app. split.
    + unfold wavHeader. repeat (apply Forall_app; split);
        repeat (apply Forall_cons; split); try apply Forall_nil;
        try apply byteOf_range; lia.
    + clear Hd Hint. induction d as [| v d IH]; [apply List.Forall_nil |].
      cbn [flat_map frameBytes app].
      apply List.Forall_cons; [apply byteOf_range |].
      apply List.Forall_cons; [apply byteOf_range | exact IH].
  - rewrite drop_app_length' by reflexivity.
    clear Hd. induction Hint as [| v d Hv _ IH]; [done |].
    cbn [flat_map frameBytes app fmap list_fmap SF2Parser.Int16Array].
    rewrite IH. cbn [mbind res_bind].
    rewrite !byteOfZ_value by apply byteOf_range.
    do 2 f_equal. by apply byteOf_i16.
Qed.

(** X7. With both tables there, [getGenerators] answers the empty map for a
    bag index outside the bag table. For a bag of the table it returns
    exactly when every index from the bag's [generatorStart] up to the end
    of its range lies inside the generator table, and throws a [TypeError]
    otherwise: an empty range never throws, wherever it starts. With the bag
    table [undefined] it answers the empty map for a negative index and
    throws for any other. Whatever the tables, it throws nothing but a
    [TypeError]. *)
Theorem getGenerators_returns_iff (bags : list SF2Bag) (genList : list SF2Generator)
    (bagIdx : Z) :
  genEnd bags (Some genList) bagIdx = Ok (rangeEnd bags genList bagIdx)
  ∧ (at_ bags bagIdx = None → getGenerators (Some bags) (Some genList) bagIdx = Ok ∅)
  ∧ (∀ bag, at_ bags bagIdx = Some bag →
       returns (getGenerators (Some bags) (Some genList) bagIdx) = true
       ↔ ∀ j, generatorStart bag <= j < rangeEnd bags genList bagIdx →
              0 <= j < Z.of_nat (length genList))
  ∧ (∀ table,
       getGenerators None table bagIdx = if bagIdx <? 0 then Ok ∅ else Throw TypeError)
  ∧ (∀ tableOfBags table e,
       getGenerators tableOfBags table bagIdx = Throw e → e = TypeError).
Proof.
  assert (Hguard : ∀ bag, at_ bags bagIdx = Some bag →
            (bagIdx <? 0) || (Z.of_nat (length bags) <=? bagIdx) = false).
  { intros bag Hbag. assert (Hsome : is_Some (at_ bags bagIdx)) by (by eexists).
    apply at_is_Some in Hsome. apply orb_false_iff. split; [apply Z.ltb_ge | apply Z.leb_gt]; lia. }
  split_and!.
  - apply genEnd_present.
  - intros Hnone. rewrite getGenerators_present, Hnone. by destruct (_ || _).
  - intros bag Hbag. rewrite getGenerators_present, (Hguard bag Hbag), Hbag.
    unfold forRange. split.
    + intros Hret j Hj.
      destruct (forLoop _ _ _ _) as [gens | e] eqn:Hloop; [| done].
      apply (addGenerators_reads genList _ _ _ _ Hloop). lia.
    + intros Hin.
      destruct (addGenerators_returns genList
                  (Z.to_nat (rangeEnd bags genList bagIdx - generatorStart bag))
                  (generatorStart bag) ∅) as [gens ->]; [| done].
      intros j Hj. apply Hin. lia.
  - intros table. unfold getGenerators. by destruct (bagIdx <? 0).
  - intros tableOfBags table e. apply getGenerators_TypeError.
Qed.

(** X8. The map [getGenerators] returns for a bag holds, for each operator,
    the amount of the last generator of the bag's range that has this
    operator, and holds nothing for an operator that no generator of the
    range has: a later generator overwrites an earlier one. The range ends
    where [getGenerators] computes its [end]. *)
Theorem getGenerators_last_wins (bags : list SF2Bag) (genList : list SF2Generator)
    (bagIdx : Z) (bag : SF2Bag) (gens : gmap Z Z) :
  at_ bags bagIdx = Some bag →
  getGenerators (Some bags) (Some genList) bagIdx = Ok gens →
  genEnd bags (Some genList) bagIdx = Ok (rangeEnd bags genList bagIdx)
  ∧ ∀ k v, gens !! k = Some v
           ↔ ∃ j gen, generatorStart bag <= j < rangeEnd bags genList bagIdx
               ∧ at_ genList j = Some gen ∧ operator gen = k ∧ amount gen = v
               ∧ ∀ j' gen', j < j' < rangeEnd bags genList bagIdx →
                            at_ genList j' = Some gen' → operator gen' ≠ k.
Proof.
  intros Hbag Hgens. split; [apply genEnd_present |]. revert Hgens.
  rewrite getGenerators_present.
  assert (Hsome : is_Some (at_ bags bagIdx)) by (by eexists).
  apply at_is_Some in Hsome.
  replace ((bagIdx <? 0) || (Z.of_nat (length bags) <=? bagIdx)) with false
    by (symmetry; apply orb_false_iff; split; [apply Z.ltb_ge | apply Z.leb_gt]; lia).
  rewrite Hbag. unfold forRange. intros Hloop k v.
  rewrite (addGenerators_lookup genList _ _ _ _ Hloop k v).
  unfold storedLast, notStored. rewrite lookup_empty. split.
  - intros [(j & gen & Hj & Hgen & Hk & Hv & Hlast) | [_ ?]]; [| done].
    exists j, gen. split_and!; [lia | lia | done | done | done |].
    intros j' gen' Hj'. apply Hlast. lia.
  - intros (j & gen & Hj & Hgen & Hk & Hv & Hlast). left.
    exists j, gen. split_and!; [lia | lia | done | done | done |].
    intros j' gen' Hj'. apply Hlast. lia.
Qed.

(** X9. With the seven tables there, zone indices of 16 bits, as the
    decoder reads them, and bag tables whose [generatorStart]s all lie
    inside their generator tables, as a decoded file with its terminal
    records has them, [getSFZContent] throws nothing, for any such preset
    and any position: it returns the header followed by the regions.
    Instrument and sample references may lead anywhere. *)
Theorem getSFZContent_returns (preset : SF2Preset) (pos : Z) (d : ParsedData)
    (outputBase : jsstring) (pBags iBags : list SF2Bag)
    (pGenList iGenList : list SF2Generator) :
  is_Some (presets d) → is_Some (instruments d) → is_Some (samples d) →
  pbag d = Some pBags → pgen d = Some pGenList → gensInBounds pBags pGenList →
  ibag d = Some iBags → igen d = Some iGenList → gensInBounds iBags iGenList →
  uint16 (bagIndex preset) → zoneIndices16 d →
  ∃ regions,
    getSFZContent Math_pow Number_toString preset pos d outputBase
    = Ok (header preset outputBase ++ regions).
Proof.
  intros [table Htable] Hinst Hsamples HpBags HpGens Hp HiBags HiGens Hi _ _.
  unfold getSFZContent.
  rewrite (pBagEnd_present d pos table pBags Htable HpBags). cbn [mbind res_bind].
  set (bagEnd := orElse _ _). rewrite HpBags, HpGens.
  destruct (getGenerators_in_bounds _ _ (bagIndex preset) Hp) as [first ->].
  cbn [mbind res_bind]. unfold forRange.
  set (gp := globalGens OPER_INSTRUMENT first (bagIndex preset) bagEnd).
  rewrite (forLoop_appends (presetZone Math_pow Number_toString d gp) _
             (presetZone_from_empty Math_pow Number_toString d gp)).
  destruct (forLoop_returns (presetZone Math_pow Number_toString d gp)
              (Z.to_nat (bagEnd - bagIndex preset))
              (fun j s => presetZone_returns Math_pow Number_toString d gp j s
                            pBags iBags pGenList iGenList
                            Hinst Hsamples HpBags HpGens Hp HiBags HiGens Hi)
              (bagIndex preset) []) as [regions ->].
  by exists regions.
Qed.

(** X10. The preset's name and [outputBase] reach the document through its
    header alone. What follows the header, and whether [getSFZContent]
    throws, depend on the preset only through its [bagIndex] and its
    position in the table. *)
Theorem names_only_in_header (d : ParsedData) (pos : Z) :
  ∃ regions : Z → res jsstring,
    ∀ preset outputBase,
      getSFZContent Math_pow Number_toString preset pos d outputBase
      = appendTo (header preset outputBase) (regions (bagIndex preset)).
Proof.
  exists (fun pBagStart =>
            bagEnd ← pBagEnd d pos;
            first ← getGenerators (pbag d) (pgen d) pBagStart;
            forRange pBagStart bagEnd
              (presetZone Math_pow Number_toString d
                 (globalGens OPER_INSTRUMENT first pBagStart bagEnd)) []).
  intros preset outputBase. unfold getSFZContent.
  destruct (pBagEnd d pos) as [bagEnd |]; cbn [mbind res_bind]; [| done].
  destruct (getGenerators (pbag d) (pgen d) (bagIndex preset)) as [first |];
    cbn [mbind res_bind]; [| done].
  unfold forRange. apply forLoop_appends. intros j s. apply presetZone_from_empty.
Qed.

(** X19. With the instrument table there, a preset zone whose instrument
    generator names an index outside it leaves the text as it is, and throws
    nothing; so does, with the sample table there, an instrument zone whose
    sampleID generator names an index outside it or the sentinel [EOS].
    Whatever [getSFZContent] returns starts with the two comment lines and
    the [<control>] block with its [default_path]; when every zone of the
    preset is skipped, in tables whose zone indices are of 16 bits, it
    returns exactly those lines, with no region. A zone that names an
    instrument or a sample while the table is [undefined] throws a
    [TypeError] instead. *)
Theorem dangling_references_skipped (d : ParsedData) (preset : SF2Preset) (pos : Z)
    (outputBase : jsstring) :
  let head :=
    lit "// " ++ trim (name preset) ++ nl
    ++ lit "// Converted from SF2 to SFZ by SF2 to SFZ Studio" ++ nl ++ nl
    ++ lit "<control>" ++ nl
    ++ lit "default_path=" ++ outputBase ++ lit " " ++ trim (name preset)
    ++ lit " Samples" ++ nl ++ nl in
  (∀ globalPresetGens pb sfz pGens instId table,
     getGenerators (pbag d) (pgen d) pb = Ok pGens →
     pGens !! OPER_INSTRUMENT = Some instId →
     instruments d = Some table →
     at_ table instId = None →
     presetZone Math_pow Number_toString d globalPresetGens pb sfz = Ok sfz)
  ∧ (∀ globalPresetGens pGens globalInstGens ib sfz iGens sampleId table,
     getGenerators (ibag d) (igen d) ib = Ok iGens →
     iGens !! OPER_SAMPLE_ID = Some sampleId →
     samples d = Some table →
     sampleMissing table sampleId →
     instZone Math_pow Number_toString d globalPresetGens pGens globalInstGens ib sfz
     = Ok sfz)
  ∧ (∀ text,
     getSFZContent Math_pow Number_toString preset pos d outputBase = Ok text →
     ∃ regions, text = head ++ regions)
  ∧ (∀ first bagEnd,
     uint16 (bagIndex preset) → zoneIndices16 d →
     pBagEnd d pos = Ok bagEnd →
     getGenerators (pbag d) (pgen d) (bagIndex preset) = Ok first →
     (∀ pb, bagIndex preset <= pb < bagEnd → presetZoneSkipped d pb) →
     getSFZContent Math_pow Number_toString preset pos d outputBase = Ok head)
  ∧ (∀ globalPresetGens pb sfz pGens instId,
     getGenerators (pbag d) (pgen d) pb = Ok pGens →
     pGens !! OPER_INSTRUMENT = Some instId →
     instruments d = None →
     presetZone Math_pow Number_toString d globalPresetGens pb sfz = Throw TypeError)
  ∧ (∀ globalPresetGens pGens globalInstGens ib sfz iGens sampleId,
     getGenerators (ibag d) (igen d) ib = Ok iGens →
     iGens !! OPER_SAMPLE_ID = Some sampleId →
     samples d = None →
     instZone Math_pow Number_toString d globalPresetGens pGens globalInstGens ib sfz
     = Throw TypeError).
Proof.
  intros head. split_and!.
  - intros gp pb sfz pGens instId table HpGens Hid Htable Hnone.
    unfold presetZone. rewrite HpGens. cbn [mbind res_bind].
    rewrite Hid, Htable. cbn [defined mbind res_bind]. by rewrite Hnone.
  - intros gp pG gi ib sfz iGens sampleId table HiGens Hid Htable Hmissing.
    apply instZone_skipped. exists iGens. split; [done |].
    intros sampleId'. rewrite Hid. intros [= <-]. by exists table.
  - intros text. unfold getSFZContent.
    destruct (pBagEnd d pos) as [bagEnd |]; cbn [mbind res_bind]; [| done].
    destruct (getGenerators (pbag d) (pgen d) (bagIndex preset)) as [first |];
      cbn [mbind res_bind]; [| done].
    intros Hloop. apply (forLoop_preserves prefix) in Hloop.
    + destruct Hloop as [regions ->]. exists regions.
      reflexivity.
    + intros j a b. apply presetZone_appends.
  - intros first bagEnd _ _ Hend Hfirst Hskipped.
    rewrite (getSFZContent_walks Math_pow Number_toString d preset pos outputBase
               bagEnd first Hend Hfirst).
    rewrite forRange_skip; [reflexivity |].
    intros pb Hpb. by apply presetZone_skipped, Hskipped.
  - intros gp pb sfz pGens instId HpGens Hid Hnone.
    unfold presetZone. rewrite HpGens. cbn [mbind res_bind].
    by rewrite Hid, Hnone.
  - intros gp pG gi ib sfz iGens sampleId HiGens Hid Hnone.
    unfold instZone. rewrite HiGens. cbn [mbind res_bind].
    by rewrite Hid, Hnone.
Qed.

(** X11. The samples [convertAndDownload] encodes are those that pass its
    filter, and [createWavBuffer] returns for each of them: the filter keeps
    the order of the table, drops every sample named [EOS] and every sample
    without [data], and so leaves no sample for which the encoder throws. *)
Theorem valid_samples_are_encoded (samples : list SF2Sample) :
  App.validSamples samples `sublist_of` samples
  ∧ ∀ sample, sample ∈ App.validSamples samples →
      sample ∈ samples
      ∧ sample_name sample ≠ lit "EOS"
      ∧ ∃ d, data sample = Some d
          ∧ createWavBuffer sample
            = Ok (wavHeader (sampleRate sample) (length d) ++ flat_map frameBytes d).
Proof.
  split; [apply sublist_filter |].
  intros sample Hin. unfold App.validSamples in Hin.
  apply list_elem_of_filter in Hin as [[Hname [dd Hd]] Hin].
  split_and!; try done. exists dd. split; [done | by apply createWavBuffer_bytes].
Qed.

End Converter.

(** ** Further properties of the decoder *)

Section Decoder.

Import SF2Parser.

Variable buffer : list Byte.byte.

Lemma while_more_fuel {St : Type} (cond : St → bool) (body body' : St → option (res St)) :
  (∀ s r, body s = Some r → body' s = Some r) →
  ∀ (fuel fuel' : nat) (s : St) (r : res St),
    (fuel <= fuel')%nat →
    while fuel cond body s = Some r → while fuel' cond body' s = Some r.
Proof.
  intros Hbody. induction fuel as [| fuel IH]; intros fuel' s r Hle.
  - cbn [while]. destruct (cond s) eqn:Hc; [done |].
    intros H. destruct fuel'; cbn [while]; by rewrite Hc.
  - destruct fuel' as [| fuel']; [lia |]. cbn [while].
    destruct (cond s); [| done].
    destruct (body s) as [[s' | e] |] eqn:Hs; [| | done].
    + rewrite (Hbody _ _ Hs). apply IH. lia.
    + by rewrite (Hbody _ _ Hs).
Qed.

Lemma chunk_more_fuel (fuel fuel' : nat) (w : Walk) (r : res Walk) :
  (fuel <= fuel')%nat → chunk buffer fuel w = Some r → chunk buffer fuel' w = Some r.
Proof.
  intros Hle. unfold chunk.
  destruct (readString buffer 4 (w_offset w)) as [[id o1] |]; [| done].
  destruct (readUint32 buffer o1) as [[size o2] |]; [| done].
  case_decide; [| done].
  destruct (readString buffer 4 o2) as [[listType o3] |]; [| done].
  repeat case_decide; try done.
  - unfold parsePdta.
    destruct (while fuel _ _ _) as [r1 |] eqn:Hloop; [| done].
    by rewrite (while_more_fuel _ _ _ (fun s r H => H) fuel fuel' _ _ Hle Hloop).
  - destruct (while fuel _ _ _) as [r1 |] eqn:Hloop; [| done].
    by rewrite (while_more_fuel _ _ _ (fun s r H => H) fuel fuel' _ _ Hle Hloop).
Qed.

Lemma parseWith_more_fuel (fuel fuel' : nat) (r : res ParsedData) :
  (fuel <= fuel')%nat → parseWith buffer fuel = Some r → parseWith buffer fuel' = Some r.
Proof.
  intros Hle. unfold parseWith.
  destruct (readString buffer 4 0) as [[riff o1] |]; [| done].
  case_decide; [| done].
  destruct (readUint32 buffer o1) as [[size o2] |]; [| done].
  destruct (readString buffer 4 o2) as [[fb o3] |]; [| done].
  case_decide; [| done].
  unfold walkAndAttach.
  destruct (while fuel _ _ _) as [r1 |] eqn:Hloop; [| done].
  by rewrite (while_more_fuel _ _ _
                (fun s r H => chunk_more_fuel fuel fuel' s r Hle H) fuel fuel' _ _ Hle Hloop).
Qed.

(** X12. [parse] always comes to an end: the chunk walk and the two loops
    inside it finish within one turn for each byte of the buffer, whatever
    sizes the chunks declare, and turns beyond that change nothing. *)
Theorem parse_terminates (extra : nat) :
  parse buffer ≠ None
  ∧ parseWith buffer (S (length buffer) + extra) = parse buffer.
Proof.
  pose proof (parse_ends buffer) as Hends. split; [exact Hends |].
  destruct (parse buffer) as [r |] eqn:Hparse; [| done].
  apply (parseWith_more_fuel (S (length buffer))); [lia | exact Hparse].
Qed.

(** The characters [readChars] returns are the bytes at the cursor, one for
    one. *)
Lemma readChars_bytes (n : nat) : ∀ (off : Z) (chars : jsstring),
  readChars buffer n off = Ok chars →
  ∀ (k : nat) (c : N), chars !! k = Some c →
    ∃ b, at_ buffer (off + Z.of_nat k) = Some b ∧ Byte.to_N b = c.
Proof.
  induction n as [| n IH]; intros off chars; cbn [readChars].
  - by intros [= <-] k c.
  - unfold getUint8 at 1. destruct (at_ buffer off) as [b |] eqn:Hb;
      cbn [mbind res_bind]; [| done].
    destruct (Z.of_N (Byte.to_N b) =? 0); [by intros [= <-] k c |].
    destruct (readChars buffer n (off + 1)) as [rest |] eqn:Hrest;
      cbn [mbind res_bind]; [| done].
    intros [= <-] [| k] c Hc.
    + injection Hc as <-. exists b. rewrite Z.add_0_r. split; [done | lia].
    + destruct (IH _ _ Hrest k c Hc) as (b' & Hb' & <-). exists b'.
      split; [| done]. rewrite <- Hb'. f_equal. lia.
Qed.

Lemma readString_tag (off off' : Z) (b0 b1 b2 b3 : Byte.byte) :
  readString buffer 4 off
  = Ok ([Byte.to_N b0; Byte.to_N b1; Byte.to_N b2; Byte.to_N b3], off') →
  0 <= off →
  take 4 (drop (Z.to_nat off) buffer) = [b0; b1; b2; b3].
Proof.
  unfold readString.
  destruct (readChars buffer 4 off) as [chars |] eqn:Hchars; cbn [mbind res_bind]; [| done].
  intros [= Htrim _] Hoff.
  destruct (readChars_shape _ _ _ _ Hchars) as [Hlen _].
  pose proof (trim_length chars) as Htl.
  assert (Hfull : trim chars = chars).
  { apply trim_full_length. rewrite Htrim in *. simpl in *. lia. }
  rewrite Hfull in Htrim. subst chars.
  assert (Hat : ∀ (k : nat) (b : Byte.byte),
            [b0; b1; b2; b3] !! k = Some b → drop (Z.to_nat off) buffer !! k = Some b).
  { intros k b Hk.
    destruct (readChars_bytes _ _ _ Hchars k (Byte.to_N b)) as (b' & Hb' & Hto).
    - destruct k as [| [| [| [| k]]]]; cbn [lookup list_lookup] in *;
        first [by injection Hk as <- | done].
    - unfold at_ in Hb'. rewrite (proj2 (Z.leb_le 0 _)) in Hb' by lia.
      rewrite lookup_drop. replace (Z.to_nat off + k)%nat with (Z.to_nat (off + Z.of_nat k)) by lia.
      rewrite Hb'. f_equal.
      pose proof (Byte.of_to_N b') as H1. pose proof (Byte.of_to_N b) as H2.
      rewrite Hto in H1. congruence. }
  pose proof (Hat 0%nat b0 eq_refl) as H0. pose proof (Hat 1%nat b1 eq_refl) as H1.
  pose proof (Hat 2%nat b2 eq_refl) as H2. pose proof (Hat 3%nat b3 eq_refl) as H3.
  destruct (drop (Z.to_nat off) buffer) as [| x0 [| x1 [| x2 [| x3 rest]]]];
    cbn [lookup list_lookup] in H0, H1, H2, H3; try discriminate.
  injection H0 as ->. injection H1 as ->. injection H2 as ->. injection H3 as ->.
  reflexivity.
Qed.

(** X13. [parse] returns tables only for a buffer that starts with the four
    bytes [RIFF] and has the bytes [sfbk] at offset 8; no trimming of the
    tags lets another buffer through. (It may throw for such a buffer too.) *)
Theorem parse_accepts_only_soundfonts (tables : ParsedData) :
  parse buffer = Some (Ok tables) →
  take 4 buffer = tag "RIFF" ∧ take 4 (drop 8 buffer) = tag "sfbk".
Proof.
  unfold parse, parseWith.
  destruct (readString buffer 4 0) as [[riff o1] |] eqn:Hriff; [| done].
  pose proof Hriff as Hriff'. apply readString_inv in Hriff' as [_ ->].
  case_decide as Hr; [subst riff | done].
  destruct (readUint32 buffer (0 + 4)) as [[size o2] |] eqn:Hsize; [| done].
  apply readUint32_inv in Hsize as (_ & _ & -> & _).
  destruct (readString buffer 4 (0 + 4 + 4)) as [[fb o3] |] eqn:Hfb; [| done].
  pose proof Hfb as Hfb'. apply readString_inv in Hfb' as [_ ->].
  case_decide as Hf; [subst fb | done].
  intros _. split.
  - apply (readString_tag 0 (0 + 4) Byte.x52 Byte.x49 Byte.x46 Byte.x46 Hriff). lia.
  - apply (readString_tag (0 + 4 + 4) (0 + 4 + 4 + 4) Byte.x73 Byte.x66 Byte.x62 Byte.x6b Hfb).
    lia.
Qed.

(** X14. [readString(length)] moves the cursor by [length] wherever the name
    ends, and returns at most [length] characters, each the value of a byte
    from 1 to 255 (none is NUL), with no white space at either end: trimming
    a name it has returned changes nothing. *)
Theorem readString_returns_trimmed (n : nat) (off off' : Z) (str : jsstring) :
  readString buffer n off = Ok (str, off') →
  off' = off + Z.of_nat n
  ∧ (length str <= n)%nat
  ∧ Forall (fun c => 0 < c < 256)%N str
  ∧ trim str = str.
Proof. apply readString_shape. Qed.

(** The fields of a record, one reader after the other. *)
Ltac fields H :=
  repeat (let a := fresh "a" in
          let o := fresh "o" in
          let Ha := fresh "Ha" in
          apply M_bind_inv in H as (a & o & Ha & H));
  unfold mret, M_ret in H; injection H as <- _;
  repeat match goal with
         | Ha : readString _ _ _ = Ok _ |- _ =>
             apply readString_shape in Ha as (_ & ? & ? & ?)
         | Ha : readUint16 _ _ = Ok _ |- _ => apply readUint16_range in Ha
         | Ha : readUint32 _ _ = Ok _ |- _ => apply readUint32_range in Ha
         | Ha : readInt16 _ _ = Ok _ |- _ => apply readInt16_range in Ha
         | Ha : readUint8 _ _ = Ok _ |- _ => apply readUint8_range in Ha
         | Ha : readInt8 _ _ = Ok _ |- _ => apply readInt8_range in Ha
         end.

(** X15. Whatever the bytes, the records the readers return have fields
    within the integer types of the file layout: unsigned 16-bit indices,
    operators and numbers, signed 16-bit generator amounts, unsigned 32-bit
    frame offsets and rates, an original pitch from 0 to 255 and a pitch
    correction from -128 to 127; names are trimmed and at most 20 characters
    long; and a sample header comes without [data]. *)
Theorem decoded_fields_in_range (size off : Z) :
  (∀ items off', readPhdr buffer size off = Ok (items, off') →
     Forall (fun p => trim (name p) = name p ∧ (length (name p) <= 20)%nat
                      ∧ uint16 (preset p) ∧ uint16 (bank p) ∧ uint16 (bagIndex p)
                      ∧ uint32 (library p) ∧ uint32 (genre p) ∧ uint32 (morphology p))
            items)
  ∧ (∀ items off', readBag buffer size off = Ok (items, off') →
     Forall (fun b => uint16 (generatorStart b) ∧ uint16 (modulatorStart b)) items)
  ∧ (∀ items off', readGen buffer size off = Ok (items, off') →
     Forall (fun g => uint16 (operator g) ∧ int16 (amount g)) items)
  ∧ (∀ items off', readInst buffer size off = Ok (items, off') →
     Forall (fun i => trim (inst_name i) = inst_name i ∧ (length (inst_name i) <= 20)%nat
                      ∧ uint16 (inst_bagIndex i))
            items)
  ∧ (∀ items off', readShdr buffer size off = Ok (items, off') →
     Forall (fun s => trim (sample_name s) = sample_name s
                      ∧ (length (sample_name s) <= 20)%nat
                      ∧ uint32 (start s) ∧ uint32 (end_ s)
                      ∧ uint32 (startLoop s) ∧ uint32 (endLoop s)
                      ∧ uint32 (sampleRate s)
                      ∧ uint8 (originalPitch s) ∧ int8 (pitchCorrection s)
                      ∧ uint16 (sampleLink s) ∧ uint16 (sampleType s)
                      ∧ data s = None)
            items).
Proof.
  split_and!; intros items off'; apply readItems_Forall; clear; intros off x off' H.
  - unfold phdrItem in H. fields H. by split_and!.
  - unfold bagItem in H. fields H. by split_and!.
  - unfold genItem in H. fields H. by split_and!.
  - unfold instItem in H. fields H. by split_and!.
  - unfold shdrItem in H. fields H. by split_and!.
Qed.

(** [new Int16Array] over [2 n] bytes gives [n] frames, frame [k] made of
    the bytes [2 k] and [2 k + 1]; over an odd number of bytes it throws. *)
Lemma Int16Array_even (n : nat) : ∀ bytes : list Byte.byte,
  length bytes = (2 * n)%nat →
  ∃ d, Int16Array bytes = Ok d ∧ length d = n
    ∧ ∀ k, (k < n)%nat →
        ∃ b0 b1, bytes !! (2 * k)%nat = Some b0 ∧ bytes !! (2 * k + 1)%nat = Some b1
          ∧ d !! k = Some (let v := Z.of_N (Byte.to_N b0) + 256 * Z.of_N (Byte.to_N b1) in
                           if v <? 32768 then v else v - 65536).
Proof.
  induction n as [| n IH]; intros bytes Hlen.
  - destruct bytes; [| done]. exists []. split_and!; [done | done |]. intros k Hk. lia.
  - destruct bytes as [| b0 [| b1 rest]]; [done | simpl in Hlen; lia |].
    destruct (IH rest) as (d & Hd & Hdlen & Hframes); [simpl in Hlen; lia |].
    cbn [Int16Array]. rewrite Hd. cbn [mbind res_bind].
    eexists. split_and!; [reflexivity | simpl; lia |].
    intros [| k] Hk.
    + exists b0, b1. by split_and!.
    + destruct (Hframes k) as (c0 & c1 & H0 & H1 & Hk'); [lia |].
      exists c0, c1. replace (2 * S k)%nat with (S (S (2 * k))) by lia.
      by split_and!.
Qed.

Lemma Int16Array_odd (n : nat) : ∀ bytes : list Byte.byte,
  length bytes = (2 * n + 1)%nat → Int16Array bytes = Throw RangeError.
Proof.
  induction n as [| n IH]; intros bytes Hlen.
  - by destruct bytes as [| b [| b' rest]].
  - destruct bytes as [| b0 [| b1 rest]]; [done | simpl in Hlen; lia |].
    cbn [Int16Array]. rewrite IH; [done | simpl in Hlen; lia].
Qed.

Lemma Int16Array_int16 (bytes : list Byte.byte) : ∀ d,
  Int16Array bytes = Ok d → Forall int16 d.
Proof.
  assert (H : ∀ n (bs : list Byte.byte), (length bs <= n)%nat →
                ∀ d, Int16Array bs = Ok d → Forall int16 d).
  { induction n as [| n IH]; intros bs Hlen d.
    - destruct bs; [| simpl in Hlen; lia]. intros [= <-]. apply List.Forall_nil.
    - destruct bs as [| b0 [| b1 rest]]; [intros [= <-]; apply List.Forall_nil | done |].
      cbn [Int16Array].
      destruct (Int16Array rest) as [frames |] eqn:Hrest; cbn [mbind res_bind]; [| done].
      intros [= <-]. apply List.Forall_cons.
      + unfold int16. pose proof (Byte.to_N_bounded b0). pose proof (Byte.to_N_bounded b1).
        destruct (Z.ltb_spec (Z.of_N (Byte.to_N b0) + 256 * Z.of_N (Byte.to_N b1)) 32768); lia.
      + apply (IH rest); [simpl in Hlen; lia | done]. }
  by apply (H (length bytes)).
Qed.

Lemma attachData_data (sdtaOffset : Z) (s s' : SF2Sample) :
  attachData buffer sdtaOffset s = Ok s' →
  ∃ d, s' = withData s d ∧ Forall int16 d
       ∧ Int16Array (slice buffer (sdtaOffset + start s * 2) (sdtaOffset + end_ s * 2)) = Ok d.
Proof.
  unfold attachData.
  destruct (Int16Array _) as [d |] eqn:Hd; cbn [mbind res_bind]; [| done].
  intros [= <-]. exists d. split_and!; [done | by eapply Int16Array_int16 | done].
Qed.

Lemma mapThrowing_Forall {A B : Type} (f : A → res B) (P : B → Prop) (l : list A) :
  (∀ x y, f x = Ok y → P y) → ∀ ys, mapThrowing f l = Ok ys → Forall P ys.
Proof.
  intros Hf. induction l as [| x l IH]; intros ys; cbn [mapThrowing].
  - intros [= <-]. apply List.Forall_nil.
  - destruct (f x) as [y |] eqn:Hy; cbn [mbind res_bind]; [| done].
    destruct (mapThrowing f l) as [ys' |]; cbn [mbind res_bind]; [| done].
    intros [= <-]. apply List.Forall_cons; [by eapply Hf | by apply IH].
Qed.

(** A header whose frames [start .. end] lie inside the buffer, counted from
    [sdtaOffset], gets [end - start] frames, and frame [k] is the
    little-endian signed 16-bit number at byte [sdtaOffset + 2 (start + k)]. *)
Lemma attachData_inside (sdtaOffset : Z) (s : SF2Sample) :
  0 <= sdtaOffset →
  0 <= start s <= end_ s →
  sdtaOffset + 2 * end_ s <= byteLength buffer →
  ∃ d, attachData buffer sdtaOffset s = Ok (withData s d)
    ∧ Z.of_nat (length d) = end_ s - start s
    ∧ ∀ k : nat, Z.of_nat k < end_ s - start s →
        ∃ v, getInt16 buffer (sdtaOffset + 2 * (start s + Z.of_nat k)) = Ok v
             ∧ d !! k = Some v.
Proof.
  intros Hoff Hrange Hfits. unfold attachData, slice, byteLength in *.
  rewrite !(proj2 (Z.ltb_ge _ 0)) by lia. rewrite !Z.min_l by lia.
  set (first := sdtaOffset + start s * 2). set (final := sdtaOffset + end_ s * 2).
  destruct (Int16Array_even (Z.to_nat (end_ s - start s))
              (take (Z.to_nat (final - first)) (drop (Z.to_nat first) buffer)))
    as (d & Hd & Hlen & Hframes).
  { rewrite length_take, length_drop. unfold first, final. lia. }
  rewrite Hd. cbn [mbind res_bind]. exists d. split_and!; [done | lia |].
  intros k Hk. destruct (Hframes k) as (b0 & b1 & H0 & H1 & Hv); [lia |].
  rewrite lookup_take_lt in H0, H1 by (unfold first, final; lia).
  rewrite lookup_drop in H0, H1.
  eexists. split; [| exact Hv].
  unfold getInt16, getUint16, getUint8, at_.
  rewrite !(proj2 (Z.leb_le 0 _)) by lia.
  replace (Z.to_nat (sdtaOffset + 2 * (start s + Z.of_nat k)))
    with (Z.to_nat first + 2 * k)%nat by (unfold first; lia).
  replace (Z.to_nat (sdtaOffset + 2 * (start s + Z.of_nat k) + 1))
    with (Z.to_nat first + (2 * k + 1))%nat by (unfold first; lia).
  rewrite H0, H1. reflexivity.
Qed.

(** A header that starts inside the buffer: when its end is not after its
    start it gets empty data; when its end lies past the end of the buffer,
    the slice is cut there, and the header gets the frames that are left if
    their bytes are even in number, while an odd number of bytes throws. *)
Lemma attachData_edge (sdtaOffset : Z) (s : SF2Sample) :
  0 <= sdtaOffset → 0 <= start s → 0 <= end_ s →
  sdtaOffset + start s * 2 <= byteLength buffer →
  let left := byteLength buffer - (sdtaOffset + start s * 2) in
  (end_ s <= start s → attachData buffer sdtaOffset s = Ok (withData s []))
  ∧ (byteLength buffer < sdtaOffset + end_ s * 2 → Z.even left = true →
     ∃ d, attachData buffer sdtaOffset s = Ok (withData s d)
          ∧ Z.of_nat (length d) = left / 2)
  ∧ (byteLength buffer < sdtaOffset + end_ s * 2 → Z.even left = false →
     attachData buffer sdtaOffset s = Throw RangeError).
Proof.
  intros Hoff Hstart Hend Hin left. unfold attachData, slice. fold (byteLength buffer).
  rewrite !(proj2 (Z.ltb_ge _ 0)) by lia.
  rewrite (Z.min_l (sdtaOffset + start s * 2)) by lia.
  split_and!.
  - intros Hle.
    replace (Z.to_nat (Z.min (sdtaOffset + end_ s * 2) (byteLength buffer)
                       - (sdtaOffset + start s * 2))) with 0%nat by lia.
    done.
  - intros Hpast Heven. rewrite Z.min_r by lia. fold left.
    apply Z.even_spec in Heven as [half Hhalf].
    destruct (Int16Array_even (Z.to_nat half)
                (take (Z.to_nat left) (drop (Z.to_nat (sdtaOffset + start s * 2)) buffer)))
      as (d & Hd & Hlen & _).
    { rewrite length_take, length_drop. unfold left, byteLength in *. lia. }
    rewrite Hd. cbn [mbind res_bind]. exists d. split; [done |].
    rewrite Hlen, Hhalf. rewrite Z.mul_comm, Z.div_mul by lia. lia.
  - intros Hpast Hodd. rewrite Z.min_r by lia. fold left.
    rewrite <- Z.negb_odd in Hodd. apply negb_false_iff, Z.odd_spec in Hodd as [half Hhalf].
    rewrite (Int16Array_odd (Z.to_nat half)); [done |].
    rewrite length_take, length_drop. unfold left, byteLength in *. lia.
Qed.

(** X18. In the tables [parse] returns every sample has [data], the sentinel
    included, with frames of 16 bits: [createWavBuffer] returns for each of
    them, and the filter of [convertAndDownload] drops a sample for its name
    only. *)
Theorem parsed_samples_have_data (tables : ParsedData) :
  parse buffer = Some (Ok tables) →
  ∃ table, samples tables = Some table
    ∧ Forall (fun s => ∃ d, data s = Some d ∧ Forall int16 d
                            ∧ returns (SFZConverter.createWavBuffer s) = true)
             table
    ∧ App.validSamples table = filter (fun s => sample_name s ≠ lit "EOS") table.
Proof.
  intros Hparse.
  assert (Hdata : ∃ table, samples tables = Some table
            ∧ Forall (fun s => ∃ d, data s = Some d ∧ Forall int16 d) table).
  { revert Hparse. unfold parse, parseWith.
    destruct (readString buffer 4 0) as [[riff o1] |]; [| done].
    case_decide; [| done].
    destruct (readUint32 buffer o1) as [[size o2] |]; [| done].
    destruct (readString buffer 4 o2) as [[fb o3] |]; [| done].
    case_decide; [| done].
    unfold walkAndAttach.
    destruct (while _ _ _ _) as [[w | e] |]; [| done..].
    destruct (shdr (w_pdta w)) as [headers |]; [| done].
    destruct (mapThrowing _ headers) as [attached |] eqn:Hmap; cbn [mbind res_bind]; [| done].
    intros [= <-]. exists attached. split; [reflexivity |].
    eapply mapThrowing_Forall; [| exact Hmap].
    intros x y Hy. apply attachData_data in Hy as (d & -> & Hint & _).
    by exists d. }
  destruct Hdata as (table & Htable & Hdata). exists table. split_and!.
  - exact Htable.
  - eapply Forall_impl; [exact Hdata |].
    intros s (d & Hd & Hint). exists d. split_and!; [done | done |].
    by rewrite (createWavBuffer_bytes s d Hd).
  - unfold App.validSamples. clear Hparse Htable.
    induction Hdata as [| s l (d & Hd & _) _ IH]; [done |].
    rewrite !filter_cons, IH.
    destruct (decide (sample_name s ≠ lit "EOS")) as [Hne | Heq].
    + rewrite decide_True; [done |]. split; [done | by rewrite Hd].
    + rewrite decide_False; [done |]. by intros [? _].
Qed.

End Decoder.

(** ** Files with a sample pool *)

Section Pool.

Import SF2Parser.

Lemma at_drop {A : Type} (l : list A) (off i : Z) :
  0 <= off → 0 <= i → at_ l (off + i) = at_ (drop (Z.to_nat off) l) i.
Proof.
  intros Hoff Hi. unfold at_.
  rewrite !(proj2 (Z.leb_le 0 _)) by lia.
  rewrite lookup_drop. f_equal. lia.
Qed.

Lemma getUint8_drop (buffer : list Byte.byte) (off i : Z) :
  0 <= off → 0 <= i →
  getUint8 buffer (off + i) = getUint8 (drop (Z.to_nat off) buffer) i.
Proof. intros Hoff Hi. unfold getUint8. by rewrite at_drop. Qed.

Lemma readChars_drop (buffer : list Byte.byte) (off : Z) (n : nat) : ∀ i,
  0 <= off → 0 <= i →
  readChars buffer n (off + i) = readChars (drop (Z.to_nat off) buffer) n i.
Proof.
  induction n as [| n IH]; intros i Hoff Hi; [done |].
  cbn [readChars]. rewrite getUint8_drop by done.
  replace (off + i + 1) with (off + (i + 1)) by lia.
  by rewrite IH by lia.
Qed.

Lemma getUint8_prefix (t rest rest' : list Byte.byte) (i : Z) :
  0 <= i < Z.of_nat (length t) →
  getUint8 (t ++ rest) i = getUint8 (t ++ rest') i.
Proof.
  intros Hi. unfold getUint8, at_. destruct (0 <=? i); [| done].
  by rewrite !lookup_app_l by lia.
Qed.

Lemma readChars_prefix (t rest rest' : list Byte.byte) (n : nat) : ∀ i,
  0 <= i → i + Z.of_nat n <= Z.of_nat (length t) →
  readChars (t ++ rest) n i = readChars (t ++ rest') n i.
Proof.
  induction n as [| n IH]; intros i Hi Hn; [done |].
  cbn [readChars]. rewrite (getUint8_prefix t rest rest') by lia.
  by rewrite IH by lia.
Qed.

(** A read of a tag, or of a 32-bit number, sees the four bytes at the
    cursor only. *)
Lemma readString_at (buffer t rest : list Byte.byte) (off : Z) (s : jsstring) :
  0 <= off →
  drop (Z.to_nat off) buffer = t ++ rest →
  length t = 4%nat →
  readString t 4 0 = Ok (s, 4) →
  readString buffer 4 off = Ok (s, off + 4).
Proof.
  intros Hoff Hdrop Hlen. unfold readString.
  replace off with (off + 0) at 1 by lia.
  rewrite readChars_drop, Hdrop by lia.
  rewrite (readChars_prefix t rest []) by lia. rewrite app_nil_r.
  destruct (readChars t 4 0) as [chars |]; cbn [mbind res_bind]; [| done].
  by intros [= ->].
Qed.

Lemma getUint32_at (buffer t rest : list Byte.byte) (off : Z) :
  0 <= off →
  drop (Z.to_nat off) buffer = t ++ rest →
  length t = 4%nat →
  getUint32 buffer off = getUint32 t 0.
Proof.
  intros Hoff Hdrop Hlen.
  assert (Hbyte : ∀ i, 0 <= i < 4 → getUint8 buffer (off + i) = getUint8 t i).
  { intros i Hi. rewrite getUint8_drop, Hdrop by lia.
    rewrite (getUint8_prefix t rest []) by lia. by rewrite app_nil_r. }
  unfold getUint32, getUint16.
  replace off with (off + 0) at 1 by lia.
  replace (off + 2 + 1) with (off + 3) by lia.
  rewrite !Hbyte by lia. reflexivity.
Qed.

Lemma byteOfZ_mod (x : Z) : Z.of_N (Byte.to_N (byteOfZ x)) = x mod 256.
Proof.
  unfold byteOfZ. pose proof (Z.mod_pos_bound x 256).
  destruct (Byte.of_N (Z.to_N (x mod 256))) as [b |] eqn:Hb.
  - apply Byte.to_of_N in Hb. simpl. rewrite Hb. lia.
  - apply Byte.of_N_None_iff in Hb. lia.
Qed.

Lemma getUint32_le32 (v : Z) : 0 <= v < 2 ^ 32 → getUint32 (le32 v) 0 = Ok v.
Proof.
  intros Hv.
  change (getUint32 (le32 v) 0)
    with (Ok (Z.of_N (Byte.to_N (byteOfZ v)) + 256 * Z.of_N (Byte.to_N (byteOfZ (v / 256)))
              + 65536 * (Z.of_N (Byte.to_N (byteOfZ (v / 65536)))
                         + 256 * Z.of_N (Byte.to_N (byteOfZ (v / 65536 / 256))))) : res Z).
  rewrite !byteOfZ_mod. f_equal. change (2 ^ 32) with 4294967296 in Hv.
  Z.div_mod_to_equations. lia.
Qed.

Lemma readUint32_at (buffer rest : list Byte.byte) (off v : Z) :
  0 <= off → 0 <= v < 2 ^ 32 →
  drop (Z.to_nat off) buffer = le32 v ++ rest →
  readUint32 buffer off = Ok (v, off + 4).
Proof.
  intros Hoff Hv Hdrop. unfold readUint32.
  rewrite (getUint32_at buffer (le32 v) rest off Hoff Hdrop eq_refl).
  by rewrite getUint32_le32.
Qed.

Section File.

Variables pool pdta : list Byte.byte.

Let P := Z.of_nat (length pool).
Let D := Z.of_nat (length pdta).
Let file := bankFile pool pdta.

Hypothesis Hpool : 12 + P < 2 ^ 32.
Hypothesis Hpdta : 4 + D < 2 ^ 32.

Lemma bankFile_flat :
  file
  = (tag "RIFF" ++ le32 (36 + P + D) ++ tag "sfbk"
     ++ tag "LIST" ++ le32 (12 + P) ++ tag "sdta" ++ tag "smpl" ++ le32 P)
    ++ pool ++ (tag "LIST" ++ le32 (4 + D) ++ tag "pdta") ++ pdta.
Proof.
  unfold file, bankFile, chunkOf, P, D.
  rewrite !length_app. simpl length. rewrite <- !app_assoc.
  repeat first [progress f_equal | lia].
Qed.

Lemma bankFile_length : byteLength file = 44 + P + D.
Proof.
  unfold byteLength. rewrite bankFile_flat. unfold P, D.
  rewrite !length_app. simpl length. lia.
Qed.

Lemma bankFile_drop_pool :
  drop (Z.to_nat (32 + P)) file = tag "LIST" ++ le32 (4 + D) ++ tag "pdta" ++ pdta.
Proof.
  rewrite bankFile_flat, app_assoc.
  rewrite drop_app_length'; [by rewrite <- !app_assoc |].
  rewrite length_app. unfold P. simpl length. lia.
Qed.

Lemma bankFile_drop_after (k : Z) :
  0 <= k →
  drop (Z.to_nat (32 + P + k)) file
  = drop (Z.to_nat k) (tag "LIST" ++ le32 (4 + D) ++ tag "pdta" ++ pdta).
Proof.
  intros Hk. rewrite <- bankFile_drop_pool, drop_drop. f_equal. unfold P. lia.
Qed.

Let w0 : Walk :=
  {| w_pdta := emptyPdta; w_sdtaOffset := 0; w_sdtaSize := 0; w_offset := 12 |}.
Let w1 : Walk :=
  {| w_pdta := emptyPdta; w_sdtaOffset := 32; w_sdtaSize := P; w_offset := 32 + P |}.

Lemma bankFile_sdta (fuel : nat) : chunk file (S fuel) w0 = Some (Ok w1).
Proof.
  unfold chunk, w0. cbn [w_offset w_pdta w_sdtaOffset w_sdtaSize].
  erewrite (readString_at file (tag "LIST") _ 12 (lit "LIST"));
    [| lia | rewrite bankFile_flat; reflexivity | reflexivity | reflexivity].
  erewrite (readUint32_at file _ (12 + 4) (12 + P));
    [| lia | unfold P; lia | rewrite bankFile_flat; reflexivity].
  rewrite decide_True by reflexivity.
  erewrite (readString_at file (tag "sdta") _ (12 + 4 + 4) (lit "sdta"));
    [| lia | rewrite bankFile_flat; reflexivity | reflexivity | reflexivity].
  rewrite decide_False by (by vm_compute).
  rewrite decide_True by reflexivity.
  assert (Hsmpl : sdtaChunk file (0, 0, 12 + 4 + 4 + 4) = Ok (32, P, 32 + P)).
  { unfold sdtaChunk.
    erewrite (readString_at file (tag "smpl") _ _ (lit "smpl"));
      [| lia | rewrite bankFile_flat; reflexivity | reflexivity | reflexivity].
    cbn [mbind res_bind].
    erewrite (readUint32_at file _ _ P);
      [| lia | unfold P; lia | rewrite bankFile_flat; reflexivity].
    cbn [mbind res_bind]. rewrite decide_True by reflexivity. do 3 f_equal; lia. }
  rewrite (while_turn _ _ fuel _ (32, P, 32 + P));
    [| cbn [snd]; apply Z.ltb_lt; unfold P; lia | by rewrite Hsmpl].
  rewrite while_done by (cbn [snd]; apply Z.ltb_ge; lia).
  reflexivity.
Qed.

Lemma bankFile_pdta (fuel : nat) :
  chunk file fuel w1
  = match parsePdta file fuel (byteLength file) (44 + P) with
    | Some (Ok (p, o)) =>
        Some (Ok {| w_pdta := p; w_sdtaOffset := 32; w_sdtaSize := P; w_offset := o |})
    | Some (Throw e) => Some (Throw e)
    | None => None
    end.
Proof.
  unfold chunk, w1. cbn [w_offset w_pdta w_sdtaOffset w_sdtaSize].
  erewrite (readString_at file (tag "LIST") _ (32 + P) (lit "LIST"));
    [| unfold P; lia | apply bankFile_drop_pool | reflexivity | reflexivity].
  rewrite (readUint32_at file (tag "pdta" ++ pdta) (32 + P + 4) (4 + D));
    [| unfold P; lia | unfold D; lia | by rewrite (bankFile_drop_after 4)].
  rewrite decide_True by reflexivity.
  rewrite (readString_at file (tag "pdta") pdta (32 + P + 4 + 4) (lit "pdta"));
    [| unfold P; lia | | reflexivity | reflexivity].
  2: { replace (32 + P + 4 + 4) with (32 + P + 8) by lia.
       by rewrite (bankFile_drop_after 8). }
  rewrite decide_True by reflexivity.
  rewrite bankFile_length.
  replace (32 + P + 4 + 4 + (4 + D)) with (44 + P + D) by lia.
  replace (32 + P + 4 + 4 + 4) with (44 + P) by lia.
  reflexivity.
Qed.

(** [parse] on such a file: the pool starts at byte 32, and the tables are
    those [parsePdta] reads from byte [44 + P] on. *)
Lemma parse_bankFile :
  parse file
  = match parsePdta file (S (length file)) (byteLength file) (44 + P) with
    | Some (Ok (p, _)) =>
        Some (match shdr p with
              | None => Throw TypeError
              | Some headers =>
                  samples ← mapThrowing (attachData file 32) headers;
                  Ok (Build_ParsedData (phdr p) (inst p) (Some samples)
                        (pbag p) (ibag p) (pgen p) (igen p))
              end)
    | Some (Throw e) => Some (Throw e)
    | None => None
    end.
Proof.
  pose proof bankFile_length as Hlen.
  unfold parse, parseWith.
  erewrite (readString_at file (tag "RIFF") _ 0 (lit "RIFF"));
    [| lia | rewrite bankFile_flat; reflexivity | reflexivity | reflexivity].
  rewrite decide_True by reflexivity.
  destruct (readUint32_ok file (0 + 4)) as [v ->]; [lia | unfold P, D in *; lia |].
  erewrite (readString_at file (tag "sfbk") _ _ (lit "sfbk"));
    [| lia | rewrite bankFile_flat; reflexivity | reflexivity | reflexivity].
  rewrite decide_True by reflexivity.
  unfold walkAndAttach.
  assert (Hfuel : ∃ n, length file = S n).
  { unfold byteLength in Hlen. unfold P, D in *. exists (Nat.pred (length file)). lia. }
  destruct Hfuel as [n Hn]. rewrite Hn.
  replace (0 + 4 + 4 + 4) with 12 by lia. fold w0.
  rewrite (while_turn _ _ (S n) w0 w1);
    [| cbn [w0 w_offset]; apply Z.ltb_lt; unfold P, D in *; lia | apply bankFile_sdta].
  cbn [while]. rewrite (proj2 (Z.ltb_lt (w_offset w1) _));
    [| cbn [w1 w_offset]; unfold P, D in *; lia].
  rewrite bankFile_pdta.
  destruct (parsePdta file (S (S n)) (byteLength file) (44 + P)) as [[[p o] | e] |] eqn:Hp;
    [| done..].
  unfold parsePdta in Hp. apply while_exit in Hp. cbn [snd] in Hp.
  rewrite while_done by (by cbn [w_offset]).
  reflexivity.
Qed.

(** The bytes of the pool, in the file. *)
Lemma bankFile_pool_byte (i : Z) :
  0 <= i < P → getUint8 file (32 + i) = getUint8 pool i.
Proof.
  intros Hi. rewrite getUint8_drop by lia.
  replace (drop (Z.to_nat 32) file)
    with (pool ++ (tag "LIST" ++ le32 (4 + D) ++ tag "pdta") ++ pdta)
    by (rewrite bankFile_flat; reflexivity).
  rewrite (getUint8_prefix pool _ []) by (unfold P in Hi; lia).
  by rewrite app_nil_r.
Qed.

Lemma bankFile_pool_frame (j : Z) :
  0 <= j → j + 2 <= P → getInt16 file (32 + j) = getInt16 pool j.
Proof.
  intros H0 H2. unfold getInt16, getUint16.
  replace (32 + j + 1) with (32 + (j + 1)) by lia.
  by rewrite !bankFile_pool_byte by lia.
Qed.

End File.

Lemma mapThrowing_throws {A B : Type} (f : A → res B) (l : list A) (x : A) (e : exn) :
  x ∈ l → f x = Throw e → (∀ y e', f y = Throw e' → e' = e) →
  mapThrowing f l = Throw e.
Proof.
  intros Hin Hx Hall. induction l as [| y l IH]; [by apply elem_of_nil in Hin |].
  cbn [mapThrowing]. destruct (f y) as [b | e'] eqn:Hy; cbn [mbind res_bind].
  - apply elem_of_cons in Hin as [-> | Hin]; [congruence |].
    by rewrite (IH Hin).
  - by rewrite (Hall y e' Hy).
Qed.

Lemma attachData_RangeError (buffer : list Byte.byte) (sdtaOffset : Z) (s : SF2Sample) (e : exn) :
  attachData buffer sdtaOffset s = Throw e → e = RangeError.
Proof.
  unfold attachData.
  destruct (Int16Array _) as [d | e'] eqn:Hd; cbn [mbind res_bind]; [done |].
  intros [= <-]. clear -Hd.
  revert Hd. generalize (slice buffer (sdtaOffset + start s * 2) (sdtaOffset + end_ s * 2)).
  intros bytes. remember (length bytes) as n eqn:Hn.
  revert bytes Hn. induction (lt_wf n) as [n _ IH]. intros bytes Hn.
  destruct bytes as [| b0 [| b1 rest]]; cbn [Int16Array]; [done | by intros [= <-] |].
  destruct (Int16Array rest) as [frames | e''] eqn:Hrest; cbn [mbind res_bind]; [done |].
  intros [= <-]. apply (IH (length rest)) with (bytes := rest); [simpl in Hn; lia | done | done].
Qed.

(** X16. Sample materialisation, in a file whose [sdta] list holds the pool
    and is followed by the [pdta] list: in the tables [parse] returns, a
    sample whose frames [start .. end] lie inside the pool has
    [end - start] frames, and its frame [k] is the little-endian signed
    16-bit number at byte [2 (start + k)] of the pool. Frame offsets are
    doubled into byte offsets, and counted from the start of the [smpl]
    body. *)
Theorem parse_attaches_pool_frames (pool pdta : list Byte.byte) (tables : ParsedData) :
  12 + Z.of_nat (length pool) < 2 ^ 32 →
  4 + Z.of_nat (length pdta) < 2 ^ 32 →
  parse (bankFile pool pdta) = Some (Ok tables) →
  ∃ table, samples tables = Some table
    ∧ Forall (fun s =>
                0 <= start s <= end_ s →
                2 * end_ s <= Z.of_nat (length pool) →
                ∃ d, data s = Some d
                  ∧ Z.of_nat (length d) = end_ s - start s
                  ∧ ∀ k : nat, Z.of_nat k < end_ s - start s →
                      ∃ v, getInt16 pool (2 * (start s + Z.of_nat k)) = Ok v
                           ∧ d !! k = Some v)
             table.
Proof.
  intros Hpool Hpdta. rewrite (parse_bankFile pool pdta Hpool Hpdta).
  destruct (parsePdta _ _ _ _) as [[[p o] | e] |]; [| done..].
  destruct (shdr p) as [headers |]; [| done].
  destruct (mapThrowing _ headers) as [attached |] eqn:Hmap; cbn [mbind res_bind]; [| done].
  intros [= <-]. exists attached. split; [reflexivity |].
  eapply mapThrowing_Forall; [| exact Hmap].
  intros x y Hy Hrange Hin.
  pose proof (bankFile_length pool pdta) as Hlen.
  assert (Hsame : start y = start x ∧ end_ y = end_ x).
  { apply attachData_data in Hy as (d & -> & _). done. }
  destruct Hsame as [Hs He]. rewrite Hs, He in *.
  destruct (attachData_inside (bankFile pool pdta) 32 x) as (d & Hd & Hdlen & Hframes);
    [lia | lia | lia |].
  rewrite Hd in Hy. injection Hy as <-. exists d. split_and!; [done | done |].
  intros k Hk. destruct (Hframes k Hk) as (v & Hv & Hdk). exists v. split; [| done].
  rewrite <- Hv. symmetry. apply bankFile_pool_frame; lia.
Qed.

(** X17. The edges of sample materialisation, in such a file. [beyond] is
    the number of bytes from the start of the pool to the end of the file.
    In the tables [parse] returns, a sample that starts inside the file and
    whose end is not after its start, as the sentinel's is, has empty data;
    one whose end lies past the end of the file has the frames from its
    start to the end of the file, the slice being cut there without an
    error, and their bytes are even in number. For when the [pdta] list
    holds a header that starts inside the file and ends past it with an odd
    number of bytes left, [parse] throws a [RangeError]. *)
Theorem parse_sample_edges (pool pdta : list Byte.byte) :
  12 + Z.of_nat (length pool) < 2 ^ 32 →
  4 + Z.of_nat (length pdta) < 2 ^ 32 →
  let file := bankFile pool pdta in
  let beyond := Z.of_nat (length pool) + 12 + Z.of_nat (length pdta) in
  (∀ tables, parse file = Some (Ok tables) →
     ∃ table, samples tables = Some table
       ∧ Forall (fun s =>
                   0 <= start s → 0 <= end_ s → 2 * start s <= beyond →
                   (end_ s <= start s → data s = Some [])
                   ∧ (beyond < 2 * end_ s →
                      Z.even (beyond - 2 * start s) = true
                      ∧ ∃ d, data s = Some d
                          ∧ Z.of_nat (length d) = (beyond - 2 * start s) / 2))
                table)
  ∧ (∀ p off headers h,
       parsePdta file (S (length file)) (byteLength file)
         (44 + Z.of_nat (length pool)) = Some (Ok (p, off)) →
       shdr p = Some headers →
       h ∈ headers →
       0 <= start h → 0 <= end_ h → 2 * start h <= beyond → beyond < 2 * end_ h →
       Z.even (beyond - 2 * start h) = false →
       parse file = Some (Throw RangeError)).
Proof.
  intros Hpool Hpdta file beyond.
  pose proof (bankFile_length pool pdta) as Hlen. fold file in Hlen.
  assert (Hedge : ∀ x, 0 <= start x → 0 <= end_ x → 2 * start x <= beyond →
            (end_ x <= start x → attachData file 32 x = Ok (withData x []))
            ∧ (beyond < 2 * end_ x → Z.even (beyond - 2 * start x) = true →
               ∃ d, attachData file 32 x = Ok (withData x d)
                    ∧ Z.of_nat (length d) = (beyond - 2 * start x) / 2)
            ∧ (beyond < 2 * end_ x → Z.even (beyond - 2 * start x) = false →
               attachData file 32 x = Throw RangeError)).
  { intros x Hs He Hin.
    destruct (attachData_edge file 32 x) as (Hempty & Hcut & Hodd);
      [lia | lia | lia | unfold beyond in Hin; lia |].
    replace (byteLength file - (32 + start x * 2)) with (beyond - 2 * start x) in *
      by (unfold beyond; lia).
    split_and!.
    - exact Hempty.
    - intros Hpast. apply Hcut. unfold beyond in Hpast. lia.
    - intros Hpast. apply Hodd. unfold beyond in Hpast. lia. }
  split.
  - intros tables. unfold file. rewrite (parse_bankFile pool pdta Hpool Hpdta).
    destruct (parsePdta _ _ _ _) as [[[p o] | e] |]; [| done..].
    destruct (shdr p) as [headers |]; [| done].
    destruct (mapThrowing _ headers) as [attached |] eqn:Hmap; cbn [mbind res_bind]; [| done].
    intros [= <-]. exists attached. split; [reflexivity |].
    eapply mapThrowing_Forall; [| exact Hmap].
    intros x y Hy.
    assert (Hsame : start y = start x ∧ end_ y = end_ x).
    { apply attachData_data in Hy as (d & -> & _). done. }
    destruct Hsame as [Hsx Hex]. rewrite Hsx, Hex.
    intros Hs He Hin. destruct (Hedge x Hs He Hin) as (Hempty & Hcut & Hodd).
    fold file in Hy. split.
    + intros Hle. rewrite (Hempty Hle) in Hy. by injection Hy as <-.
    + intros Hpast. destruct (Z.even (beyond - 2 * start x)) eqn:Heven.
      * split; [done |]. destruct (Hcut Hpast eq_refl) as (d & Hd & Hdlen).
        rewrite Hd in Hy. injection Hy as <-. by exists d.
      * by rewrite (Hodd Hpast eq_refl) in Hy.
  - intros p off headers h Hp Hheaders Hh Hs He Hin Hpast Hodd.
    unfold file in *. rewrite (parse_bankFile pool pdta Hpool Hpdta), Hp, Hheaders.
    destruct (Hedge h Hs He Hin) as (_ & _ & Hthrows).
    rewrite (mapThrowing_throws _ headers h RangeError Hh (Hthrows Hpast Hodd)); [done |].
    intros y e'. apply attachData_RangeError.
Qed.

End Pool.

(** ** More examples *)

Section MoreInstances.

Import SFZConverter.

(** X3 at a pan of 43.7 percent to the right, and one of 0.5 to the left. *)
Lemma pan_examples :
  (-500 <= 437 <= 500 ∧ -500 <= -5 <= 500)
  ∧ panText exampleToString 437 = lit "43.70"
  ∧ panText exampleToString (-5) = lit "-0.50".
Proof.
  assert (H1 : -500 <= 437 <= 500) by lia.
  assert (H2 : -500 <= -5 <= 500) by lia.
  split; [done |]. split.
  - exact (proj1 (pan_written_exactly exampleToString 437 H1)).
  - exact (proj1 (pan_written_exactly exampleToString (-5) H2)).
Defined.

(** X4 at the bytes 60 and 255: the amount is negative, the bounds are 60
    and 127. *)
Lemma wide_range_loses_top_bit :
  SF2Parser.getInt16 wideRangeBytes 0 = Ok (-196)
  ∧ rangeLo (-196) = 60 ∧ rangeHi (-196) = 127.
Proof.
  assert (H : SF2Parser.getInt16 wideRangeBytes 0 = Ok (-196)) by (vm_compute; reflexivity).
  split; [exact H |].
  destruct (range_bounds_from_bytes wideRangeBytes 0 (-196) H)
    as (lo & hi & Hlo & Hhi & Hrl & Hrh).
  vm_compute in Hlo, Hhi. injection Hlo as <-. injection Hhi as <-.
  split; [exact Hrl | exact Hrh].
Defined.

(** X5 and X6 at the sample of a hundred frames. *)
Lemma hundred_frames_header :
  ∃ buf, createWavBuffer sndSample = Ok buf
    ∧ u32le buf 24 = 44100 ∧ u32le buf 28 = 88200
    ∧ u32le buf 4 = Z.of_nat (length buf) - 8.
Proof.
  assert (Hdata : data sndSample = Some hundredFrames) by reflexivity.
  assert (Hrate : 0 <= sampleRate sndSample * 2 < 2 ^ 32) by (vm_compute; split; discriminate || reflexivity).
  assert (Hsize : 36 + 2 * Z.of_nat (length hundredFrames) < 2 ^ 32)
    by (vm_compute; reflexivity).
  destruct (wav_header_fields sndSample hundredFrames Hdata Hrate Hsize)
    as (buf & Hbuf & _ & _ & _ & _ & _ & H24 & H28 & _ & _ & _ & H4 & _).
  exists buf. by split_and!.
Defined.

Lemma hundred_frames_round_trip :
  ∃ buf, createWavBuffer sndSample = Ok buf
    ∧ SF2Parser.Int16Array (byteOfZ <$> drop 44 buf) = Ok hundredFrames.
Proof.
  assert (Hdata : data sndSample = Some hundredFrames) by reflexivity.
  assert (Hint : Forall int16 hundredFrames)
    by (refine (bool_decide_unpack _ _); vm_compute; exact I).
  destruct (wav_frames_round_trip sndSample hundredFrames Hdata Hint)
    as (buf & Hbuf & _ & Hback).
  exists buf. by split.
Defined.

(** X8 at a bag with two pan generators: the second one stays. *)
Lemma second_pan_stays :
  SFZConverter.getGenerators (Some twicePanBags) (Some twicePanGens) 0
  = Ok {[43 := 5; 17 := 20]}
  ∧ ¬ ∃ j g, 0 <= j < 3 ∧ at_ twicePanGens j = Some g ∧ operator g = 17 ∧ amount g = 10
             ∧ ∀ j' g', j < j' < 3 → at_ twicePanGens j' = Some g' → operator g' ≠ 17.
Proof.
  assert (Hbag : at_ twicePanBags 0 = Some (bag 0)) by reflexivity.
  assert (Hgens : SFZConverter.getGenerators (Some twicePanBags) (Some twicePanGens) 0
                  = Ok {[43 := 5; 17 := 20]}) by (vm_compute; reflexivity).
  split; [exact Hgens |]. intros Hfirst.
  apply (proj2 (getGenerators_last_wins twicePanBags twicePanGens 0 (bag 0) _ Hbag Hgens)
           17 10) in Hfirst.
  vm_compute in Hfirst. discriminate Hfirst.
Defined.

(** X9 at a bank whose tables are all there, with bags inside the generator
    tables. *)
Lemma global_range_bank_returns :
  (gensInBounds [bag 0; bag 1] [gen 41 0; gen 0 0]
   ∧ gensInBounds [bag 0; bag 1; bag 2] [gen 43 16384; gen 53 0; gen 0 0]
   ∧ uint16 (bagIndex (mkPreset "Test" 0))
   ∧ zoneIndices16 globalRangeBank)
  ∧ ∃ regions,
      getSFZContent examplePow exampleToString (mkPreset "Test" 0) 0 globalRangeBank
        (lit "Bank")
      = Ok (header (mkPreset "Test" 0) (lit "Bank") ++ regions).
Proof.
  assert (Hp : gensInBounds [bag 0; bag 1] [gen 41 0; gen 0 0])
    by (repeat constructor; simpl; lia).
  assert (Hi : gensInBounds [bag 0; bag 1; bag 2] [gen 43 16384; gen 53 0; gen 0 0])
    by (repeat constructor; simpl; lia).
  assert (Hpreset : uint16 (bagIndex (mkPreset "Test" 0))) by (unfold uint16; simpl; lia).
  assert (Hzones : zoneIndices16 globalRangeBank).
  { split; intros table [= <-]; repeat constructor; unfold uint16; simpl; lia. }
  split; [by split_and! |].
  exact (getSFZContent_returns examplePow exampleToString (mkPreset "Test" 0) 0
           globalRangeBank (lit "Bank") _ _ _ _
           (mk_is_Some _ _ eq_refl) (mk_is_Some _ _ eq_refl) (mk_is_Some _ _ eq_refl)
           eq_refl eq_refl Hp eq_refl eq_refl Hi Hpreset Hzones).
Defined.

(** X19 at a preset all of whose references lead nowhere: instrument 7 and
    sample 9 do not exist, and sample 1 is the sentinel. *)
Lemma dangling_bank_header_only :
  getSFZContent examplePow exampleToString (mkPreset "Test" 0) 0 danglingBank (lit "Bank")
  = Ok (lit "// Test" ++ nl
        ++ lit "// Converted from SF2 to SFZ by SF2 to SFZ Studio" ++ nl ++ nl
        ++ lit "<control>" ++ nl
        ++ lit "default_path=Bank Test Samples" ++ nl ++ nl).
Proof.
  destruct (dangling_references_skipped examplePow exampleToString danglingBank
              (mkPreset "Test" 0) 0 (lit "Bank")) as (_ & _ & _ & Hskipped & _).
  apply (Hskipped {[41 := 7]} 2).
  - unfold uint16. simpl. lia.
  - split; intros table [= <-]; repeat constructor; unfold uint16; simpl; lia.
  - vm_compute. reflexivity.
  - vm_compute. reflexivity.
  - intros pb Hpb. change (0 <= pb < 2) in Hpb.
    assert (Hcases : pb = 0 ∨ pb = 1) by lia.
    destruct Hcases as [-> | ->].
    + exists {[41 := 7]}. split; [vm_compute; reflexivity |].
      intros instId Hid. vm_compute in Hid. injection Hid as <-.
      eexists. split; [reflexivity | exact I].
    + exists {[41 := 0]}. split; [vm_compute; reflexivity |].
      intros instId Hid. vm_compute in Hid. injection Hid as <-.
      eexists. split; [reflexivity |].
      exists {[53 := 9]}, 2. split_and!; [vm_compute; reflexivity.. |].
      intros ib Hib.
      assert (Hcases : ib = 0 ∨ ib = 1) by (change (0 <= ib < 2) in Hib; lia).
      destruct Hcases as [-> | ->].
      * exists {[53 := 9]}. split; [vm_compute; reflexivity |].
        intros sampleId Hid. vm_compute in Hid. injection Hid as <-.
        eexists. split; [reflexivity | exact I].
      * exists {[53 := 1]}. split; [vm_compute; reflexivity |].
        intros sampleId Hid. vm_compute in Hid. injection Hid as <-.
        eexists. split; reflexivity.
Defined.

(** X13, X14 and X18 at the example file. *)
Lemma example_file_is_a_soundfont :
  ∃ tables, SF2Parser.parse oddBagFile = Some (Ok tables)
    ∧ take 4 oddBagFile = tag "RIFF" ∧ take 4 (drop 8 oddBagFile) = tag "sfbk".
Proof.
  destruct (SF2Parser.parse oddBagFile) as [[tables | e] |] eqn:Hparse.
  - exists tables. split; [reflexivity |].
    exact (parse_accepts_only_soundfonts oddBagFile tables Hparse).
  - vm_compute in Hparse. discriminate Hparse.
  - vm_compute in Hparse. discriminate Hparse.
Defined.

Lemma example_file_name :
  SF2Parser.readString oddBagFile 20 32 = Ok (lit "EOP", 52)
  ∧ trim (lit "EOP") = lit "EOP".
Proof.
  assert (H : SF2Parser.readString oddBagFile 20 32 = Ok (lit "EOP", 52))
    by (vm_compute; reflexivity).
  split; [exact H |].
  exact (proj2 (proj2 (proj2 (readString_returns_trimmed oddBagFile 20 32 52 (lit "EOP") H)))).
Defined.

Lemma example_file_samples :
  ∃ tables table, SF2Parser.parse oddBagFile = Some (Ok tables)
    ∧ samples tables = Some table
    ∧ Forall (fun s => ∃ d, data s = Some d ∧ Forall int16 d
                            ∧ returns (createWavBuffer s) = true)
             table.
Proof.
  destruct (SF2Parser.parse oddBagFile) as [[tables | e] |] eqn:Hparse.
  - destruct (parsed_samples_have_data oddBagFile tables Hparse)
      as (table & Htable & Hdata & _).
    exists tables, table. split_and!; [reflexivity | exact Htable | exact Hdata].
  - vm_compute in Hparse. discriminate Hparse.
  - vm_compute in Hparse. discriminate Hparse.
Defined.

(** X16 at a file whose sample takes the frames 1 to 3 of the pool, and X17
    at one whose sample asks for the frames 2 to 100 of its four. *)
Lemma pool_frames :
  (12 + Z.of_nat (length pcmPool) < 2 ^ 32 ∧ 4 + Z.of_nat (length poolHeaders) < 2 ^ 32)
  ∧ ∃ tables table,
      SF2Parser.parse (bankFile pcmPool poolHeaders) = Some (Ok tables)
      ∧ samples tables = Some table
      ∧ data <$> table = [Some [-2; 300]; Some []]
      ∧ Forall (fun s =>
                  0 <= start s <= end_ s →
                  2 * end_ s <= Z.of_nat (length pcmPool) →
                  ∃ d, data s = Some d
                    ∧ Z.of_nat (length d) = end_ s - start s
                    ∧ ∀ k : nat, Z.of_nat k < end_ s - start s →
                        ∃ v, SF2Parser.getInt16 pcmPool (2 * (start s + Z.of_nat k)) = Ok v
                             ∧ d !! k = Some v)
               table.
Proof.
  assert (Hpool : 12 + Z.of_nat (length pcmPool) < 2 ^ 32) by (vm_compute; reflexivity).
  assert (Hpdta : 4 + Z.of_nat (length poolHeaders) < 2 ^ 32) by (vm_compute; reflexivity).
  split; [by split |].
  destruct (SF2Parser.parse (bankFile pcmPool poolHeaders)) as [[tables | e] |] eqn:Hparse.
  - destruct (parse_attaches_pool_frames pcmPool poolHeaders tables Hpool Hpdta Hparse)
      as (table & Htable & Hframes).
    exists tables, table. split_and!; [reflexivity | exact Htable | | exact Hframes].
    vm_compute in Hparse. injection Hparse as <-.
    cbn [samples] in Htable. injection Htable as <-. reflexivity.
  - vm_compute in Hparse. discriminate Hparse.
  - vm_compute in Hparse. discriminate Hparse.
Defined.

Lemma pool_cut_at_the_end :
  (12 + Z.of_nat (length pcmPool) < 2 ^ 32 ∧ 4 + Z.of_nat (length longHeaders) < 2 ^ 32)
  ∧ ∃ tables table,
      SF2Parser.parse (bankFile pcmPool longHeaders) = Some (Ok tables)
      ∧ samples tables = Some table
      ∧ length <$> (table !! 0%nat ≫= data) = Some 58%nat
      ∧ Forall (fun s =>
                  0 <= start s → 0 <= end_ s → 2 * start s <= 8 + 12 + 100 →
                  (end_ s <= start s → data s = Some [])
                  ∧ (8 + 12 + 100 < 2 * end_ s →
                     Z.even (8 + 12 + 100 - 2 * start s) = true
                     ∧ ∃ d, data s = Some d
                         ∧ Z.of_nat (length d) = (8 + 12 + 100 - 2 * start s) / 2))
               table.
Proof.
  assert (Hpool : 12 + Z.of_nat (length pcmPool) < 2 ^ 32) by (vm_compute; reflexivity).
  assert (Hpdta : 4 + Z.of_nat (length longHeaders) < 2 ^ 32) by (vm_compute; reflexivity).
  split; [by split |].
  destruct (SF2Parser.parse (bankFile pcmPool longHeaders)) as [[tables | e] |] eqn:Hparse.
  - destruct (parse_sample_edges pcmPool longHeaders Hpool Hpdta) as [Hedges _].
    destruct (Hedges tables Hparse) as (table & Htable & Hsamples).
    exists tables, table. split_and!; [reflexivity | exact Htable | | exact Hsamples].
    vm_compute in Hparse. injection Hparse as <-.
    cbn [samples] in Htable. injection Htable as <-. reflexivity.
  - vm_compute in Hparse. discriminate Hparse.
  - vm_compute in Hparse. discriminate Hparse.
Defined.

End MoreInstances.
